(** * peertube-supernovao: job orchestration and lifecycle engine

    A shallow embedding of the bridge's lifecycle code
    ([lib/health.js], [lib/runner-client.js], [lib/result-assembler.js],
    [lib/job-translator.js], [lib/pool-manager.js], [lib/bridge.js]) and the
    properties of its specification.

    Conventions.
    - JavaScript numbers that hold milliseconds are [Z]; counters are [nat].
      Where the code divides, the doubles are modelled ([Double]).
    - A [Map] whose iteration order is observable is an association list in
      insertion order; a [Map] or [Set] used for membership and size only is
      a [gmap] or [gset].
    - An [async] function is a computation in the monad [M]: it threads the
      state it mutates and either returns or throws.  State changes made
      before a throw persist, as they do in JavaScript.
    - What the outside world answers (HTTP replies, file system, the encoding
      substrate, the clock) is an explicit argument of the function that
      awaits it. *)

From stdpp Require Import gmap strings list fin_maps sorting pretty.
From Stdlib Require Import ZArith Lia QArith Qround Qpower Lqa SpecFloat.

Local Open Scope Z_scope.

(** ** Errors

    Every [new Error(`...`)] of the sources is a constructor; [message]
    renders the template string. *)

Inductive error : Type :=
  | NoJobToken (jobUUID : string)
  | HttpFailed (what : string) (status : Z) (body : string)
  | Rejected (msg : string)
  | JobTimedOut (ms : Z)
  | PoolNotReady (driveId : string)
  | OutputMissing (path : string)
  | OutputEmpty (path : string)
  | FfprobeFailed (path msg : string)
  | NoMediaStreams (path : string)
  | UnsupportedJobType (jobType : string)
  | PayloadInputMissing (jobType : string)
  | PayloadOutputMissing (jobType : string)
  | DownloadFailed (status : Z) (statusText url : string).

Definition message (e : error) : string :=
  match e with
  | NoJobToken j => "No job token for job " +:+ j
  | HttpFailed what st b => what +:+ " failed: " +:+ pretty st +:+ " " +:+ b
  | Rejected msg => msg
  | JobTimedOut ms => "Job timed out after " +:+ pretty ms +:+ "ms"
  | PoolNotReady d => "Pool not ready — no segments found in drive " +:+ d
  | OutputMissing p => "Output file missing: " +:+ p
  | OutputEmpty p => "Output file is empty: " +:+ p
  | FfprobeFailed p msg => "ffprobe failed on " +:+ p +:+ ": " +:+ msg
  | NoMediaStreams p => "No media streams found in " +:+ p
  | UnsupportedJobType t => "Unsupported job type: " +:+ t
  | PayloadInputMissing t => "payload.input missing for job type " +:+ t
  | PayloadOutputMissing t => "payload.output missing for job type " +:+ t
  | DownloadFailed st txt u =>
      "Download failed: " +:+ pretty st +:+ " " +:+ txt +:+ " from " +:+ u
  end.

(** The timeout class of the error taxonomy: raised by a deadline. *)
Definition is_timeout (e : error) : bool :=
  match e with JobTimedOut _ => true | _ => false end.

Definition is_no_job_token (e : error) : bool :=
  match e with NoJobToken _ => true | _ => false end.

(** ** Outcomes and the state-and-exception monad *)

Inductive outcome (A : Type) : Type :=
  | Returned (a : A)
  | Threw (e : error).
Arguments Returned {A} a.
Arguments Threw {A} e.

Definition returned {A} (o : outcome A) : bool :=
  match o with Returned _ => true | Threw _ => false end.

Definition M (S A : Type) : Type := S → outcome A * S.

Definition ret {S A} (a : A) : M S A := λ s, (Returned a, s).

Definition bind {S A B} (c : M S A) (k : A → M S B) : M S B :=
  λ s, match c s with
       | (Returned a, s') => k a s'
       | (Threw e, s') => (Threw e, s')
       end.

Definition throw {S A} (e : error) : M S A := λ s, (Threw e, s).

Definition modify {S} (f : S → S) : M S unit := λ s, (Returned (), f s).

Definition gets {S A} (f : S → A) : M S A := λ s, (Returned (f s), s).

(** [try { c } catch (err) { h err }] *)
Definition try_catch {S A} (c : M S A) (h : error → M S A) : M S A :=
  λ s, match c s with
       | (Returned a, s') => (Returned a, s')
       | (Threw e, s') => h e s'
       end.

(** [try { c } finally { f }]: [f] always runs; an error of [f] replaces the
    outcome of [c]. *)
Definition try_finally {S A} (c : M S A) (f : M S unit) : M S A :=
  λ s, match c s with
       | (o, s') =>
           match f s' with
           | (Returned _, s'') => (o, s'')
           | (Threw e, s'') => (Threw e, s'')
           end
       end.

(** [p.catch(() => {})] and [try { c } catch { }]: the error is absorbed. *)
Definition swallow {S A} (c : M S A) : M S unit :=
  λ s, match c s with (_, s') => (Returned (), s') end.

(** Run a computation on a component of a larger state. *)
Definition zoom {S T A} (get : T → S) (set : S → T → T) (c : M S A) : M T A :=
  λ t, match c (get t) with (o, s') => (o, set s' t) end.

(** An awaited external call whose result the environment decides. *)
Definition await {S A} (o : outcome A) : M S A := λ s, (o, s).

(** [c] never changes what [f] reads of the state, whether it returns or
    throws. *)
Definition preserves {S A T} (f : S → T) (c : M S A) : Prop := ∀ s, f (c s).2 = f s.

Notation "x <- c ;; k" := (bind c (λ x, k))
  (at level 100, c at next level, right associativity, only parsing).
Notation "c ;;; k" := (bind c (λ _, k))
  (at level 100, right associativity, only parsing).

(** ** JavaScript helpers *)

(** [a || b] on a number that may be [undefined]: [0] is falsy too. *)
Definition num_or (a : option Z) (b : Z) : Z :=
  match a with
  | Some v => if v =? 0 then b else v
  | None => b
  end.

(** Node clamps the delay of [setTimeout]: outside [1 .. 2^31-1] it is 1. *)
Definition TIMEOUT_MAX : Z := 2147483647.

Definition timer_delay (ms : Z) : Z :=
  if (1 <=? ms) && (ms <=? TIMEOUT_MAX) then ms else 1.

(** ** JavaScript numbers: binary64, round to nearest, ties to even *)

Module Double.

(** A number is the rational it denotes.  Only what the percentages need
    is here: non-negative numbers, division, multiplication and
    [Math.floor].  The exponent range is not modelled: an array length is
    below 2^32, so no quotient overflows or is subnormal. *)

(** The integer nearest to [y], ties to the even one. *)
Definition rne (y : Q) : Z :=
  let f := Qfloor y in
  match (y - inject_Z f ?= 1 # 2)%Q with
  | Lt => f
  | Gt => f + 1
  | Eq => if Z.even f then f else f + 1
  end.

(** [floor (log2 x)] for [0 < x]. *)
Definition ilog2 (x : Q) : Z :=
  let k := Z.log2 (Qnum x) - Z.log2 (Zpos (Qden x)) in
  if Qle_bool (2 ^ k) x then k else k - 1.

(** The number with a significand of 53 bits nearest to [x], ties to even. *)
Definition round (x : Q) : Q :=
  if Qle_bool x 0 then 0%Q
  else let e := ilog2 x - 52 in (inject_Z (rne (x / 2 ^ e)) * 2 ^ e)%Q.

(** An array length is represented exactly. *)
Definition of_nat (n : nat) : Q := inject_Z (Z.of_nat n).

(** [a / b], [a * b] and [Math.floor(x)] *)
Definition div (a b : Q) : Q := round (a / b).
Definition mul (a b : Q) : Q := round (a * b).
Definition floor (x : Q) : Z := Qfloor x.

(** The Standard Library's specification of binary64 ([SpecFloat]), to
    compare with: the conversion of an integer, and [Math.floor]. *)
Definition reference_of_nat (n : nat) : spec_float :=
  binary_normalize 53 1024 (Z.of_nat n) 0 false.
Definition reference_floor (x : spec_float) : Z :=
  match x with
  | S754_finite false m e => if 0 <=? e then Zpos m * 2 ^ e else Zpos m / 2 ^ (- e)
  | S754_finite true m e => if 0 <=? e then - Zpos m * 2 ^ e else (- Zpos m) / 2 ^ (- e)
  | _ => 0
  end.
End Double.

(** ** lib/health.js: JobWatchdog

    The watchdog state together with the runtime timers it created.  A timer
    created by [setTimeout] stays pending until it fires or [clearTimeout] is
    called on its handle, whether or not the [jobs] map still refers to it. *)

Module JobWatchdog.
Section WithCallback.
Context {Cb : Type}.

(** A pending [setTimeout]: it will call [timer_cb timer_arg] at [due]. *)
Record timer : Type :=
  Timer { handle : nat; due : Z; timer_cb : Cb; timer_arg : string }.

(** [{ timer, onTimeout, startTime }] *)
Record entry : Type :=
  Entry { entry_timer : nat; onTimeout : Cb; startTime : Z }.

Record t : Type := Watchdog {
  timeoutMs : Z;
  jobs : gmap string entry;
  pending : list timer;
  next_handle : nat;
  fired : list (Cb * string)
}.

(** [constructor(timeoutMs)] *)
Definition new (timeout : option Z) : t :=
  Watchdog (num_or timeout 3600000) ∅ [] 0%nat [].

Definition clearTimeout (h : nat) (ts : list timer) : list timer :=
  filter (λ tm, handle tm ≠ h) ts.

(** [watch(jobUUID, onTimeout)] at clock reading [now]. *)
Definition watch (now : Z) (jobUUID : string) (cb : Cb) (w : t) : t :=
  let h := next_handle w in
  Watchdog (timeoutMs w)
    (<[jobUUID := Entry h cb now]> (jobs w))
    (pending w ++ [Timer h (now + timer_delay (timeoutMs w)) cb jobUUID])
    (S h) (fired w).

(** [kick(jobUUID)]: the entry object is kept, only its timer changes. *)
Definition kick (now : Z) (jobUUID : string) (w : t) : t :=
  match jobs w !! jobUUID with
  | None => w
  | Some e =>
      let h := next_handle w in
      Watchdog (timeoutMs w)
        (<[jobUUID := Entry h (onTimeout e) (startTime e)]> (jobs w))
        (clearTimeout (entry_timer e) (pending w)
           ++ [Timer h (now + timer_delay (timeoutMs w)) (onTimeout e) jobUUID])
        (S h) (fired w)
  end.

(** [clear(jobUUID)] *)
Definition clear (jobUUID : string) (w : t) : t :=
  match jobs w !! jobUUID with
  | None => w
  | Some e =>
      Watchdog (timeoutMs w) (delete jobUUID (jobs w))
        (clearTimeout (entry_timer e) (pending w))
        (next_handle w) (fired w)
  end.

(** [clearAll()]: cancels the timer of every entry, then empties the map. *)
Definition clearAll (w : t) : t :=
  Watchdog (timeoutMs w) ∅
    (filter (λ tm, map_Forall (λ _ e, entry_timer e ≠ handle tm) (jobs w))
            (pending w))
    (next_handle w) (fired w).

(** [elapsed(jobUUID)] *)
Definition elapsed (now : Z) (jobUUID : string) (w : t) : Z :=
  match jobs w !! jobUUID with
  | None => -1
  | Some e => now - startTime e
  end.

(** Timers fire in order of deadline, ties in order of creation. *)
Fixpoint insert_by_due (tm : timer) (ts : list timer) : list timer :=
  match ts with
  | [] => [tm]
  | x :: r => if due tm <? due x then tm :: x :: r else x :: insert_by_due tm r
  end.

Definition by_due (ts : list timer) : list timer :=
  foldr insert_by_due [] (reverse ts).

(** The clock reaches [now]: every pending timer that is due runs its
    callback once and is gone. *)
Definition advance (now : Z) (w : t) : t :=
  let dues := by_due (filter (λ tm, due tm ≤ now) (pending w)) in
  Watchdog (timeoutMs w) (jobs w)
    (filter (λ tm, now < due tm) (pending w))
    (next_handle w)
    (fired w ++ ((λ tm, (timer_cb tm, timer_arg tm)) <$> dues)).

(** The pending timers that will call back for [jobUUID]. *)
Definition timers_for (jobUUID : string) (w : t) : list timer :=
  filter (λ tm, timer_arg tm = jobUUID) (pending w).

(** How often a timeout was delivered for [jobUUID]. *)
Definition timeouts_of (jobUUID : string) (w : t) : nat :=
  length (filter (λ p, p.2 = jobUUID) (fired w)).

(** The calls on a watchdog and the passing of time, as data. *)
Inductive op : Type :=
  | Watch (now : Z) (jobUUID : string) (cb : Cb)
  | Kick (now : Z) (jobUUID : string)
  | Clear (jobUUID : string)
  | ClearAll
  | Advance (now : Z).

Definition perform (o : op) (w : t) : t :=
  match o with
  | Watch now id cb => watch now id cb w
  | Kick now id => kick now id w
  | Clear id => clear id w
  | ClearAll => clearAll w
  | Advance now => advance now w
  end.

Definition performs (os : list op) (w : t) : t := foldl (λ w o, perform o w) w os.

(** The way the bridge uses the watchdog: [watch] is called for an id that
    has no entry. *)
Fixpoint disciplined (os : list op) (w : t) : Prop :=
  match os with
  | [] => True
  | o :: r =>
      match o with Watch _ id _ => jobs w !! id = None | _ => True end
      ∧ disciplined r (perform o w)
  end.

(** Every pending timer is the one that the entry of its job refers to, and
    no handle is in use twice. *)
Definition tidy (w : t) : Prop :=
  (∀ tm, tm ∈ pending w →
     (handle tm < next_handle w)%nat
     ∧ ∃ e, jobs w !! timer_arg tm = Some e ∧ entry_timer e = handle tm)
  ∧ NoDup (handle <$> pending w).
End WithCallback.
Arguments timer : clear implicits.
Arguments entry : clear implicits.
Arguments t : clear implicits.
Arguments op : clear implicits.
End JobWatchdog.

(** ** lib/health.js: HealthMonitor *)

Module HealthMonitor.

(** What one reachability probe of [_check] observed. *)
Inductive probe : Type :=
  | ProbeOk
  | ProbeStatus (status : Z)
  | ProbeThrew (msg : string).

(** The [reason] handed to [_recordFailure]. *)
Inductive reason : Type :=
  | ReturnedStatus (status : Z)
  | FetchError (msg : string).

Inductive event : Type :=
  | Unhealthy (why : reason) (consecutiveFailures : nat)
  | ZombieWarning (jobUUID : string) (elapsed : Z).

Record config : Type := Config {
  cfg_checkIntervalMs : option Z;
  cfg_jobTimeoutMs : option Z;
  cfg_maxConsecutiveFailures : option nat
}.

Record t : Type := Monitor {
  checkIntervalMs : Z;
  jobTimeoutMs : Z;
  maxConsecutiveFailures : nat;
  consecutiveFailures : nat;
  healthy : bool;
  interval : bool;
  events : list event
}.

(** [constructor(runnerClient, poolManager, config)] *)
Definition new (config : option config) : t :=
  Monitor
    (num_or (config ≫= cfg_checkIntervalMs) 30000)
    (num_or (config ≫= cfg_jobTimeoutMs) 3600000)
    (match config ≫= cfg_maxConsecutiveFailures with
     | Some (S n) => S n
     | _ => 5%nat
     end)
    0%nat true false [].

Definition start (m : t) : t :=
  Monitor (checkIntervalMs m) (jobTimeoutMs m) (maxConsecutiveFailures m)
    (consecutiveFailures m) (healthy m) true (events m).

Definition stop (m : t) : t :=
  Monitor (checkIntervalMs m) (jobTimeoutMs m) (maxConsecutiveFailures m)
    (consecutiveFailures m) (healthy m) false (events m).

Definition isHealthy (m : t) : bool := healthy m.

(** [_recordFailure(reason)] *)
Definition _recordFailure (why : reason) (m : t) : t :=
  let n := S (consecutiveFailures m) in
  if (maxConsecutiveFailures m <=? n)%nat
  then Monitor (checkIntervalMs m) (jobTimeoutMs m) (maxConsecutiveFailures m)
         n false (interval m) (events m ++ [Unhealthy why n])
  else Monitor (checkIntervalMs m) (jobTimeoutMs m) (maxConsecutiveFailures m)
         n (healthy m) (interval m) (events m).

(** The zombie scan of [_check]: observation only.  [started] lists the
    pool manager's active jobs with their [startTime]. *)
Definition zombies (now : Z) (jobTimeout : Z) (started : list (string * Z))
  : list event :=
  omap (λ '(uuid, startTime),
          let elapsed := now - startTime in
          if jobTimeout * 2 <? elapsed then Some (ZombieWarning uuid elapsed)
          else None)
       started.

(** [_check()] *)
Definition _check (p : probe) (now : Z) (started : list (string * Z)) (m : t) : t :=
  let m1 :=
    match p with
    | ProbeOk =>
        Monitor (checkIntervalMs m) (jobTimeoutMs m) (maxConsecutiveFailures m)
          0%nat true (interval m) (events m)
    | ProbeStatus st => _recordFailure (ReturnedStatus st) m
    | ProbeThrew msg => _recordFailure (FetchError msg) m
    end in
  Monitor (checkIntervalMs m1) (jobTimeoutMs m1) (maxConsecutiveFailures m1)
    (consecutiveFailures m1) (healthy m1) (interval m1)
    (events m1 ++ zombies now (jobTimeoutMs m1) started).

Definition probe_failed (p : probe) : bool :=
  match p with ProbeOk => false | _ => true end.

Definition is_unhealthy (e : event) : bool :=
  match e with Unhealthy _ _ => true | _ => false end.

Definition reason_of (p : probe) : reason :=
  match p with
  | ProbeStatus st => ReturnedStatus st
  | ProbeThrew msg => FetchError msg
  | ProbeOk => FetchError ""
  end.

(** The "unhealthy" notifications emitted by one probe cycle. *)
Definition notified (p : probe) (now : Z) (started : list (string * Z)) (m : t)
  : list event :=
  filter (λ e, is_unhealthy e = true)
         (drop (length (events m)) (events (_check p now started m))).

(** One firing of the interval: the probe result, the clock and the pool
    manager's active jobs at that moment. *)
Definition cycle : Type := probe * Z * list (string * Z).

Definition checks (cs : list cycle) (m : t) : t :=
  foldl (λ m '(p, now, started), _check p now started m) m cs.

(** The number of failed probes at the head of a list of cycles, and at its
    end: the failures since the last success. *)
Fixpoint leading_failures (cs : list cycle) : nat :=
  match cs with
  | c :: r => if probe_failed c.1.1 then S (leading_failures r) else 0%nat
  | [] => 0%nat
  end.

Definition trailing_failures (cs : list cycle) : nat := leading_failures (reverse cs).
End HealthMonitor.

(** ** lib/runner-client.js: RunnerClient *)

(** What [fetch] and the reading of the body gave. *)
Inductive reply (D : Type) : Type :=
  | NetworkError (msg : string)
  | Reply (ok : bool) (status : Z) (text : string) (data : D).
Arguments NetworkError {D} msg.
Arguments Reply {D} ok status text data.

(** A job as the queue offers it; the payload keeps the fields that
    [translateJob] reads. *)
Record payload_input : Type :=
  PayloadInput { videoFileUrl : string; audioFileUrl : string }.
Record payload_output : Type :=
  PayloadOutput { resolution : Z; fps : Z }.
Record payload : Type :=
  Payload { input : option payload_input; output : option payload_output }.
Record job : Type :=
  Job { uuid : string; type : string; job_payload : payload }.

Module RunnerClient.

Inductive body : Type :=
  | RunnerBody (runnerToken : option string)
  | UpdateBody (runnerToken : option string) (jobToken : string) (progress : Z)
  | SuccessForm (runnerToken : option string) (jobToken : string) (file : string)
  | ErrorBody (runnerToken : option string) (jobToken : string) (message : string)
  | AbortBody (runnerToken : option string) (jobToken : string).

(** One call of [fetch]. *)
Record request : Type := Request { req_url : string; req_body : body }.

Record t : Type := Client {
  url : string;
  runnerToken : option string;
  jobTokens : gmap string string;
  requests : list request
}.

Definition new (config_url : string) : t := Client config_url None ∅ [].

Definition set_runnerToken (tok : option string) (c : t) : t :=
  Client (url c) tok (jobTokens c) (requests c).

Definition set_jobTokens (f : gmap string string → gmap string string) (c : t) : t :=
  Client (url c) (runnerToken c) (f (jobTokens c)) (requests c).

(** [_apiUrl(p)] *)
Definition _apiUrl (c : t) (p : string) : string := url c +:+ p.

(** [fetch(url, { body })]: the call is made, the environment replies. *)
Definition fetch {D} (u : string) (b : body) (r : reply D) : M t (reply D) :=
  λ c, (Returned r, Client (url c) (runnerToken c) (jobTokens c)
                      (requests c ++ [Request u b])).

(** The reply of an endpoint whose failure is reported as
    [`${what} failed: ${res.status} ${body}`]. *)
Definition checked {D} (what : string) (r : reply D) : M t D :=
  match r with
  | NetworkError msg => throw (Rejected msg)
  | Reply true _ _ d => ret d
  | Reply false st txt _ => throw (HttpFailed what st txt)
  end.

(** [_jobToken(jobUUID)]: an absent or empty token throws. *)
Definition _jobToken (jobUUID : string) : M t string :=
  λ c, match jobTokens c !! jobUUID with
       | Some tok => if decide (tok = "") then (Threw (NoJobToken jobUUID), c)
                     else (Returned tok, c)
       | None => (Threw (NoJobToken jobUUID), c)
       end.

(** [unregister()] *)
Definition unregister (r : reply unit) : M t unit :=
  rt <- gets runnerToken ;;
  u <- gets (λ c, _apiUrl c "/api/v1/runners/unregister") ;;
  res <- fetch u (RunnerBody rt) r ;;
  checked "Unregister" res ;;;
  modify (set_runnerToken None).

(** [requestJob()] *)
Definition requestJob (r : reply (list job)) : M t (list job) :=
  rt <- gets runnerToken ;;
  u <- gets (λ c, _apiUrl c "/api/v1/runners/jobs/request") ;;
  res <- fetch u (RunnerBody rt) r ;;
  checked "Request job" res.

(** [acceptJob(jobUUID)]: stores [data.job.jobToken]. *)
Definition acceptJob (r : reply string) (jobUUID : string) : M t string :=
  rt <- gets runnerToken ;;
  u <- gets (λ c, _apiUrl c ("/api/v1/runners/jobs/" +:+ jobUUID +:+ "/accept")) ;;
  res <- fetch u (RunnerBody rt) r ;;
  tok <- checked "Accept job" res ;;
  modify (set_jobTokens (insert jobUUID tok)) ;;;
  ret tok.

(** [updateJob(jobUUID, progress, payload)] *)
Definition updateJob (r : reply unit) (jobUUID : string) (progress : Z) : M t unit :=
  u <- gets (λ c, _apiUrl c ("/api/v1/runners/jobs/" +:+ jobUUID +:+ "/update")) ;;
  rt <- gets runnerToken ;;
  tok <- _jobToken jobUUID ;;
  res <- fetch u (UpdateBody rt tok progress) r ;;
  checked "Update job" res.

(** [postSuccess(jobUUID, outputFilePath)]; [file] is what
    [fs.promises.readFile] gives. *)
Definition postSuccess (file : outcome string) (r : reply unit)
    (jobUUID outputFilePath : string) : M t unit :=
  u <- gets (λ c, _apiUrl c ("/api/v1/runners/jobs/" +:+ jobUUID +:+ "/success")) ;;
  tok <- _jobToken jobUUID ;;
  rt <- gets runnerToken ;;
  content <- await file ;;
  res <- fetch u (SuccessForm rt tok content) r ;;
  checked "Post success" res ;;;
  modify (set_jobTokens (delete jobUUID)).

(** [postError(jobUUID, message)] *)
Definition postError (r : reply unit) (jobUUID msg : string) : M t unit :=
  u <- gets (λ c, _apiUrl c ("/api/v1/runners/jobs/" +:+ jobUUID +:+ "/error")) ;;
  tok <- _jobToken jobUUID ;;
  rt <- gets runnerToken ;;
  res <- fetch u (ErrorBody rt tok msg) r ;;
  checked "Post error" res ;;;
  modify (set_jobTokens (delete jobUUID)).

(** [abortJob(jobUUID)] *)
Definition abortJob (r : reply unit) (jobUUID : string) : M t unit :=
  u <- gets (λ c, _apiUrl c ("/api/v1/runners/jobs/" +:+ jobUUID +:+ "/abort")) ;;
  tok <- _jobToken jobUUID ;;
  rt <- gets runnerToken ;;
  res <- fetch u (AbortBody rt tok) r ;;
  checked "Abort job" res ;;;
  modify (set_jobTokens (delete jobUUID)).

(** The operations of the client as data, to speak about call sequences. *)
Inductive op : Type :=
  | OpUnregister (r : reply unit)
  | OpRequestJob (r : reply (list job))
  | OpAcceptJob (r : reply string) (jobUUID : string)
  | OpUpdateJob (r : reply unit) (jobUUID : string) (progress : Z)
  | OpPostSuccess (file : outcome string) (r : reply unit) (jobUUID path : string)
  | OpPostError (r : reply unit) (jobUUID msg : string)
  | OpAbortJob (r : reply unit) (jobUUID : string).

Definition run (o : op) : M t unit :=
  match o with
  | OpUnregister r => unregister r
  | OpRequestJob r => requestJob r ;;; ret ()
  | OpAcceptJob r j => acceptJob r j ;;; ret ()
  | OpUpdateJob r j p => updateJob r j p
  | OpPostSuccess f r j p => postSuccess f r j p
  | OpPostError r j m => postError r j m
  | OpAbortJob r j => abortJob r j
  end.

(** A sequence of calls, each awaited; a call that throws leaves the state
    it reached and the sequence goes on (every caller catches). *)
Definition runs (os : list op) (c : t) : t :=
  foldl (λ c o, (run o c).2) c os.

Definition accepts (jobUUID : string) (o : op) : bool :=
  match o with
  | OpAcceptJob _ j => bool_decide (j = jobUUID)
  | _ => false
  end.

(** The operations that need the per-job token of [jobUUID]. *)
Inductive needs_token (jobUUID : string) : op → Prop :=
  | nt_update r p : needs_token jobUUID (OpUpdateJob r jobUUID p)
  | nt_success f r p : needs_token jobUUID (OpPostSuccess f r jobUUID p)
  | nt_error r m : needs_token jobUUID (OpPostError r jobUUID m)
  | nt_abort r : needs_token jobUUID (OpAbortJob r jobUUID).

(** The terminal reports. *)
Inductive terminal (jobUUID : string) : op → Prop :=
  | tm_success f r p : terminal jobUUID (OpPostSuccess f r jobUUID p)
  | tm_error r m : terminal jobUUID (OpPostError r jobUUID m)
  | tm_abort r : terminal jobUUID (OpAbortJob r jobUUID).

(** The tokens a request body carries, and the job an operation is about. *)
Definition body_runnerToken (b : body) : option string :=
  match b with
  | RunnerBody rt | UpdateBody rt _ _ | SuccessForm rt _ _ | ErrorBody rt _ _
  | AbortBody rt _ => rt
  end.

Definition body_jobToken (b : body) : option string :=
  match b with
  | RunnerBody _ => None
  | UpdateBody _ tok _ | SuccessForm _ tok _ | ErrorBody _ tok _ | AbortBody _ tok => Some tok
  end.

Definition op_job (o : op) : option string :=
  match o with
  | OpUnregister _ | OpRequestJob _ => None
  | OpAcceptJob _ j | OpUpdateJob _ j _ | OpPostSuccess _ _ j _ | OpPostError _ j _
  | OpAbortJob _ j => Some j
  end.
End RunnerClient.

(** ** The process-wide runtime: the clock and the temp directories on disk *)

Record Sys : Type := MkSys { now : Z; tmpdirs : gset string }.

Definition elapse (d : Z) (s : Sys) : Sys := MkSys (now s + d) (tmpdirs s).

(** [fs.promises.mkdtemp]: on success the directory exists. *)
Definition made (dir : string) (s : Sys) : Sys := MkSys (now s) ({[dir]} ∪ tmpdirs s).

(** [fs.promises.rm(dir, { recursive: true, force: true })]; [ok] tells
    whether the removal succeeds. *)
Definition removed (ok : bool) (dir : string) (s : Sys) : Sys :=
  if ok then MkSys (now s) (tmpdirs s ∖ {[dir]}) else s.

(** ** lib/job-translator.js *)

Module JobTranslator.

Definition SUPPORTED_TYPES : list string :=
  ["vod-web-video-transcoding"; "vod-hls-transcoding";
   "vod-audio-merge-transcoding"].

(** [TYPE_MAP] and [FORMAT_MAP], read on supported types only. *)
Definition TYPE_MAP (jobType : string) : string :=
  if decide (jobType = "vod-web-video-transcoding") then "vod-web"
  else if decide (jobType = "vod-hls-transcoding") then "vod-hls"
  else "audio-merge".

Definition FORMAT_MAP (type : string) : string :=
  if decide (type = "vod-hls") then "hls" else "mp4".

Definition isSupported (jobType : string) : bool :=
  bool_decide (jobType ∈ SUPPORTED_TYPES).

Record workflow : Type := Workflow {
  wf_type : string;
  inputUrl : string;
  wf_resolution : Z;
  wf_fps : Z;
  outputFormat : string;
  jobUUID : string;
  localInputPath : string
}.

(** [translateJob(jobType, payload, config)]; [jobUUID] and
    [localInputPath] are filled in by the caller afterwards. *)
Definition translateJob (jobType : string) (p : payload) : outcome workflow :=
  if negb (isSupported jobType) then Threw (UnsupportedJobType jobType)
  else match input p, output p with
       | None, _ => Threw (PayloadInputMissing jobType)
       | Some _, None => Threw (PayloadOutputMissing jobType)
       | Some i, Some o =>
           let type := TYPE_MAP jobType in
           let inputUrl :=
             if decide (jobType = "vod-audio-merge-transcoding")
             then audioFileUrl i else videoFileUrl i in
           Returned (Workflow type inputUrl (resolution o) (fps o)
                       (FORMAT_MAP type) "" "")
       end.

Definition with_jobUUID (j : string) (w : workflow) : workflow :=
  Workflow (wf_type w) (inputUrl w) (wf_resolution w) (wf_fps w)
    (outputFormat w) j (localInputPath w).

Definition with_localInputPath (p : string) (w : workflow) : workflow :=
  Workflow (wf_type w) (inputUrl w) (wf_resolution w) (wf_fps w)
    (outputFormat w) (jobUUID w) p.
End JobTranslator.

(** ** lib/result-assembler.js *)

Module ResultAssembler.
Import JobTranslator.

(** What [ffmpeg.ffprobe] hands to its callback.  fluent-ffmpeg always
    builds the [format] object, so reading [metadata.format.duration]
    does not raise. *)
Record metadata : Type :=
  Metadata { streams : option (list string); format_duration : option string }.

Inductive ffprobe_result : Type :=
  | FfprobeErr (msg : string)
  | FfprobeData (m : option metadata).

(** The file system and the media toolchain, as seen through a path. *)
Record files : Type := Files {
  access_R_OK : string → bool;
  stat_size : string → outcome Z;
  ffprobe : string → ffprobe_result
}.

Inductive result_type : Type := Hls | WebVideo.

Record result : Type :=
  Result { videoFilePath : string; result_kind : result_type }.

(** [probeFile(filePath)] *)
Definition probeFile (fs : files) (filePath : string) : outcome metadata :=
  match ffprobe fs filePath with
  | FfprobeErr msg => Threw (FfprobeFailed filePath msg)
  | FfprobeData None => Threw (NoMediaStreams filePath)
  | FfprobeData (Some m) =>
      match streams m with
      | None | Some [] => Threw (NoMediaStreams filePath)
      | Some (_ :: _) => Returned m
      end
  end.

(** [prepareResult(outputPath, workflow)] *)
Definition prepareResult (fs : files) (outputPath : string) (wf : workflow)
  : outcome result :=
  if negb (access_R_OK fs outputPath) then Threw (OutputMissing outputPath)
  else match stat_size fs outputPath with
       | Threw e => Threw e
       | Returned size =>
           if size =? 0 then Threw (OutputEmpty outputPath)
           else match probeFile fs outputPath with
                | Threw e => Threw e
                | Returned _ =>
                    if decide (wf_type wf = "vod-hls")
                    then Returned (Result outputPath Hls)
                    else Returned (Result outputPath WebVideo)
                end
       end.

(** Vocabulary of the specification.  The size of the artifact when it can be read: [None] when [access]
    or [stat] rejects. *)
Definition readable_size (fs : files) (path : string) : option Z :=
  if access_R_OK fs path
  then match stat_size fs path with Returned n => Some n | Threw _ => None end
  else None.

(** The number of streams the probe delivers; none when it fails. *)
Definition decodable_streams (fs : files) (path : string) : nat :=
  match ffprobe fs path with
  | FfprobeData (Some m) => length (default [] (streams m))
  | _ => 0%nat
  end.

(** The classification that the workflow type selects. *)
Definition kind_of (type : string) : result_type :=
  if decide (type = "vod-hls") then Hls else WebVideo.

(** [uploadResult(runnerClient, jobUUID, result)] *)
Definition uploadResult (file : outcome string) (r : reply unit)
    (jobUUID : string) (res : result) : M RunnerClient.t unit :=
  RunnerClient.postSuccess file r jobUUID (videoFilePath res).

(** [cleanupTemp(tempDir)]: never raises. *)
Definition cleanupTemp (rm_ok : string → bool) (tempDir : string) : M Sys unit :=
  modify (removed (rm_ok tempDir) tempDir).
End ResultAssembler.

(** ** lib/pool-manager.js *)

Module PoolManager.
Import JobTranslator.

(** The value of [activeJobs]: [{ pool, tempDir, startTime }]. *)
Record pool_job : Type := PoolJob { pj_tempDir : string; pj_startTime : Z }.

Record t : Type := Manager {
  segmentTimeoutMs : option Z;
  activeJobs : list (string * pool_job);
  poolKey : option string;
  destroyed : list string;
  swarm : bool;
  store_closed : bool
}.

(** [constructor(config)]; [swarm] tells whether the Hyperswarm exists. *)
Definition new (segmentTimeout : option Z) : t :=
  Manager segmentTimeout [] None [] false false.

(** [start()] *)
Definition start (m : t) : t :=
  Manager (segmentTimeoutMs m) (activeJobs m) (poolKey m) (destroyed m)
    true (store_closed m).

(** [Map.prototype.set] and [delete] on an insertion-ordered map. *)
Fixpoint map_set {V} (k : string) (v : V) (l : list (string * V)) : list (string * V) :=
  match l with
  | [] => [(k, v)]
  | (k', v') :: r =>
      if decide (k' = k) then (k, v) :: r else (k', v') :: map_set k v r
  end.

Definition map_delete {V} (k : string) (l : list (string * V)) : list (string * V) :=
  filter (λ kv, kv.1 ≠ k) l.

Fixpoint map_get {V} (k : string) (l : list (string * V)) : option V :=
  match l with
  | [] => None
  | (k', v) :: r => if decide (k' = k) then Some v else map_get k r
  end.

Definition set_activeJobs (f : list (string * pool_job) → list (string * pool_job))
    (m : t) : t :=
  Manager (segmentTimeoutMs m) (f (activeJobs m)) (poolKey m) (destroyed m)
    (swarm m) (store_closed m).

Definition set_poolKey (k : string) (m : t) : t :=
  Manager (segmentTimeoutMs m) (activeJobs m) (Some k) (destroyed m)
    (swarm m) (store_closed m).

(** [pool.destroy()] of the pool created for [jobKey] was called. *)
Definition log_destroy (jobKey : string) (m : t) : t :=
  Manager (segmentTimeoutMs m) (activeJobs m) (poolKey m) (destroyed m ++ [jobKey])
    (swarm m) (store_closed m).

(** The deadline of the wait for "finalized":
    [this.config.segmentTimeoutMs || 600000]. *)
Definition pipelineTimeoutMs (m : t) : Z := num_or (segmentTimeoutMs m) 600000.

Inductive stage : Type :=
  | Mkdtemp | CreatePoolDrive | PipeSource | ExtractMetadata | Segment | Demux
  | PutSegments | PutTracks | LoadConfig | Launch | ExtractOutput | PoolDestroy.

(** What the encoding substrate and the file system do during one run. *)
Record env : Type := Env {
  took : stage → Z;
  mkdtemp : outcome string;
  createPoolDrive : outcome string;
  pipeSource : outcome unit;
  extractMetadata : outcome unit;
  segment : outcome (list string);
  demux : outcome (option (list string));
  putSegments : outcome unit;
  putTracks : outcome unit;
  loadConfig : outcome (bool * list string);
  launch : outcome unit;
  (** [pool.segmentsComplete.length], so many ms into the wait *)
  segmentsComplete : Z → nat;
  (** when "finalized" is emitted, in ms into the wait, with its result *)
  finalized : option (Z * string);
  extractOutput : outcome unit;
  poolDestroy : outcome unit
}.

Record pool_result : Type := PoolResult { outputPath : string; tempDir : string }.

(** Every step before the wait for "finalized" succeeds and the pool is
    ready. *)
Definition reaches_wait (e : env) : Prop :=
  returned (mkdtemp e) = true ∧ returned (createPoolDrive e) = true
  ∧ returned (pipeSource e) = true ∧ returned (extractMetadata e) = true
  ∧ returned (segment e) = true ∧ returned (demux e) = true
  ∧ returned (putSegments e) = true ∧ returned (putTracks e) = true
  ∧ (∃ segments, loadConfig e = Returned (true, segments))
  ∧ returned (launch e) = true.

(** "finalized" is emitted within [ms] of the start of the wait. *)
Definition finalized_within (ms : Z) (e : env) : Prop :=
  ∃ at_ms result, finalized e = Some (at_ms, result) ∧ at_ms ≤ ms.

(** [Math.floor((done / totalSegs) * 75)] of line 120, in the doubles of
    the runtime. *)
Definition floor_ratio75 (done totalSegs : nat) : Z :=
  Double.floor
    (Double.mul (Double.div (Double.of_nat done) (Double.of_nat totalSegs)) 75).

(** The same with the operations of the Standard Library's binary64, and
    the comparison of the two for every [done <= totalSegs <= n]. *)
Definition reference_ratio75 (done totalSegs : nat) : Z :=
  Double.reference_floor
    (SFmul 53 1024
       (SFdiv 53 1024 (Double.reference_of_nat done) (Double.reference_of_nat totalSegs))
       (Double.reference_of_nat 75)).

Definition agree_up_to (n : nat) : bool :=
  forallb (λ totalSegs,
             forallb (λ done, floor_ratio75 done totalSegs =? reference_ratio75 done totalSegs)
                     (seq 0 (S totalSegs)))
          (seq 1 n).

(** How the wait for "finalized" ends and when: the event wins when it is
    emitted before the deadline timer is due. *)
Definition wait_end (e : env) (m : t) : Z * outcome string :=
  let deadline := timer_delay (pipelineTimeoutMs m) in
  match finalized e with
  | Some (at_ms, result) =>
      if at_ms <? deadline then (at_ms, Returned result)
      else (deadline, Threw (JobTimedOut (pipelineTimeoutMs m)))
  | None => (deadline, Threw (JobTimedOut (pipelineTimeoutMs m)))
  end.

(** The instants, in ms into the wait, at which the 2000 ms progress
    interval runs before the wait ends at [end_ms]. *)
Definition ticks (end_ms : Z) : list Z :=
  (λ k, 2000 * Z.of_nat k) <$> seq 1 (Z.to_nat ((end_ms - 1) `div` 2000)).

Section Host.
(** [H] is the state the caller's [onProgress] callback acts on. *)
Context {H : Type}.

Record world : Type := World { pm : t; sys : Sys; host : H }.

Definition on_pm (f : t → t) : M world unit :=
  modify (λ w, World (f (pm w)) (sys w) (host w)).
Definition on_sys (f : Sys → Sys) : M world unit :=
  modify (λ w, World (pm w) (f (sys w)) (host w)).

(** [await] of a step that takes [took e st] ms. *)
Definition step {A} (e : env) (st : stage) (o : outcome A) : M world A :=
  on_sys (elapse (took e st)) ;;; await o.

Variable onProgress : Z → Sys → H → H.

Definition progress (percent : Z) : M world unit :=
  modify (λ w, World (pm w) (sys w) (onProgress percent (sys w) (host w))).

(** One run of the progress interval, [at_ms] into a wait begun at [t0]. *)
Definition tick (e : env) (totalSegs : nat) (t0 at_ms : Z) : M world unit :=
  on_sys (λ s, MkSys (t0 + at_ms) (tmpdirs s)) ;;;
  if (0 <? totalSegs)%nat
  then let done := segmentsComplete e at_ms in
       let pct := 10 + floor_ratio75 done totalSegs in
       progress (Z.min pct 85)
  else ret ().

Fixpoint run_ticks (e : env) (totalSegs : nat) (t0 : Z) (ts : list Z) : M world unit :=
  match ts with
  | [] => ret ()
  | at_ms :: r => tick e totalSegs t0 at_ms ;;; run_ticks e totalSegs t0 r
  end.

(** Lines 59 to 112 of the [try] block: from [onProgress(0)] to the launch
    of the pool; gives [pool.segments]. *)
Definition submit (e : env) (wf : workflow) (tempDir : string)
  : M world (list string) :=
  let jobKey := jobUUID wf in
  progress 0 ;;;
  key <- step e CreatePoolDrive (createPoolDrive e) ;;
  on_pm (set_poolKey key) ;;;
  step e PipeSource (pipeSource e) ;;;
  step e ExtractMetadata (extractMetadata e) ;;;
  progress 2 ;;;
  segPaths <- step e Segment (segment e) ;;
  progress 8 ;;;
  trackPaths <- step e Demux (demux e) ;;
  progress 10 ;;;
  step e PutSegments (putSegments e) ;;;
  step e PutTracks (putTracks e) ;;;
  cfg <- step e LoadConfig (loadConfig e) ;;
  (if negb cfg.1 then throw (PoolNotReady "ptsn/bridge") else ret ()) ;;;
  step e Launch (launch e) ;;;
  t0 <- gets (λ w, now (sys w)) ;;
  on_pm (set_activeJobs (map_set jobKey (PoolJob tempDir t0))) ;;;
  ret cfg.2.

(** Lines 115 to 136: the progress interval runs until the wait ends,
    with "finalized" or with the deadline. *)
Definition monitor (e : env) (totalSegs : nat) : M world string :=
  t0 <- gets (λ w, now (sys w)) ;;
  m <- gets pm ;;
  let ending := wait_end e m in
  run_ticks e totalSegs t0 (ticks ending.1) ;;;
  on_sys (λ s, MkSys (t0 + ending.1) (tmpdirs s)) ;;;
  await ending.2.

(** Lines 138 to 157: extract the output, destroy the pool, return. *)
Definition extract (e : env) (wf : workflow) (tempDir : string)
  : M world pool_result :=
  progress 95 ;;;
  step e ExtractOutput (extractOutput e) ;;;
  progress 100 ;;;
  on_pm (log_destroy (jobUUID wf)) ;;;
  step e PoolDestroy (poolDestroy e) ;;;
  ret (PoolResult (tempDir +:+ "/output.mp4") tempDir).

(** The body of the [try] block of [processJob]. *)
Definition processJob_try (e : env) (wf : workflow) (tempDir : string)
  : M world pool_result :=
  segments <- submit e wf tempDir ;;
  monitor e (length segments) ;;;
  extract e wf tempDir.

(** [processJob(workflow, onProgress)].  [mkdtemp] is awaited before the
    [try]; the [finally] destroys the pool when the [try] did not reach
    [pool = null], and drops the job from [activeJobs]. *)
Definition processJob (e : env) (wf : workflow) : M world pool_result :=
  let jobKey := jobUUID wf in
  tempDir <- step e Mkdtemp (mkdtemp e) ;;
  on_sys (made tempDir) ;;;
  λ w0,
    match processJob_try e wf tempDir w0 with
    | (Returned r, w1) =>
        (Returned r, World (set_activeJobs (map_delete jobKey) (pm w1)) (sys w1) (host w1))
    | (Threw err, w1) =>
        (Threw err,
         World (set_activeJobs (map_delete jobKey) (log_destroy jobKey (pm w1)))
               (sys w1) (host w1))
    end.

(** [cancelJob(jobUUID)] *)
Definition cancelJob (rm_ok : string → bool) (jobUUID : string) : M world unit :=
  job <- gets (λ w, map_get jobUUID (activeJobs (pm w))) ;;
  match job with
  | None => ret ()
  | Some j =>
      on_pm (log_destroy jobUUID) ;;;
      on_sys (removed (rm_ok (pj_tempDir j)) (pj_tempDir j)) ;;;
      on_pm (set_activeJobs (map_delete jobUUID))
  end.

Fixpoint cancel_all (rm_ok : string → bool) (ids : list string) : M world unit :=
  match ids with
  | [] => ret ()
  | i :: r => cancelJob rm_ok i ;;; cancel_all rm_ok r
  end.

(** [destroy()] *)
Definition destroy (rm_ok : string → bool) (swarmDestroy storeClose : outcome unit)
  : M world unit :=
  ids <- gets (λ w, (activeJobs (pm w)).*1) ;;
  cancel_all rm_ok ids ;;;
  has_swarm <- gets (λ w, swarm (pm w)) ;;
  (if has_swarm then await swarmDestroy else ret ()) ;;;
  await storeClose ;;;
  on_pm (λ m, Manager (segmentTimeoutMs m) (activeJobs m) (poolKey m) (destroyed m)
                (swarm m) true).
End Host.
Arguments world : clear implicits.

(** A callback that only records the percentages it is called with. *)
Definition record_progress (percent : Z) (_ : Sys) (seen : list Z) : list Z :=
  seen ++ [percent].

(** The percentage the progress interval reports at [at_ms] into the wait. *)
Definition tick_percent (e : env) (totalSegs : nat) (at_ms : Z) : Z :=
  Z.min (10 + floor_ratio75 (segmentsComplete e at_ms) totalSegs) 85.

(** The percentages the progress interval reports at the instants [ts];
    nothing when the pool has no segment. *)
Definition tick_values (e : env) (totalSegs : nat) (ts : list Z) : list Z :=
  if (0 <? totalSegs)%nat then tick_percent e totalSegs <$> ts else [].

(** The percentages of a complete run over [totalSegs] segments whose wait
    ended [end_ms] after it began. *)
Definition full_sequence (e : env) (totalSegs : nat) (end_ms : Z) : list Z :=
  [0; 2; 8; 10] ++ tick_values e totalSegs (ticks end_ms) ++ [95; 100].
End PoolManager.

(** ** lib/bridge.js *)

Module Bridge.
Import JobTranslator.

(** The value of [activeJobs]: [{ type, startTime }]. *)
Record active_job : Type := ActiveJob { aj_type : string; aj_startTime : Z }.

(** The closure handed to [watchdog.watch]: report "Job timed out" and
    cancel the pool job ([timeoutHandler] below). *)
Inductive callback : Type := TimeoutHandler.

(** What the admission loop of [poll] decided for an offered job. *)
Inductive decision : Type := SkipUnsupported | SkipFailed | Accepted.

(** Lines of the loggers.  [Decided] stands for the line written at an
    admission decision and carries the size of the active table right
    after it. *)
Inductive log_line : Type :=
  | LogInfo (msg : string)
  | LogError (msg detail : string)
  | Decided (jobUUID : string) (d : decision) (active : nat).

Record t : Type := MkBridge {
  maxConcurrentJobs : Z;
  isRunning : bool;
  activeJobs : gmap string active_job;
  failedJobs : gset string;
  runnerClient : RunnerClient.t;
  poolManager : PoolManager.t;
  watchdog : JobWatchdog.t callback;
  healthMonitor : HealthMonitor.t;
  sys : Sys;
  log : list log_line
}.

(** The fields of [config.json] that matter here.  The README documents
    the pipeline timeout as [timeouts.segmentTimeoutMs]; the pool manager
    reads [segmentTimeoutMs] of the object it is given. *)
Record config : Type := Config {
  peertube_url : string;
  runnerToken : option string;
  supernovao_segmentTimeoutMs : option Z;
  polling_maxConcurrentJobs : Z;
  timeouts_jobTimeoutMs : option Z;
  timeouts_segmentTimeoutMs : option Z
}.

(** [constructor(config)]: the pool manager is given [config.supernovao],
    the watchdog [config.timeouts.jobTimeoutMs]. *)
Definition new (cfg : config) : t :=
  MkBridge (polling_maxConcurrentJobs cfg) false ∅ ∅
    (RunnerClient.new (peertube_url cfg))
    (PoolManager.new (supernovao_segmentTimeoutMs cfg))
    (JobWatchdog.new (timeouts_jobTimeoutMs cfg))
    (HealthMonitor.new
       (Some (HealthMonitor.Config (Some 30000) (timeouts_jobTimeoutMs cfg) (Some 5%nat))))
    (MkSys 0 ∅) [].

Definition set_activeJobs (f : gmap string active_job → gmap string active_job) (b : t) : t :=
  MkBridge (maxConcurrentJobs b) (isRunning b) (f (activeJobs b)) (failedJobs b)
    (runnerClient b) (poolManager b) (watchdog b) (healthMonitor b) (sys b) (log b).
Definition set_failedJobs (f : gset string → gset string) (b : t) : t :=
  MkBridge (maxConcurrentJobs b) (isRunning b) (activeJobs b) (f (failedJobs b))
    (runnerClient b) (poolManager b) (watchdog b) (healthMonitor b) (sys b) (log b).
Definition set_runnerClient (c : RunnerClient.t) (b : t) : t :=
  MkBridge (maxConcurrentJobs b) (isRunning b) (activeJobs b) (failedJobs b)
    c (poolManager b) (watchdog b) (healthMonitor b) (sys b) (log b).
Definition set_poolManager (m : PoolManager.t) (b : t) : t :=
  MkBridge (maxConcurrentJobs b) (isRunning b) (activeJobs b) (failedJobs b)
    (runnerClient b) m (watchdog b) (healthMonitor b) (sys b) (log b).
Definition set_watchdog (f : JobWatchdog.t callback → JobWatchdog.t callback) (b : t) : t :=
  MkBridge (maxConcurrentJobs b) (isRunning b) (activeJobs b) (failedJobs b)
    (runnerClient b) (poolManager b) (f (watchdog b)) (healthMonitor b) (sys b) (log b).
Definition set_healthMonitor (f : HealthMonitor.t → HealthMonitor.t) (b : t) : t :=
  MkBridge (maxConcurrentJobs b) (isRunning b) (activeJobs b) (failedJobs b)
    (runnerClient b) (poolManager b) (watchdog b) (f (healthMonitor b)) (sys b) (log b).
Definition set_sys (s : Sys) (b : t) : t :=
  MkBridge (maxConcurrentJobs b) (isRunning b) (activeJobs b) (failedJobs b)
    (runnerClient b) (poolManager b) (watchdog b) (healthMonitor b) s (log b).
Definition write (l : log_line) (b : t) : t :=
  MkBridge (maxConcurrentJobs b) (isRunning b) (activeJobs b) (failedJobs b)
    (runnerClient b) (poolManager b) (watchdog b) (healthMonitor b) (sys b) (log b ++ [l]).

Definition on_client {A} (c : M RunnerClient.t A) : M t A :=
  zoom runnerClient set_runnerClient c.
Definition on_sys {A} (c : M Sys A) : M t A := zoom sys set_sys c.
Definition on_pool {A} (c : M (PoolManager.world t) A) : M t A :=
  zoom (λ b, PoolManager.World (poolManager b) (sys b) b)
       (λ w _, set_poolManager (PoolManager.pm w)
                 (set_sys (PoolManager.sys w) (PoolManager.host w)))
       c.

(** [!this.config.peertube.runnerToken] of line 38: a missing token and
    the empty string are both falsy. *)
Definition lacks_token (cfg : config) : bool :=
  match runnerToken cfg with
  | None => true
  | Some tok => bool_decide (tok = "")
  end.

(** [start()] once the pool, the socket and the timers are set up; the
    missing token is the only failure modelled. *)
Definition start (cfg : config) : M t unit :=
  if lacks_token cfg
  then throw (Rejected "No runnerToken in config — run `node cli.js register` first")
  else
    modify (λ b, set_runnerClient
                   (RunnerClient.set_runnerToken (runnerToken cfg) (runnerClient b)) b) ;;;
    modify (write (LogInfo "Using runner token from config")) ;;;
    modify (λ b, set_poolManager (PoolManager.start (poolManager b)) b) ;;;
    modify (set_healthMonitor HealthMonitor.start) ;;;
    modify (λ b, MkBridge (maxConcurrentJobs b) true (activeJobs b) (failedJobs b)
                   (runnerClient b) (poolManager b) (watchdog b) (healthMonitor b)
                   (sys b) (log b)) ;;;
    modify (write (LogInfo "Bridge started")).

(** [this.activeJobs.size >= this.config.polling.maxConcurrentJobs] *)
Definition at_capacity (b : t) : bool :=
  maxConcurrentJobs b <=? Z.of_nat (size (activeJobs b)).

(** *** poll *)

(** What the tasks of other jobs do to the tables while [poll] is
    suspended on an [await]: the [catch] of a [processJob] marks its job
    failed, its [finally] drops it from the active table. *)
Inductive task_event : Type :=
  | MarksFailed (jobUUID : string)
  | Leaves (jobUUID : string).

Definition others (evs : list task_event) : M t unit :=
  modify (λ b, foldl (λ b ev,
                        match ev with
                        | MarksFailed j => set_failedJobs (union {[j]}) b
                        | Leaves j => set_activeJobs (delete j) b
                        end) b evs).

Record poll_env : Type := PollEnv {
  requestJob_reply : reply (list job);
  acceptJob_reply : string → reply string;
  (** what other tasks do during the [k]-th [await] of this call *)
  meanwhile : nat → list task_event
}.

(** [this.processJob(job.uuid, job.type, job.payload)] without [await]:
    the task runs up to its first external call, which is after line 121. *)
Definition spawn (j : job) : M t unit :=
  modify (λ b, set_activeJobs (insert (uuid j) (ActiveJob (type j) (now (sys b)))) b).

Definition decided (j : job) (d : decision) : M t unit :=
  modify (λ b, write (Decided (uuid j) d (size (activeJobs b))) b).

(** The [for (const job of availableJobs)] loop; [k] counts the awaits. *)
Fixpoint admission (e : poll_env) (k : nat) (jobs : list job) : M t unit :=
  match jobs with
  | [] => ret ()
  | j :: rest =>
      full <- gets at_capacity ;;
      if full then ret ()
      else if negb (isSupported (type j))
      then decided j SkipUnsupported ;;; admission e k rest
      else
        failed <- gets (λ b, bool_decide (uuid j ∈ failedJobs b)) ;;
        if failed then decided j SkipFailed ;;; admission e k rest
        else
          others (meanwhile e k) ;;;
          on_client (RunnerClient.acceptJob (acceptJob_reply e (uuid j)) (uuid j)) ;;;
          spawn j ;;;
          decided j Accepted ;;;
          admission e (S k) rest
  end.

(** [poll()] *)
Definition poll (e : poll_env) : M t unit :=
  running <- gets isRunning ;;
  if negb running then ret ()
  else
    healthy <- gets (λ b, HealthMonitor.isHealthy (healthMonitor b)) ;;
    if negb healthy then ret ()
    else
      full <- gets at_capacity ;;
      if full then ret ()
      else
        try_catch
          (others (meanwhile e 0) ;;;
           availableJobs <- on_client (RunnerClient.requestJob (requestJob_reply e)) ;;
           admission e 1 availableJobs)
          (λ err, modify (write (LogError "Poll error" (message err)))).

Definition lines (ds : list (string * decision * nat)) : list log_line :=
  (λ '(j, d, n), Decided j d n) <$> ds.

(** The decisions a call of [poll] wrote, with the size after each. *)
Definition decisions_since (b b' : t) : list (string * decision * nat) :=
  omap (λ l, match l with Decided j d n => Some (j, d, n) | _ => None end)
       (drop (length (log b)) (log b')).

Definition accepted (ds : list (string * decision * nat)) : list string :=
  omap (λ '(j, d, _), match d with Accepted => Some j | _ => None end) ds.

(** The jobs the queue returned, in its order; none when the request
    failed. *)
Definition offered (e : poll_env) : list job :=
  match requestJob_reply e with
  | Reply true _ _ jobs => jobs
  | _ => []
  end.

(** Every decision that is followed by another one left the active table
    below [max]: no decision is taken once capacity is reached. *)
Fixpoint stops_at_capacity (max : Z) (ds : list (string * decision * nat)) : Prop :=
  match ds with
  | [] => True
  | d :: rest => (rest ≠ [] → Z.of_nat d.2 < max) ∧ stops_at_capacity max rest
  end.

(** *** processJob

    One task is followed from its call to its return, in a run during
    which no timer of the watchdog runs out ([no_timeout_during]): the
    watchdog records the timers the task arms and cancels,
    [JobWatchdog.advance] tells which timers an expiry delivers, and
    [timeoutHandler] what the handler then does.  How the statements of
    several runs and of [poll] take turns on the two tables is the subject
    of the interleaving further down. *)

Inductive stage : Type := TempDir | Download | Prepare | Upload | Report.

Record job_env : Type := JobEnv {
  took : stage → Z;
  mkdtemp : outcome string;
  downloadInput : outcome unit;
  pipeline : PoolManager.env;
  files : ResultAssembler.files;
  readFile : outcome string;
  updateJob_reply : Z → reply unit;
  postSuccess_reply : reply unit;
  postError_reply : reply unit;
  rm_ok : string → bool
}.

(** The locals of [processJob] that its [finally] reads. *)
Record frame : Type :=
  Frame { self : t; tempDir : option string; poolTempDir : option string }.

Definition on_self {A} (c : M t A) : M frame A :=
  zoom self (λ b f, Frame b (tempDir f) (poolTempDir f)) c.

Definition step {A} (e : job_env) (st : stage) (o : outcome A) : M t A :=
  on_sys (modify (elapse (took e st))) ;;; await o.

(** The progress callback of line 154: kick the watchdog, send the update
    without awaiting it. *)
Definition onProgress (e : job_env) (jobUUID : string) (percent : Z) (s : Sys) (b : t) : t :=
  let b1 := set_watchdog (JobWatchdog.kick (now s) jobUUID) b in
  set_runnerClient
    (RunnerClient.updateJob (updateJob_reply e percent) jobUUID percent (runnerClient b1)).2
    b1.

(** The body of the [try] block, lines 126 to 168. *)
Definition processJob_try (e : job_env) (jobUUID jobType : string) (p : payload)
  : M frame unit :=
  wf0 <- await (translateJob jobType p) ;;
  let wf1 := with_jobUUID jobUUID wf0 in
  dir <- on_self (step e TempDir (mkdtemp e)) ;;
  on_self (on_sys (modify (made dir))) ;;;
  modify (λ f, Frame (self f) (Some dir) (poolTempDir f)) ;;;
  let inputPath := dir +:+ "/input.mp4" in
  on_self (step e Download (downloadInput e)) ;;;
  let wf := with_localInputPath inputPath wf1 in
  on_self (modify (write (LogInfo "Input downloaded"))) ;;;
  on_self (modify (λ b, set_watchdog
                          (JobWatchdog.watch (now (sys b)) jobUUID TimeoutHandler) b)) ;;;
  poolResult <- on_self (on_pool
                  (PoolManager.processJob (onProgress e jobUUID) (pipeline e) wf)) ;;
  modify (λ f, Frame (self f) (tempDir f) (Some (PoolManager.tempDir poolResult))) ;;;
  result <- on_self (step e Prepare
              (ResultAssembler.prepareResult (files e)
                 (PoolManager.outputPath poolResult) wf)) ;;
  on_self (on_sys (modify (elapse (took e Upload)))) ;;;
  on_self (on_client
    (ResultAssembler.uploadResult (readFile e) (postSuccess_reply e) jobUUID result)) ;;;
  on_self (modify (write (LogInfo "Job completed successfully"))) ;;;
  on_self (modify (set_watchdog (JobWatchdog.clear jobUUID))).

(** The [catch] block, lines 170 to 179. *)
Definition processJob_catch (e : job_env) (jobUUID : string) (err : error) : M t unit :=
  modify (write (LogError "Job failed" (message err))) ;;;
  on_sys (modify (elapse (took e Report))) ;;;
  swallow (on_client (RunnerClient.postError (postError_reply e) jobUUID (message err))) ;;;
  modify (set_failedJobs (union {[jobUUID]})) ;;;
  modify (set_watchdog (JobWatchdog.clear jobUUID)) ;;;
  swallow (on_pool (PoolManager.cancelJob (rm_ok e) jobUUID)).

(** The [finally] block, lines 181 to 183. *)
Definition processJob_finally (e : job_env) (jobUUID : string) : M frame unit :=
  on_self (modify (set_activeJobs (delete jobUUID))) ;;;
  f <- gets id ;;
  match tempDir f with
  | Some d => on_self (on_sys (ResultAssembler.cleanupTemp (rm_ok e) d))
  | None => ret ()
  end ;;;
  match poolTempDir f with
  | Some d => on_self (on_sys (ResultAssembler.cleanupTemp (rm_ok e) d))
  | None => ret ()
  end.

(** Line 121 and the [try]/[catch], up to the entry of the [finally]. *)
Definition processJob_guarded (e : job_env) (jobUUID jobType : string) (p : payload)
  : M frame unit :=
  on_self (modify (λ b, set_activeJobs
                          (insert jobUUID (ActiveJob jobType (now (sys b)))) b)) ;;;
  try_catch (processJob_try e jobUUID jobType p)
            (λ err, on_self (processJob_catch e jobUUID err)).

(** [processJob(jobUUID, jobType, payload)] *)
Definition processJob (e : job_env) (jobUUID jobType : string) (p : payload) : M t unit :=
  λ b, match try_finally (processJob_guarded e jobUUID jobType p)
               (processJob_finally e jobUUID) (Frame b None None) with
       | (o, f) => (o, self f)
       end.

(** Whether the [try] block of the run threw. *)
Definition failed_run (e : job_env) (jobUUID jobType : string) (p : payload) (b : t) : bool :=
  let b1 := set_activeJobs (insert jobUUID (ActiveJob jobType (now (sys b)))) b in
  negb (returned (processJob_try e jobUUID jobType p (Frame b1 None None)).1).

(** The states of the bridge at three moments of a run at which the task
    is suspended and others can look: the first external call, the last
    [await] before the [finally], and the return. *)
Definition moments (e : job_env) (jobUUID jobType : string) (p : payload) (b : t) : list t :=
  [ set_activeJobs (insert jobUUID (ActiveJob jobType (now (sys b)))) b;
    self (processJob_guarded e jobUUID jobType p (Frame b None None)).2;
    (processJob e jobUUID jobType p b).2 ].

(** No job id is both active and failed. *)
Definition tables_disjoint (b : t) : Prop :=
  ∀ j, ¬ (j ∈ dom (activeJobs b) ∧ j ∈ failedJobs b).

(** The handler of lines 141 to 149, which the watchdog calls with the id
    of the job whose timer ran out. *)
Definition timeoutHandler (r : reply unit) (rm_ok : string → bool) (uuid : string)
  : M t unit :=
  modify (write (LogError "Job timed out" uuid)) ;;;
  swallow
    (on_client (RunnerClient.postError r uuid "Job timed out") ;;;
     on_pool (PoolManager.cancelJob rm_ok uuid)).

(** No timer of the watchdog runs out during a run of [processJob] that
    begins in [b] and ends in [b']: no step takes less than no time, so the
    clock never reads more than at the end; the timers pending at the
    beginning are due after the end; and the end comes before the
    watchdog's timeout has passed since the beginning, so neither the timer
    armed at line 141 nor one re-armed by a progress report is due before
    the end. *)
Definition no_timeout_during (e : job_env) (b b' : t) : Prop :=
  (∀ st, 0 ≤ took e st)
  ∧ (∀ st, 0 ≤ PoolManager.took (pipeline e) st)
  ∧ (∀ at_ms result, PoolManager.finalized (pipeline e) = Some (at_ms, result) → 0 ≤ at_ms)
  ∧ (∀ tm, tm ∈ JobWatchdog.pending (watchdog b) → now (sys b') < JobWatchdog.due tm)
  ∧ now (sys b') < now (sys b) + timer_delay (JobWatchdog.timeoutMs (watchdog b)).

(** *** The tasks of a bridge, interleaved

    [poll] starts [processJob] without awaiting it (line 112), so several
    runs are in flight at once and take turns with [poll], with the timers
    and with each other at their awaits.  The bridge writes its two tables
    in three places only: [activeJobs.set] (line 121), [failedJobs.add]
    (line 177) and [activeJobs.delete] (line 181).  With respect to them a
    job that passed the checks of lines 98 to 106 is in one of three
    phases: [poll] awaits [acceptJob] for it (line 108); its run is past
    line 121 and not past line 177; its run is past line 177 and not past
    line 181. *)
Inductive phase : Type :=
  | Accepting
  | InTry
  | InCatch.

#[global] Instance phase_eq_dec : EqDecision phase.
Proof. solve_decision. Defined.
#[global] Instance active_job_eq_dec : EqDecision active_job.
Proof. solve_decision. Defined.

(** The bridge with the jobs that are in one of the phases. *)
Record fleet : Type := Fleet { bridge : t; tasks : list (string * phase) }.

(** What happens between two awaits, as far as the tables go. *)
Inductive action : Type :=
  (** [poll] passes the checks of lines 98 to 106 for [j] and calls
      [acceptJob] *)
  | Admits (j : job)
  (** [acceptJob] throws, to the [catch] of [poll] *)
  | AcceptFails (jobUUID : string)
  (** [acceptJob] returns and [processJob] is called (line 112), which
      runs up to its first await: line 121 *)
  | Starts (j : job)
  (** a run reaches line 177, from its [try] block *)
  | Fails (jobUUID : string)
  (** a run reaches line 181, from its [try] or its [catch] block *)
  | Ends (jobUUID : string)
  (** anything else, which writes neither table and leaves the bridge
      [b']: the other statements of [poll] and [processJob], the timeout
      handler, the health monitor, the shutdown *)
  | Other (b' : t).

(** The first task of [jobUUID] that is in one of the phases [from] moves
    to the phase [to], or is done; [None] when there is no such task. *)
Fixpoint move (jobUUID : string) (from : list phase) (to : option phase)
    (ts : list (string * phase)) : option (list (string * phase)) :=
  match ts with
  | [] => None
  | (id, ph) :: r =>
      if bool_decide (id = jobUUID ∧ ph ∈ from)
      then Some (match to with Some ph' => (id, ph') :: r | None => r end)
      else cons (id, ph) <$> move jobUUID from to r
  end.

(** One action; [None] when the code cannot take it in this state.  A new
    task is put at the end; [spawn] is line 121. *)
Definition act (a : action) (f : fleet) : option fleet :=
  let b := bridge f in
  match a with
  | Admits j =>
      if at_capacity b || negb (isSupported (type j)) || bool_decide (uuid j ∈ failedJobs b)
      then None
      else Some (Fleet b (tasks f ++ [(uuid j, Accepting)]))
  | AcceptFails id => Fleet b <$> move id [Accepting] None (tasks f)
  | Starts j => Fleet (spawn j b).2 <$> move (uuid j) [Accepting] (Some InTry) (tasks f)
  | Fails id =>
      Fleet (set_failedJobs (union {[id]}) b) <$> move id [InTry] (Some InCatch) (tasks f)
  | Ends id =>
      Fleet (set_activeJobs (delete id) b) <$> move id [InTry; InCatch] None (tasks f)
  | Other b' =>
      if bool_decide (activeJobs b' = activeJobs b ∧ failedJobs b' = failedJobs b)
      then Some (Fleet b' (tasks f))
      else None
  end.

(** The actions of [l] in turn. *)
Fixpoint acts (l : list action) (f : fleet) : option fleet :=
  match l with
  | [] => Some f
  | a :: r => act a f ≫= acts r
  end.

(** The states the bridge goes through under the actions of [l], up to the
    first action that cannot be taken. *)
Fixpoint trace (l : list action) (f : fleet) : list fleet :=
  f :: match l with
       | [] => []
       | a :: r =>
           match act a f with
           | Some f' => trace r f'
           | None => []
           end
       end.

(** The job that [poll] admits is already being accepted or processed. *)
Definition reoffered (a : action) (f : fleet) : bool :=
  match a with
  | Admits j => bool_decide (uuid j ∈ (tasks f).*1)
  | _ => false
  end.

(** No action of [l], taken in turn from [f], admits a job that is being
    accepted or processed. *)
Fixpoint orderly (l : list action) (f : fleet) : bool :=
  match l with
  | [] => true
  | a :: r =>
      negb (reoffered a f)
      && match act a f with
         | Some f' => orderly r f'
         | None => true
         end
  end.

(** A run for [jobUUID] stands between lines 177 and 181. *)
Definition in_window (f : fleet) (jobUUID : string) : Prop := (jobUUID, InCatch) ∈ tasks f.

(** The tables and the tasks agree. *)
Definition coherent (f : fleet) : Prop :=
  NoDup (tasks f).*1
  ∧ (∀ id, id ∈ dom (activeJobs (bridge f)) ↔ (id, InTry) ∈ tasks f ∨ (id, InCatch) ∈ tasks f)
  ∧ (∀ id, (id, Accepting) ∈ tasks f ∨ (id, InTry) ∈ tasks f → id ∉ failedJobs (bridge f))
  ∧ (∀ id, (id, InCatch) ∈ tasks f → id ∈ failedJobs (bridge f)).

(** The actions of one call of [poll] during whose awaits no other task
    acts: what the [for] loop does with each offered job. *)
Fixpoint actions_of_admission (e : poll_env) (jobs : list job) (b : t) : list action :=
  match jobs with
  | [] => []
  | j :: rest =>
      if at_capacity b then []
      else if negb (isSupported (type j))
      then let b1 := (decided j SkipUnsupported b).2 in
           Other b1 :: actions_of_admission e rest b1
      else if bool_decide (uuid j ∈ failedJobs b)
      then let b1 := (decided j SkipFailed b).2 in
           Other b1 :: actions_of_admission e rest b1
      else
        let a := on_client (RunnerClient.acceptJob (acceptJob_reply e (uuid j)) (uuid j)) b in
        match a.1 with
        | Threw _ => [Admits j; AcceptFails (uuid j); Other a.2]
        | Returned _ =>
            let b3 := (decided j Accepted (spawn j a.2).2).2 in
            Admits j :: Other a.2 :: Starts j :: Other b3 :: actions_of_admission e rest b3
        end
  end.

(** The same for the whole call: the request, the loop, and the log line
    of the [catch]. *)
Definition actions_of_poll (e : poll_env) (b : t) : list action :=
  if negb (isRunning b) || negb (HealthMonitor.isHealthy (healthMonitor b)) || at_capacity b
  then []
  else
    let r := on_client (RunnerClient.requestJob (requestJob_reply e)) b in
    match r.1 with
    | Returned jobs => Other r.2 :: actions_of_admission e jobs r.2 ++ [Other (poll e b).2]
    | Threw _ => [Other (poll e b).2]
    end.

(** The actions of one run of [processJob], followed on its own. *)
Definition actions_of_run (e : job_env) (jobUUID jobType : string) (p : payload) (b : t)
  : list action :=
  let b1 := (spawn (Job jobUUID jobType p) b).2 in
  let tried := processJob_try e jobUUID jobType p (Frame b1 None None) in
  let b' := (processJob e jobUUID jobType p b).2 in
  match tried.1 with
  | Returned _ => [Starts (Job jobUUID jobType p); Other (self tried.2); Ends jobUUID; Other b']
  | Threw err =>
      let b2 := write (LogError "Job failed" (message err)) (self tried.2) in
      let b3 := set_sys (elapse (took e Report) (sys b2)) b2 in
      let b4 := (on_client (RunnerClient.postError (postError_reply e) jobUUID (message err))
                   b3).2 in
      [Starts (Job jobUUID jobType p); Other (self tried.2); Other b4; Fails jobUUID;
       Other (processJob_catch e jobUUID err (self tried.2)).2; Ends jobUUID; Other b']
  end.

(** *** Shutdown (gracefulShutdown of lib/health.js) *)

Record shutdown_env : Type := ShutdownEnv {
  shutdown_postError_reply : string → reply unit;
  shutdown_rm_ok : string → bool;
  swarmDestroy : outcome unit;
  storeClose : outcome unit;
  unregister_reply : reply unit
}.

(** Step 2, per job: report only when a job token is held. *)
Fixpoint report_all (e : shutdown_env) (ids : list string) : M t unit :=
  match ids with
  | [] => ret ()
  | j :: rest =>
      swallow
        (has <- gets (λ b, bool_decide (is_Some (RunnerClient.jobTokens (runnerClient b) !! j))) ;;
         if negb has then ret ()
         else on_client (RunnerClient.postError (shutdown_postError_reply e j) j
                           "Runner shutting down")) ;;;
      report_all e rest
  end.

(** [gracefulShutdown(runnerClient, poolManager, watchdog, monitor)];
    the hard 30 s timer only forces the exit of the process. *)
Definition gracefulShutdown (e : shutdown_env) : M t unit :=
  modify (write (LogInfo "Graceful shutdown initiated")) ;;;
  modify (set_healthMonitor HealthMonitor.stop) ;;;
  modify (write (LogInfo "Health monitor stopped")) ;;;
  ids <- gets (λ b, (PoolManager.activeJobs (poolManager b)).*1) ;;
  report_all e ids ;;;
  on_pool (PoolManager.destroy (shutdown_rm_ok e) (swarmDestroy e) (storeClose e)) ;;;
  modify (write (LogInfo "Pool manager destroyed")) ;;;
  modify (set_watchdog JobWatchdog.clearAll) ;;;
  modify (write (LogInfo "Watchdog timers cleared")) ;;;
  try_catch
    (on_client (RunnerClient.unregister (unregister_reply e)) ;;;
     modify (write (LogInfo "Unregistered from PeerTube")))
    (λ _, ret ()) ;;;
  modify (write (LogInfo "Shutdown complete")).

(** [stop()]; the poll timer and the socket are not part of the state. *)
Definition stop (e : shutdown_env) : M t unit :=
  modify (λ b, MkBridge (maxConcurrentJobs b) false (activeJobs b) (failedJobs b)
                 (runnerClient b) (poolManager b) (watchdog b) (healthMonitor b)
                 (sys b) (log b)) ;;;
  gracefulShutdown e.

(** The outcome of [poolManager.destroy()]: that of [swarm.destroy()] when
    there is a swarm, then that of [store.close()]. *)
Definition destroy_outcome (e : shutdown_env) (b : t) : outcome unit :=
  match (if PoolManager.swarm (poolManager b) then swarmDestroy e else Returned ()) with
  | Threw err => Threw err
  | Returned _ => storeClose e
  end.

(** *** The requests of the bridge *)

(** The requests the client sent between two states of the bridge. *)
Definition sent_since (b b' : t) : list RunnerClient.request :=
  drop (length (RunnerClient.requests (runnerClient b)))
       (RunnerClient.requests (runnerClient b')).

(** The requests of [requestJob()], [acceptJob(jobUUID)],
    [postSuccess(jobUUID, _)], [postError(jobUUID, "Runner shutting down")]
    and [unregister()] for the client of [b]. *)
Definition job_request (b : t) : RunnerClient.request :=
  RunnerClient.Request
    (RunnerClient.url (runnerClient b) +:+ "/api/v1/runners/jobs/request")
    (RunnerClient.RunnerBody (RunnerClient.runnerToken (runnerClient b))).

Definition accept_request (b : t) (jobUUID : string) : RunnerClient.request :=
  RunnerClient.Request
    (RunnerClient.url (runnerClient b) +:+ "/api/v1/runners/jobs/" +:+ jobUUID +:+ "/accept")
    (RunnerClient.RunnerBody (RunnerClient.runnerToken (runnerClient b))).

Definition success_request (b : t) (jobUUID tok content : string) : RunnerClient.request :=
  RunnerClient.Request
    (RunnerClient.url (runnerClient b) +:+ "/api/v1/runners/jobs/" +:+ jobUUID +:+ "/success")
    (RunnerClient.SuccessForm (RunnerClient.runnerToken (runnerClient b)) tok content).

Definition shutdown_report (b : t) (jobUUID tok : string) : RunnerClient.request :=
  RunnerClient.Request
    (RunnerClient.url (runnerClient b) +:+ "/api/v1/runners/jobs/" +:+ jobUUID +:+ "/error")
    (RunnerClient.ErrorBody (RunnerClient.runnerToken (runnerClient b)) tok
       "Runner shutting down").

Definition unregister_request (b : t) : RunnerClient.request :=
  RunnerClient.Request
    (RunnerClient.url (runnerClient b) +:+ "/api/v1/runners/unregister")
    (RunnerClient.RunnerBody (RunnerClient.runnerToken (runnerClient b))).
End Bridge.

(** ** Scenarios

    Concrete environments for the scenarios of the specification. *)

Module Scenario.

Definition segments3 : list string := ["seg-0"; "seg-1"; "seg-2"].

(** One segment completes every 2000 ms, up to all three. *)
Definition completed (at_ms : Z) : nat := Z.to_nat (Z.min 3 (Z.max 0 (at_ms `div` 2000))).

(** Scenario A: three segments, all complete, "finalized" after 7000 ms. *)
Definition pipelineA : PoolManager.env :=
  PoolManager.Env (λ _, 100)
    (Returned "/tmp/ptsn-pool1") (Returned "a1b2c3") (Returned ()) (Returned ())
    (Returned segments3) (Returned (Some ["video"; "audio"])) (Returned ()) (Returned ())
    (Returned (true, segments3)) (Returned ())
    completed (Some (7000, "/output/final.mp4")) (Returned ()) (Returned ()).

(** Scenario B: the same pipeline, but "finalized" never arrives. *)
Definition pipelineB : PoolManager.env :=
  PoolManager.Env (λ _, 100)
    (Returned "/tmp/ptsn-pool1") (Returned "a1b2c3") (Returned ()) (Returned ())
    (Returned segments3) (Returned (Some ["video"; "audio"])) (Returned ()) (Returned ())
    (Returned (true, segments3)) (Returned ())
    completed None (Returned ()) (Returned ()).



(** Scenario A, but the segments cannot be written to the drive. *)
Definition pipelineNoManifest : PoolManager.env :=
  PoolManager.Env (λ _, 100)
    (Returned "/tmp/ptsn-pool1") (Returned "a1b2c3") (Returned ()) (Returned ())
    (Returned segments3) (Returned (Some ["video"; "audio"]))
    (Threw (Rejected "drive closed")) (Returned ())
    (Returned (true, segments3)) (Returned ())
    completed (Some (7000, "/output/final.mp4")) (Returned ()) (Returned ()).

Definition workflowA : JobTranslator.workflow :=
  JobTranslator.Workflow "vod-web" "http://localhost:9000/input" 720 30 "mp4"
    "job-a" "/tmp/ptsn-job-a-x/input.mp4".

Definition start_of_time : Sys := MkSys 0 ∅.

Definition config : Bridge.config :=
  Bridge.Config "http://localhost:9000" (Some "runner-token") None 2 (Some 3600000)
    (Some 600000).

(** The bridge after [start()]. *)
Definition bridge : Bridge.t := (Bridge.start config (Bridge.new config)).2.

Definition payloadA : payload :=
  Payload (Some (PayloadInput "http://localhost:9000/input" "")) (Some (PayloadOutput 720 30)).

Definition offer (id type : string) : job := Job id type payloadA.

(** Four offers, the second one of an unsupported type (scenario C);
    every accept succeeds; no other task is running. *)
Definition pollEnv : Bridge.poll_env :=
  Bridge.PollEnv
    (Reply true 200 ""
       [offer "job-1" "vod-web-video-transcoding";
        offer "job-live" "live-rtmp-hls-transcoding";
        offer "job-2" "vod-hls-transcoding";
        offer "job-3" "vod-web-video-transcoding"])
    (λ id, Reply true 200 "" ("token-of-" +:+ id))
    (λ _, []).

Definition ok : reply unit := Reply true 204 "" ().

Definition goodFiles : ResultAssembler.files :=
  ResultAssembler.Files (λ _, true) (λ _, Returned 4096)
    (λ _, ResultAssembler.FfprobeData
            (Some (ResultAssembler.Metadata (Some ["h264"; "aac"]) (Some "180.0")))).

(** Scenario B at the bridge: the pipeline of "job-a" never finalizes;
    every report and every removal succeeds. *)
Definition jobEnvB : Bridge.job_env :=
  Bridge.JobEnv (λ _, 50) (Returned "/tmp/ptsn-job-a-dl") (Returned ())
    pipelineB goodFiles (Returned "bytes") (λ _, ok) ok ok (λ _, true).

(** Scenario A at the bridge. *)
Definition jobEnvA : Bridge.job_env :=
  Bridge.JobEnv (λ _, 50) (Returned "/tmp/ptsn-job-a-dl") (Returned ())
    pipelineA goodFiles (Returned "bytes") (λ _, ok) ok ok (λ _, true).

(** The bridge right after [acceptJob("job-a")] returned. *)
Definition acceptedA : Bridge.t :=
  (Bridge.on_client (RunnerClient.acceptJob (Reply true 200 "" "token-a") "job-a") bridge).2.

(** Shutdown with one job launched in the pool; closing the store fails. *)
Definition shutdownEnv : Bridge.shutdown_env :=
  Bridge.ShutdownEnv (λ _, ok) (λ _, true) (Returned ()) (Threw (Rejected "store close failed")) ok.

(** Shutdown where only the guarded steps fail: the report and the
    unregistration. *)
Definition lossyShutdownEnv : Bridge.shutdown_env :=
  Bridge.ShutdownEnv (λ _, NetworkError "socket hang up") (λ _, true)
    (Returned ()) (Returned ()) (Reply false 500 "Internal Server Error" ()).

Definition busy : Bridge.t :=
  Bridge.set_watchdog (JobWatchdog.watch 0 "job-a" Bridge.TimeoutHandler)
    (Bridge.set_poolManager
       (PoolManager.set_activeJobs
          (PoolManager.map_set "job-a" (PoolManager.PoolJob "/tmp/ptsn-pool1" 0))
          (Bridge.poolManager acceptedA))
       acceptedA).

(** A watchdog with a timeout of 1000 ms that watches "job-a" since 0. *)
Definition watched : JobWatchdog.t Bridge.callback :=
  JobWatchdog.watch 0 "job-a" Bridge.TimeoutHandler (JobWatchdog.new (Some 1000)).

(** "job-a" is watched, kicked, times out, is cleared and watched again. *)
Definition calls : list (JobWatchdog.op Bridge.callback) :=
  [JobWatchdog.Watch 0 "job-a" Bridge.TimeoutHandler; JobWatchdog.Kick 400 "job-a";
   JobWatchdog.Advance 2000; JobWatchdog.Clear "job-a";
   JobWatchdog.Watch 3000 "job-a" Bridge.TimeoutHandler].

(** A client that holds the runner token and the token of "job-a". *)
Definition clientA : RunnerClient.t :=
  RunnerClient.set_jobTokens (insert "job-a" "token-a")
    (RunnerClient.set_runnerToken (Some "runner-token")
       (RunnerClient.new "http://localhost:9000")).

(** Scenario A with a segmentation that takes 4000000 ms, longer than the
    watchdog's 3600000 ms. *)
Definition pipelineSlow : PoolManager.env :=
  PoolManager.Env (λ st, match st with PoolManager.Segment => 4000000 | _ => 100 end)
    (Returned "/tmp/ptsn-pool1") (Returned "a1b2c3") (Returned ()) (Returned ())
    (Returned segments3) (Returned (Some ["video"; "audio"])) (Returned ()) (Returned ())
    (Returned (true, segments3)) (Returned ())
    completed (Some (7000, "/output/final.mp4")) (Returned ()) (Returned ()).

Definition jobEnvSlow : Bridge.job_env :=
  Bridge.JobEnv (λ _, 50) (Returned "/tmp/ptsn-job-a-dl") (Returned ())
    pipelineSlow goodFiles (Returned "bytes") (λ _, ok) ok ok (λ _, true).

(** Two jobs in flight: "job-a" is accepted and started, then "job-b";
    "job-a" fails and reaches line 177; "job-b" completes; "job-a" reaches
    line 181. *)
Definition interleaved : list Bridge.action :=
  [Bridge.Admits (offer "job-a" "vod-web-video-transcoding");
   Bridge.Other acceptedA;
   Bridge.Starts (offer "job-a" "vod-web-video-transcoding");
   Bridge.Admits (offer "job-b" "vod-hls-transcoding");
   Bridge.Starts (offer "job-b" "vod-hls-transcoding");
   Bridge.Fails "job-a";
   Bridge.Ends "job-b";
   Bridge.Ends "job-a"].

(** The queue offers "job-a" a second time while its first run is in
    flight; the first run fails and ends before the second accept
    returns. *)
Definition reoffer : list Bridge.action :=
  [Bridge.Admits (offer "job-a" "vod-web-video-transcoding");
   Bridge.Starts (offer "job-a" "vod-web-video-transcoding");
   Bridge.Admits (offer "job-a" "vod-web-video-transcoding");
   Bridge.Fails "job-a";
   Bridge.Ends "job-a";
   Bridge.Starts (offer "job-a" "vod-web-video-transcoding")].

(** The queue offers "job-a" again, and a new job. *)
Definition retryEnv : Bridge.poll_env :=
  Bridge.PollEnv
    (Reply true 200 ""
       [offer "job-a" "vod-web-video-transcoding";
        offer "job-9" "vod-web-video-transcoding"])
    (λ id, Reply true 200 "" ("token-of-" +:+ id))
    (λ _, []).
End Scenario.

(** * Properties *)

(** ** Doubles: rounding is monotone *)

Section DoubleFacts.
Import Double PoolManager.
Local Open Scope Q_scope.

Lemma rne_floor y : (Qfloor y ≤ rne y ≤ Qfloor y + 1)%Z.
Proof.
  unfold rne. destruct (y - inject_Z (Qfloor y) ?= 1 # 2); [destruct (Z.even _)| |]; lia.
Qed.

Lemma rne_lower (n : Z) y : inject_Z n <= y → (n ≤ rne y)%Z.
Proof.
  intros Hy. apply Qfloor_resp_le in Hy. rewrite Qfloor_Z in Hy.
  pose proof (rne_floor y). lia.
Qed.

Lemma rne_upper (n : Z) y : y <= inject_Z n → (rne y ≤ n)%Z.
Proof.
  intros Hy. pose proof (Qfloor_resp_le _ _ Hy) as Hf. rewrite Qfloor_Z in Hf.
  pose proof (rne_floor y) as Hr.
  destruct (Z.eq_dec (Qfloor y) n) as [Heq|Hne]; [|lia].
  unfold rne. rewrite Heq.
  destruct (Qcompare_spec (y - inject_Z n) (1 # 2)); [lra|lia|lra].
Qed.

Lemma rne_mono y1 y2 : y1 <= y2 → (rne y1 ≤ rne y2)%Z.
Proof.
  intros Hy. pose proof (Qfloor_resp_le _ _ Hy) as Hf.
  pose proof (rne_floor y1) as H1. pose proof (rne_floor y2) as H2.
  destruct (Z.eq_dec (Qfloor y1) (Qfloor y2)) as [Heq|Hne]; [|lia].
  unfold rne. rewrite <- Heq.
  destruct (Qcompare_spec (y1 - inject_Z (Qfloor y1)) (1 # 2));
    destruct (Qcompare_spec (y2 - inject_Z (Qfloor y1)) (1 # 2));
    try lia; try (destruct (Z.even (Qfloor y1)); lia); lra.
Qed.

Lemma two_pow_pos (e : Z) : 0 < 2 ^ e.
Proof. apply Qpower_0_lt. reflexivity. Qed.

Lemma two_pow_le (a b : Z) : (a ≤ b)%Z → 2 ^ a <= 2 ^ b.
Proof. intros Hab. apply Qpower_le_compat_l; [exact Hab|discriminate]. Qed.

Lemma two_pow_succ (a : Z) : 2 ^ (a + 1) == 2 * 2 ^ a.
Proof. rewrite Qpower_plus by discriminate. change (2 ^ 1) with 2. ring. Qed.

Lemma two_pow_Z (a : Z) : (0 ≤ a)%Z → 2 ^ a == inject_Z (2 ^ a).
Proof. intros Ha. symmetry. apply (Zpower_Qpower 2 a Ha). Qed.

Lemma ilog2_spec x : 0 < x → 2 ^ ilog2 x <= x ∧ x < 2 ^ (ilog2 x + 1).
Proof.
  destruct x as [n d]. intros Hpos.
  assert (Hn : (0 < n)%Z) by (unfold Qlt in Hpos; cbn in Hpos; lia).
  unfold ilog2. cbn [Qnum Qden]. cbv zeta.
  set (ln := Z.log2 n). set (ld := Z.log2 (Z.pos d)).
  pose proof (Z.log2_spec n Hn) as [Hn1 Hn2]. fold ln in Hn1, Hn2.
  pose proof (Z.log2_spec (Z.pos d) ltac:(lia)) as [Hd1 Hd2]. fold ld in Hd1, Hd2.
  pose proof (Z.log2_nonneg n) as Hln. fold ln in Hln.
  pose proof (Z.log2_nonneg (Z.pos d)) as Hld. fold ld in Hld.
  assert (Hx : n # d == inject_Z n / inject_Z (Z.pos d)) by (apply Qmake_Qdiv).
  assert (HA : 2 ^ ln <= inject_Z n) by (rewrite two_pow_Z by lia; rewrite Zle_Qle in Hn1; exact Hn1).
  assert (HA' : inject_Z n < 2 * 2 ^ ln).
  { rewrite <- two_pow_succ, two_pow_Z by lia. rewrite Zlt_Qlt in Hn2; exact Hn2. }
  assert (HB : 2 ^ ld <= inject_Z (Z.pos d))
    by (rewrite two_pow_Z by lia; rewrite Zle_Qle in Hd1; exact Hd1).
  assert (HB' : inject_Z (Z.pos d) < 2 * 2 ^ ld).
  { rewrite <- two_pow_succ, two_pow_Z by lia. rewrite Zlt_Qlt in Hd2; exact Hd2. }
  assert (Hk : 2 ^ ln == 2 ^ (ln - ld) * 2 ^ ld).
  { rewrite <- Qpower_plus by discriminate. now replace (ln - ld + ld)%Z with ln by lia. }
  pose proof (two_pow_pos ld) as Pld. pose proof (two_pow_pos (ln - ld)) as Pk.
  assert (Hk1 : 2 ^ (ln - ld) == 2 * 2 ^ (ln - ld - 1)).
  { rewrite <- two_pow_succ. now replace (ln - ld - 1 + 1)%Z with (ln - ld)%Z by lia. }
  assert (Hk2 : 2 ^ (ln - ld + 1) == 2 * 2 ^ (ln - ld)) by apply two_pow_succ.
  replace (ln - ld - 1 + 1)%Z with (ln - ld)%Z by lia.
  set (K1 := 2 ^ (ln - ld - 1)) in *. set (K2 := 2 ^ (ln - ld + 1)) in *.
  set (N := inject_Z n) in *. set (D := inject_Z (Z.pos d)) in *.
  set (B := 2 ^ ld) in *. set (K := 2 ^ (ln - ld)) in *.
  set (X := n # d) in *. clear Hn1 Hn2 Hd1 Hd2.
  assert (HD : 0 < D) by (apply Qlt_le_trans with B; assumption).
  assert (HKB : K * B <= K * D) by (apply Qmult_le_l; assumption).
  assert (HKD : K * D < K * (2 * B)) by (apply Qmult_lt_l; assumption).
  assert (HKD' : K * (2 * B) == 2 * (K * B)) by ring. rewrite HKD' in HKD.
  rewrite Hk in HA, HA'.
  assert (Hup : N / D < 2 * K).
  { apply Qlt_shift_div_r; [exact HD|].
    assert (Hg : 2 * K * D == 2 * (K * D)) by ring. rewrite Hg.
    clear - HA' HKB. revert HA' HKB. generalize (K * B), (K * D). intros; lra. }
  assert (Hlow : K / 2 < N / D).
  { apply Qlt_shift_div_l; [exact HD|].
    assert (Hg : K / 2 * D == (K * D) * (1 # 2)) by (field). rewrite Hg.
    clear - HA HKD. revert HA HKD. generalize (K * B), (K * D). intros; lra. }
  destruct (Qle_bool K X) eqn:Hc.
  - apply Qle_bool_iff in Hc. split; [exact Hc|]. fold K2. rewrite Hk2, Hx. exact Hup.
  - assert (Hlt : X < K).
    { apply Qnot_le_lt. intros Hle. apply Qle_bool_iff in Hle. congruence. }
    replace (ln - ld - 1 + 1)%Z with (ln - ld)%Z by lia.
    fold K1. split; [|exact Hlt]. rewrite Hx.
    assert (Hg : K / 2 == K * (1 # 2)) by field. rewrite Hg in Hlow.
    clear - Hlow Hk1. revert Hlow Hk1. generalize (N / D), K, K1. intros; lra.
Qed.

Lemma round_nonneg x : 0 <= round x.
Proof.
  unfold round. destruct (Qle_bool x 0) eqn:Hc; [apply Qle_refl|].
  assert (Hpos : 0 < x).
  { apply Qnot_le_lt. intros Hle. apply Qle_bool_iff in Hle. congruence. }
  apply Qmult_le_0_compat; [|apply Qlt_le_weak, two_pow_pos].
  change 0 with (inject_Z 0). rewrite <- Zle_Qle. apply rne_lower.
  apply Qle_shift_div_l; [apply two_pow_pos|].
  change (inject_Z 0) with 0. rewrite Qmult_0_l. apply Qlt_le_weak, Hpos.
Qed.

Lemma scaled_bounds x : 0 < x →
  inject_Z (2 ^ 52) <= x / 2 ^ (ilog2 x - 52) ∧ x / 2 ^ (ilog2 x - 52) < inject_Z (2 ^ 53).
Proof.
  intros Hpos. destruct (ilog2_spec x Hpos) as [Hlo Hhi].
  pose proof (two_pow_pos (ilog2 x - 52)) as Pe.
  assert (H1 : 2 ^ ilog2 x == inject_Z (2 ^ 52) * 2 ^ (ilog2 x - 52)).
  { rewrite <- two_pow_Z by lia. rewrite <- Qpower_plus by discriminate.
    now replace (52 + (ilog2 x - 52))%Z with (ilog2 x) by lia. }
  assert (H2 : 2 ^ (ilog2 x + 1) == inject_Z (2 ^ 53) * 2 ^ (ilog2 x - 52)).
  { rewrite <- two_pow_Z by lia. rewrite <- Qpower_plus by discriminate.
    now replace (53 + (ilog2 x - 52))%Z with (ilog2 x + 1)%Z by lia. }
  split.
  - apply Qle_shift_div_l; [exact Pe|]. now rewrite <- H1.
  - apply Qlt_shift_div_r; [exact Pe|]. now rewrite <- H2.
Qed.

Lemma round_value x : 0 < x →
  round x == inject_Z (rne (x / 2 ^ (ilog2 x - 52))) * 2 ^ (ilog2 x - 52)
  ∧ 2 ^ ilog2 x <= round x ∧ round x <= 2 ^ (ilog2 x + 1).
Proof.
  intros Hpos. unfold round.
  destruct (Qle_bool x 0) eqn:Hc; [apply Qle_bool_iff in Hc; lra|].
  split; [reflexivity|].
  destruct (scaled_bounds x Hpos) as [Hlo Hhi].
  pose proof (two_pow_pos (ilog2 x - 52)) as Pe.
  pose proof (rne_lower _ _ Hlo) as Hm1. apply Qlt_le_weak in Hhi.
  pose proof (rne_upper _ _ Hhi) as Hm2.
  rewrite Zle_Qle in Hm1, Hm2.
  assert (H1 : 2 ^ ilog2 x == inject_Z (2 ^ 52) * 2 ^ (ilog2 x - 52)).
  { rewrite <- two_pow_Z by lia. rewrite <- Qpower_plus by discriminate.
    now replace (52 + (ilog2 x - 52))%Z with (ilog2 x) by lia. }
  assert (H2 : 2 ^ (ilog2 x + 1) == inject_Z (2 ^ 53) * 2 ^ (ilog2 x - 52)).
  { rewrite <- two_pow_Z by lia. rewrite <- Qpower_plus by discriminate.
    now replace (53 + (ilog2 x - 52))%Z with (ilog2 x + 1)%Z by lia. }
  rewrite H1, H2. split; apply Qmult_le_compat_r; auto using Qlt_le_weak.
Qed.

Lemma round_mono x y : x <= y → round x <= round y.
Proof.
  intros Hxy. destruct (Qlt_le_dec 0 x) as [Hx|Hx].
  2: { unfold round at 1. apply Qle_bool_iff in Hx. rewrite Hx. apply round_nonneg. }
  assert (Hy : 0 < y) by lra.
  destruct (round_value x Hx) as (Vx & _ & Ux). destruct (round_value y Hy) as (Vy & Ly & _).
  destruct (ilog2_spec x Hx) as [Lx _]. destruct (ilog2_spec y Hy) as [_ Uy'].
  assert (Hle : (ilog2 x ≤ ilog2 y)%Z).
  { apply Z.lt_succ_r. apply (Qpower_lt_compat_l_inv 2); [|reflexivity].
    unfold Z.succ. lra. }
  destruct (Z.eq_dec (ilog2 x) (ilog2 y)) as [Heq|Hne].
  - rewrite Vx, Vy, Heq. pose proof (two_pow_pos (ilog2 y - 52)) as Pe.
    apply Qmult_le_compat_r; [|lra]. rewrite <- Zle_Qle. apply rne_mono.
    apply Qmult_le_compat_r; [exact Hxy|]. apply Qlt_le_weak, Qinv_lt_0_compat, Pe.
  - pose proof (two_pow_le (ilog2 x + 1) (ilog2 y) ltac:(lia)). lra.
Qed.

Lemma round_compat x y : x == y → round x == round y.
Proof.
  intros Hxy. apply Qle_antisym; apply round_mono; rewrite Hxy; apply Qle_refl.
Qed.

#[local] Instance round_proper : Proper (Qeq ==> Qeq) round.
Proof. intros x y Hxy. now apply round_compat. Qed.

Lemma floor_ratio75_mono total d1 d2 :
  (d1 ≤ d2)%nat → (floor_ratio75 d1 total ≤ floor_ratio75 d2 total)%Z.
Proof.
  intros Hd. unfold floor_ratio75, floor, mul, div, of_nat.
  apply Qfloor_resp_le, round_mono.
  apply Qmult_le_compat_r; [|discriminate]. apply round_mono.
  apply Qmult_le_compat_r.
  - rewrite <- Zle_Qle. lia.
  - apply Qinv_le_0_compat. change 0 with (inject_Z 0). rewrite <- Zle_Qle. lia.
Qed.

Lemma floor_ratio75_nonneg done total : (0 ≤ floor_ratio75 done total)%Z.
Proof.
  unfold floor_ratio75, floor, mul. rewrite <- (Qfloor_Z 0).
  apply Qfloor_resp_le, round_nonneg.
Qed.






(** The rounding above and the Standard Library's binary64 give the same
    percentages for up to 64 segments. *)
Lemma floor_ratio75_reference : agree_up_to 64 = true.
Proof. vm_compute. reflexivity. Qed.
End DoubleFacts.

(** ** The monad *)

(** Unfolding of the monad, for the proofs below. *)
Ltac munfold :=
  unfold bind, ret, throw, modify, gets, try_catch, try_finally, swallow, zoom, await in *.

Lemma bind_returned {S A B} (c : M S A) (k : A → M S B) s a s' :
  c s = (Returned a, s') → bind c k s = k a s'.
Proof. intros Hc. unfold bind. now rewrite Hc. Qed.

Lemma bind_threw {S A B} (c : M S A) (k : A → M S B) s err s' :
  c s = (Threw err, s') → bind c k s = (Threw err, s').
Proof. intros Hc. unfold bind. now rewrite Hc. Qed.

(** ** JobWatchdog *)

Section WatchdogFacts.
Context {Cb : Type}.
Implicit Types (w : JobWatchdog.t Cb) (id : string) (cb : Cb).
Import JobWatchdog.

(** [watch] never cancels: every timer pending before is pending after,
    and one more is armed for the id. *)
Lemma watch_keeps_pending now id cb w :
  pending (watch now id cb w)
  = pending w ++ [Timer (next_handle w) (now + timer_delay (timeoutMs w)) cb id].
Proof. reflexivity. Qed.

Lemma watch_timers_for now id cb w :
  length (timers_for id (watch now id cb w)) = S (length (timers_for id w)).
Proof.
  unfold timers_for. rewrite watch_keeps_pending, filter_app, length_app.
  rewrite filter_cons_True by reflexivity. simpl. lia.
Qed.

(** [kick], the sibling path, cancels the timer of the entry before it
    arms the next one. *)
Lemma kick_timers_for now id w e :
  jobs w !! id = Some e →
  timers_for id (kick now id w)
  = filter (λ tm, handle tm ≠ entry_timer e) (timers_for id w)
    ++ [Timer (next_handle w) (now + timer_delay (timeoutMs w)) (onTimeout e) id].
Proof.
  intros He. unfold timers_for, kick. rewrite He. simpl.
  rewrite filter_app, filter_cons_True by reflexivity. simpl.
  f_equal. unfold clearTimeout. rewrite !list_filter_filter.
  apply list_filter_iff. intros tm. tauto.
Qed.

Lemma kick_unknown now id w : jobs w !! id = None → kick now id w = w.
Proof. intros He. unfold kick. now rewrite He. Qed.

Lemma clear_unknown id w : jobs w !! id = None → clear id w = w.
Proof. intros He. unfold clear. now rewrite He. Qed.

Lemma clear_removes id w : jobs (clear id w) !! id = None.
Proof.
  unfold clear. destruct (jobs w !! id) eqn:He; [apply lookup_delete_eq|exact He].
Qed.

Lemma clear_idempotent id w : clear id (clear id w) = clear id w.
Proof.
  destruct (jobs w !! id) as [e|] eqn:He.
  - apply clear_unknown. unfold clear. rewrite He. simpl. apply lookup_delete_eq.
  - now rewrite (clear_unknown id w He), (clear_unknown id w He).
Qed.
End WatchdogFacts.

(** C1.  At most one watchdog timer per job id, [watch] on an id that has an
    entry replaces the timer, and a timeout is delivered only if no clear
    came before the deadline.  The code does not do this: [watch] arms a new
    timer and overwrites the entry without cancelling the old timer.  With a
    1000 ms timeout, [watch("job-a", cb1)] at 0 and [watch("job-a", cb2)] at
    10 leave two pending timers for "job-a"; both callbacks run; and after
    [clear("job-a")] the first timer still fires. *)
Theorem C1_watch_on_watched_id_stacks_timers :
  let w1 := JobWatchdog.watch 0 "job-a" 1%nat (JobWatchdog.new (Some 1000)) in
  let w2 := JobWatchdog.watch 10 "job-a" 2%nat w1 in
  length (JobWatchdog.timers_for "job-a" w1) = 1%nat ∧
  length (JobWatchdog.timers_for "job-a" w2) = 2%nat ∧
  JobWatchdog.fired (JobWatchdog.advance 5000 w2)
    = [(1%nat, "job-a"); (2%nat, "job-a")] ∧
  JobWatchdog.jobs (JobWatchdog.clear "job-a" w2) !! "job-a" = None ∧
  JobWatchdog.fired (JobWatchdog.advance 5000 (JobWatchdog.clear "job-a" w2))
    = [(1%nat, "job-a")] ∧
  JobWatchdog.fired (JobWatchdog.advance 5000 (JobWatchdog.kick 10 "job-a" w1))
    = [(1%nat, "job-a")].
Proof. vm_compute. repeat split; reflexivity. Qed.

(** ** HealthMonitor *)

Section HealthFacts.
Import HealthMonitor.
Implicit Types (m : HealthMonitor.t) (p : probe) (cs : list cycle).

Lemma check_max p now started m :
  maxConsecutiveFailures (_check p now started m) = maxConsecutiveFailures m.
Proof. destruct p; simpl; unfold _recordFailure; try case_match; reflexivity. Qed.

Lemma check_ok now started m :
  consecutiveFailures (_check ProbeOk now started m) = 0%nat
  ∧ isHealthy (_check ProbeOk now started m) = true.
Proof. split; reflexivity. Qed.

Lemma check_failed_count p now started m :
  probe_failed p = true →
  consecutiveFailures (_check p now started m) = S (consecutiveFailures m).
Proof.
  destruct p; intros Hp; try discriminate; simpl; unfold _recordFailure;
    case_match; reflexivity.
Qed.

Lemma check_failed_healthy p now started m :
  probe_failed p = true →
  isHealthy (_check p now started m)
  = isHealthy m && negb (maxConsecutiveFailures m <=? S (consecutiveFailures m))%nat.
Proof.
  destruct p; intros Hp; try discriminate; simpl; unfold _recordFailure, isHealthy;
    case_match; simpl; now rewrite ?andb_false_r, ?andb_true_r.
Qed.

Lemma zombies_not_unhealthy now timeout started :
  filter (λ e, is_unhealthy e = true) (zombies now timeout started) = [].
Proof.
  unfold zombies. induction started as [|[u st] r IH]; [reflexivity|].
  cbn [omap list_omap]. destruct (timeout * 2 <? now - st); [|exact IH].
  rewrite filter_cons_False; [exact IH|]. cbn. discriminate.
Qed.

Lemma notified_failed p now started m :
  probe_failed p = true →
  notified p now started m =
    if (maxConsecutiveFailures m <=? S (consecutiveFailures m))%nat
    then [Unhealthy (reason_of p) (S (consecutiveFailures m))] else [].
Proof.
  intros Hp. unfold notified.
  assert (Hev : events (_check p now started m)
                = events m
                  ++ (if (maxConsecutiveFailures m <=? S (consecutiveFailures m))%nat
                      then [Unhealthy (reason_of p) (S (consecutiveFailures m))] else [])
                  ++ zombies now (jobTimeoutMs m) started).
  { destruct p; try discriminate; simpl; unfold _recordFailure;
      case_match; simpl; rewrite <- ?app_assoc, ?app_nil_r; reflexivity. }
  rewrite Hev, drop_app_length, filter_app, zombies_not_unhealthy, app_nil_r.
  case_match; [|reflexivity].
  now rewrite filter_cons_True by reflexivity.
Qed.

Lemma checks_failed cs m :
  Forall (λ c, probe_failed c.1.1 = true) cs →
  consecutiveFailures (checks cs m) = (consecutiveFailures m + length cs)%nat
  ∧ maxConsecutiveFailures (checks cs m) = maxConsecutiveFailures m
  ∧ isHealthy (checks cs m)
    = isHealthy m
      && (bool_decide (cs = [])
          || negb (maxConsecutiveFailures m <=? consecutiveFailures m + length cs)%nat).
Proof.
  revert m. induction cs as [|[[p now] started] r IH]; intros m Hall.
  - simpl. rewrite Nat.add_0_r, andb_true_r. auto.
  - inversion Hall as [|? ? Hp Hr]; subst. simpl in Hp.
    change (checks (((p, now), started) :: r) m)
      with (checks r (_check p now started m)).
    destruct (IH (_check p now started m) Hr) as (Hc & Hm & Hh).
    rewrite Hc, Hm, Hh, check_max, check_failed_count, check_failed_healthy by exact Hp.
    split; [simpl; lia|]. split; [reflexivity|].
    rewrite (bool_decide_eq_false_2 (_ :: r = [])) by discriminate.
    simpl length. rewrite orb_false_l.
    destruct r as [|c r'].
    + rewrite bool_decide_eq_true_2 by reflexivity. simpl.
      now rewrite Nat.add_1_r, andb_true_r.
    + rewrite (bool_decide_eq_false_2 (_ :: r' = [])) by discriminate.
      rewrite orb_false_l, <- andb_assoc. f_equal.
      replace (S (consecutiveFailures m) + length (c :: r'))%nat
        with (consecutiveFailures m + S (length (c :: r')))%nat by lia.
      destruct (Nat.leb_spec (maxConsecutiveFailures m) (S (consecutiveFailures m)));
        destruct (Nat.leb_spec (maxConsecutiveFailures m)
                    (consecutiveFailures m + S (length (c :: r'))));
        simpl in *; try reflexivity; lia.
Qed.
End HealthFacts.

(** C5.  From a healthy monitor with an empty failure streak and a positive
    threshold: while fewer than [maxConsecutiveFailures] probe cycles in a
    row have failed [isHealthy()] is still true, and after exactly
    [maxConsecutiveFailures] of them it is false; one successful probe then
    (or at any time) resets [consecutiveFailures] to 0 and makes
    [isHealthy()] true; and every failed cycle that brings or keeps the
    streak at or above the threshold emits one "unhealthy" notification,
    every other cycle none. *)
Theorem C5_health_monitor_hysteresis
    (m : HealthMonitor.t) (cs : list HealthMonitor.cycle) :
  HealthMonitor.consecutiveFailures m = 0%nat →
  HealthMonitor.isHealthy m = true →
  (0 < HealthMonitor.maxConsecutiveFailures m)%nat →
  Forall (λ c, HealthMonitor.probe_failed c.1.1 = true) cs →
  let m' := HealthMonitor.checks cs m in
  HealthMonitor.consecutiveFailures m' = length cs
  ∧ ((length cs < HealthMonitor.maxConsecutiveFailures m)%nat →
       HealthMonitor.isHealthy m' = true)
  ∧ (length cs = HealthMonitor.maxConsecutiveFailures m →
       HealthMonitor.isHealthy m' = false)
  ∧ (∀ now started,
       let m'' := HealthMonitor._check HealthMonitor.ProbeOk now started m' in
       HealthMonitor.consecutiveFailures m'' = 0%nat
       ∧ HealthMonitor.isHealthy m'' = true
       ∧ HealthMonitor.notified HealthMonitor.ProbeOk now started m' = [])
  ∧ (∀ p now started,
       HealthMonitor.probe_failed p = true →
       HealthMonitor.notified p now started m'
       = if bool_decide (HealthMonitor.maxConsecutiveFailures m ≤ S (length cs))%nat
         then [HealthMonitor.Unhealthy (HealthMonitor.reason_of p) (S (length cs))]
         else []).
Proof.
  intros Hz Hh Hpos Hall m'.
  destruct (checks_failed cs m Hall) as (Hc & Hm & Hhealthy).
  fold m' in Hc, Hm, Hhealthy. rewrite Hz in Hc, Hhealthy. rewrite Hh in Hhealthy.
  simpl in Hc, Hhealthy.
  split; [exact Hc|]. split; [|split; [|split]].
  - intros Hlt. rewrite Hhealthy.
    destruct (Nat.leb_spec (HealthMonitor.maxConsecutiveFailures m) (length cs));
      [lia|]. simpl. apply orb_true_r.
  - intros Heq. rewrite Hhealthy.
    rewrite bool_decide_eq_false_2 by (intros ->; simpl in Heq; lia).
    rewrite Heq, Nat.leb_refl. reflexivity.
  - intros now started m''. split; [reflexivity|]. split; [reflexivity|].
    unfold HealthMonitor.notified. simpl. rewrite drop_app_length.
    apply zombies_not_unhealthy.
  - intros p now started Hp. rewrite notified_failed by exact Hp.
    rewrite Hm, Hc. destruct (Nat.leb_spec (HealthMonitor.maxConsecutiveFailures m)
                                (S (length cs))).
    + now rewrite bool_decide_eq_true_2.
    + rewrite bool_decide_eq_false_2 by lia. reflexivity.
Qed.

Lemma C5_health_monitor_hysteresis_witness :
  let m := HealthMonitor.new None in
  let failed := (HealthMonitor.ProbeStatus 503, 0, []) in
  let cs := [failed; failed; failed; failed; failed] in
  HealthMonitor.isHealthy (HealthMonitor.checks cs m) = false
  ∧ HealthMonitor.isHealthy
      (HealthMonitor._check HealthMonitor.ProbeOk 0 [] (HealthMonitor.checks cs m)) = true.
Proof.
  intros m failed cs.
  assert (Hz : HealthMonitor.consecutiveFailures m = 0%nat) by reflexivity.
  assert (Hh : HealthMonitor.isHealthy m = true) by reflexivity.
  assert (Hpos : (0 < HealthMonitor.maxConsecutiveFailures m)%nat) by (vm_compute; lia).
  assert (Hall : Forall (λ c : HealthMonitor.cycle, HealthMonitor.probe_failed c.1.1 = true) cs)
    by (repeat constructor).
  destruct (C5_health_monitor_hysteresis m cs Hz Hh Hpos Hall) as (_ & _ & Hat & Hok & _).
  split.
  - apply Hat. reflexivity.
  - apply (Hok 0 []).
Defined.

(** ** RunnerClient *)

Section ClientFacts.
Import RunnerClient.
Implicit Types (c : RunnerClient.t) (j : string) (o : op).

Ltac client_unfold :=
  unfold run, unregister, requestJob, acceptJob, updateJob, postSuccess, postError,
    abortJob, _jobToken, fetch, checked, set_jobTokens, set_runnerToken, _apiUrl in *;
  munfold; simpl in *.

(** Without a stored token the call throws at [_jobToken]: the client is
    left as it was, no request was added to [requests]. *)
Lemma needs_token_throws c j o :
  needs_token j o → jobTokens c !! j = None →
  run o c = (Threw (NoJobToken j), c).
Proof.
  intros Hn Hnone. destruct Hn; client_unfold; rewrite Hnone; reflexivity.
Qed.

(** A terminal report that returns has deleted the token. *)
Lemma terminal_deletes_token c j o :
  terminal j o → returned (run o c).1 = true →
  jobTokens (run o c).2 !! j = None.
Proof.
  intros Ht. destruct Ht as [f r pa|r msg|r]; client_unfold;
    (destruct (jobTokens c !! j) as [tok|]; [|discriminate]);
    (destruct (decide (tok = "")); [discriminate|]);
    try (destruct f; [|discriminate]);
    destruct r as [?|[] ? ? ?]; simpl; try discriminate;
    intros _; apply lookup_delete_eq.
Qed.

(** Only [acceptJob] of the same id stores a token for it. *)
Lemma run_keeps_token_absent c j o :
  accepts j o = false → jobTokens c !! j = None →
  jobTokens (run o c).2 !! j = None.
Proof.
  intros Hacc Hnone.
  assert (Hdel : ∀ k, delete k (jobTokens c) !! j = None).
  { intros k. rewrite lookup_delete. case_decide; [reflexivity|assumption]. }
  destruct o as [r|r|r k|r k pr|f r k pa|r k msg|r k]; client_unfold.
  - destruct r as [?|[] ? ? ?]; assumption.
  - destruct r as [?|[] ? ? ?]; assumption.
  - destruct r as [?|[] ? ? ?]; simpl; try assumption.
    rewrite lookup_insert_ne; [assumption|].
    intros ->. now rewrite bool_decide_eq_true_2 in Hacc.
  - destruct (jobTokens c !! k) as [tok|]; [|assumption].
    destruct (decide (tok = "")); [assumption|].
    destruct r as [?|[] ? ? ?]; assumption.
  - destruct (jobTokens c !! k) as [tok|]; [|assumption].
    destruct (decide (tok = "")); [assumption|].
    destruct f; [|assumption].
    destruct r as [?|[] ? ? ?]; simpl; try assumption. apply Hdel.
  - destruct (jobTokens c !! k) as [tok|]; [|assumption].
    destruct (decide (tok = "")); [assumption|].
    destruct r as [?|[] ? ? ?]; simpl; try assumption. apply Hdel.
  - destruct (jobTokens c !! k) as [tok|]; [|assumption].
    destruct (decide (tok = "")); [assumption|].
    destruct r as [?|[] ? ? ?]; simpl; try assumption. apply Hdel.
Qed.

Lemma runs_keep_token_absent c j os :
  Forall (λ o, accepts j o = false) os → jobTokens c !! j = None →
  jobTokens (runs os c) !! j = None.
Proof.
  revert c. induction os as [|o r IH]; intros c Hall Hnone; [exact Hnone|].
  inversion Hall; subst. unfold runs. simpl. apply IH; [assumption|].
  now apply run_keeps_token_absent.
Qed.
End ClientFacts.

(** C10.  Once [postSuccess], [postError] or [abortJob] for a job id has
    returned, the stored token of that id is deleted; after any further
    client calls that do not accept the same id again, each of [updateJob],
    [postSuccess], [postError] and [abortJob] for that id throws "No job
    token for job <id>" and leaves the client untouched, so no request is
    sent; in particular a second terminal report cannot return. *)
Theorem C10_token_consumed_by_terminal_report
    (c : RunnerClient.t) (j : string) (o o' : RunnerClient.op)
    (os : list RunnerClient.op) :
  RunnerClient.terminal j o →
  returned (RunnerClient.run o c).1 = true →
  Forall (λ x, RunnerClient.accepts j x = false) os →
  RunnerClient.needs_token j o' →
  let c1 := RunnerClient.runs os (RunnerClient.run o c).2 in
  RunnerClient.jobTokens (RunnerClient.run o c).2 !! j = None
  ∧ RunnerClient.run o' c1 = (Threw (NoJobToken j), c1)
  ∧ RunnerClient.requests (RunnerClient.run o' c1).2 = RunnerClient.requests c1
  ∧ message (NoJobToken j) = "No job token for job " +:+ j.
Proof.
  intros Hterm Hret Hos Hneed c1.
  pose proof (terminal_deletes_token c j o Hterm Hret) as Hgone.
  pose proof (runs_keep_token_absent _ j os Hos Hgone) as Hstill.
  pose proof (needs_token_throws c1 j o' Hneed Hstill) as Hthrow.
  split; [exact Hgone|]. split; [exact Hthrow|]. split; [|reflexivity].
  now rewrite Hthrow.
Qed.

(** The watchdog's timeout handler posts an error for "job-a"; the update
    sent next and the error report of the failure path both throw. *)
Lemma C10_token_consumed_by_terminal_report_witness :
  let c := RunnerClient.set_jobTokens (insert "job-a" "tok-1")
             (RunnerClient.new "http://localhost:9000") in
  let timed_out := RunnerClient.OpPostError (Reply true 204 "" ()) "job-a" "Job timed out" in
  let update := RunnerClient.OpUpdateJob (Reply true 204 "" ()) "job-a" 40 in
  let report := RunnerClient.OpPostError (Reply true 204 "" ()) "job-a" "Job timed out after 600000ms" in
  let c1 := RunnerClient.runs [update] (RunnerClient.run timed_out c).2 in
  RunnerClient.run report c1 = (Threw (NoJobToken "job-a"), c1)
  ∧ length (RunnerClient.requests c1) = 1%nat.
Proof.
  intros c timed_out update report c1. split; [|reflexivity].
  apply (C10_token_consumed_by_terminal_report c "job-a" timed_out report [update]).
  - constructor.
  - reflexivity.
  - repeat constructor.
  - constructor.
Defined.

(** ** ResultAssembler *)

Section ResultFacts.
Import JobTranslator ResultAssembler.

Lemma probeFile_streams fs path :
  returned (probeFile fs path) = bool_decide (0 < decodable_streams fs path)%nat.
Proof.
  unfold probeFile, decodable_streams.
  destruct (ffprobe fs path) as [msg|[m|]]; try reflexivity.
  destruct (streams m) as [[|s r]|]; reflexivity.
Qed.

Lemma kind_of_hls type : kind_of type = Hls ↔ type = "vod-hls".
Proof. unfold kind_of. case_decide; split; congruence. Qed.
End ResultFacts.

(** C8.  [prepareResult] throws when the artifact is missing or unreadable
    ("Output file missing" when [access] rejects), when it is zero-length
    ("Output file is empty"), and when the probe delivers no stream;
    otherwise it returns the descriptor of the artifact whose type is "hls"
    for the workflow type "vod-hls" and "web-video" for every other. *)
Theorem C8_prepareResult_validates_and_classifies
    (fs : ResultAssembler.files) (path : string) (wf : JobTranslator.workflow) :
  let r := ResultAssembler.prepareResult fs path wf in
  (ResultAssembler.access_R_OK fs path = false → r = Threw (OutputMissing path))
  ∧ (ResultAssembler.readable_size fs path = None → returned r = false)
  ∧ (ResultAssembler.readable_size fs path = Some 0 → r = Threw (OutputEmpty path))
  ∧ (ResultAssembler.decodable_streams fs path = 0%nat → returned r = false)
  ∧ (∀ n, ResultAssembler.readable_size fs path = Some n → n ≠ 0 →
          (0 < ResultAssembler.decodable_streams fs path)%nat →
          r = Returned (ResultAssembler.Result path (ResultAssembler.kind_of (JobTranslator.wf_type wf))))
  ∧ (ResultAssembler.kind_of (JobTranslator.wf_type wf) = ResultAssembler.Hls
     ↔ JobTranslator.wf_type wf = "vod-hls").
Proof.
  intros r. subst r. unfold ResultAssembler.prepareResult, ResultAssembler.readable_size.
  pose proof (probeFile_streams fs path) as Hprobe.
  pose proof (kind_of_hls (JobTranslator.wf_type wf)) as Hkind.
  destruct (ResultAssembler.access_R_OK fs path); simpl;
    [|repeat split; solve [intros; first [discriminate | reflexivity] | apply Hkind]].
  destruct (ResultAssembler.stat_size fs path) as [n|e]; simpl;
    [|repeat split; solve [intros; first [discriminate | reflexivity] | apply Hkind]].
  destruct (Z.eqb_spec n 0) as [->|Hn];
    [repeat split;
     solve [intros; first [discriminate | reflexivity | congruence] | apply Hkind]|].
  destruct (ResultAssembler.probeFile fs path) as [m|e]; simpl in Hprobe; symmetry in Hprobe.
  - apply bool_decide_eq_true_1 in Hprobe.
    repeat split; try solve [intros; first [discriminate | congruence | lia] | apply Hkind].
    intros k _ _ _. unfold ResultAssembler.kind_of. case_decide; reflexivity.
  - apply bool_decide_eq_false_1 in Hprobe.
    repeat split;
      solve [intros; first [discriminate | reflexivity | congruence | lia] | apply Hkind].
Qed.

Lemma C8_prepareResult_validates_and_classifies_witness :
  let fs := ResultAssembler.Files (λ _, true) (λ _, Returned 4096)
              (λ _, ResultAssembler.FfprobeData
                      (Some (ResultAssembler.Metadata (Some ["h264"; "aac"]) (Some "12.5")))) in
  let wf := JobTranslator.Workflow "vod-hls" "http://pt/in.mp4" 720 30 "hls" "job-a" "/tmp/in.mp4" in
  ResultAssembler.prepareResult fs "/tmp/ptsn-x/output.mp4" wf
  = Returned (ResultAssembler.Result "/tmp/ptsn-x/output.mp4" ResultAssembler.Hls).
Proof.
  intros fs wf.
  destruct (C8_prepareResult_validates_and_classifies fs "/tmp/ptsn-x/output.mp4" wf)
    as (_ & _ & _ & _ & Hok & _).
  apply (Hok 4096); [reflexivity | lia | vm_compute; lia].
Defined.

(** ** PoolManager *)

Section PoolFacts.
Import PoolManager.
Context {H : Type}.
Variable onProgress : Z → Sys → H → H.
Implicit Types (e : env) (w : world H).

Ltac mstep :=
  cbv [step progress on_pm on_sys bind ret await modify gets throw
       pm sys host negb set_poolKey set_activeJobs log_destroy segmentTimeoutMs];
  cbn [fst snd].

Lemma tick_spec e n t0 a w :
  ∃ w', tick onProgress e n t0 a w = (Returned (), w')
        ∧ pm w' = pm w ∧ tmpdirs (sys w') = tmpdirs (sys w).
Proof.
  destruct w as [m s h]. unfold tick. mstep.
  destruct (0 <? n)%nat; mstep; eexists; (split; [reflexivity|]); auto.
Qed.

Lemma run_ticks_spec e n t0 ts w :
  ∃ w', run_ticks onProgress e n t0 ts w = (Returned (), w')
        ∧ pm w' = pm w ∧ tmpdirs (sys w') = tmpdirs (sys w).
Proof.
  revert w. induction ts as [|a r IH]; intros w; [exists w; auto|].
  destruct (tick_spec e n t0 a w) as (w1 & Ht & Hp1 & Hd1).
  destruct (IH w1) as (w2 & Hr & Hp2 & Hd2).
  exists w2. cbn [run_ticks]. rewrite (bind_returned _ _ _ _ _ Ht).
  split; [exact Hr|]. split; congruence.
Qed.

Lemma submit_config e wf dir w :
  segmentTimeoutMs (pm (submit onProgress e wf dir w).2) = segmentTimeoutMs (pm w).
Proof.
  destruct w as [m s h]. unfold submit. mstep.
  destruct (createPoolDrive e); [|reflexivity]. mstep.
  destruct (pipeSource e); [|reflexivity]. mstep.
  destruct (extractMetadata e); [|reflexivity]. mstep.
  destruct (segment e); [|reflexivity]. mstep.
  destruct (demux e); [|reflexivity]. mstep.
  destruct (putSegments e); [|reflexivity]. mstep.
  destruct (putTracks e); [|reflexivity]. mstep.
  destruct (loadConfig e) as [[[] segs]|]; [| |reflexivity]; mstep; [|reflexivity].
  destruct (launch e); [|reflexivity]. mstep. reflexivity.
Qed.

Lemma submit_reaches e wf dir w :
  returned (createPoolDrive e) = true → returned (pipeSource e) = true →
  returned (extractMetadata e) = true → returned (segment e) = true →
  returned (demux e) = true → returned (putSegments e) = true →
  returned (putTracks e) = true →
  ∀ segs, loadConfig e = Returned (true, segs) → returned (launch e) = true →
  (submit onProgress e wf dir w).1 = Returned segs.
Proof.
  intros H2 H3 H4 H5 H6 H7 H8 segs H9 H10.
  destruct w as [m s h]. unfold submit. mstep.
  destruct (createPoolDrive e); [|discriminate]. mstep.
  destruct (pipeSource e); [|discriminate]. mstep.
  destruct (extractMetadata e); [|discriminate]. mstep.
  destruct (segment e); [|discriminate]. mstep.
  destruct (demux e); [|discriminate]. mstep.
  destruct (putSegments e); [|discriminate]. mstep.
  destruct (putTracks e); [|discriminate]. mstep.
  rewrite H9. mstep.
  destruct (launch e); [|discriminate]. mstep. reflexivity.
Qed.

Lemma timer_delay_le ms : 0 < ms → timer_delay ms ≤ ms.
Proof.
  intros Hpos. unfold timer_delay.
  destruct (Z.leb_spec 1 ms); destruct (Z.leb_spec ms TIMEOUT_MAX); simpl; lia.
Qed.

Lemma wait_end_timeout e m :
  0 < pipelineTimeoutMs m → ¬ finalized_within (pipelineTimeoutMs m) e →
  (wait_end e m).2 = Threw (JobTimedOut (pipelineTimeoutMs m)).
Proof.
  intros Hpos Hnot. unfold wait_end.
  destruct (finalized e) as [[at_ms result]|] eqn:Hf; [|reflexivity].
  destruct (Z.ltb_spec at_ms (timer_delay (pipelineTimeoutMs m))); [|reflexivity].
  exfalso. apply Hnot. exists at_ms, result. split; [exact Hf|].
  pose proof (timer_delay_le _ Hpos). lia.
Qed.

Lemma monitor_outcome e n w :
  (monitor onProgress e n w).1 = (wait_end e (pm w)).2.
Proof.
  unfold monitor.
  rewrite (bind_returned _ _ w (now (sys w)) w) by reflexivity.
  rewrite (bind_returned _ _ w (pm w) w) by reflexivity.
  destruct (run_ticks_spec e n (now (sys w)) (ticks (wait_end e (pm w)).1) w)
    as (w1 & Hr & _ & _).
  rewrite (bind_returned _ _ _ _ _ Hr). reflexivity.
Qed.

(** The shape of [processJob] once [mkdtemp] gave [dir]. *)
Lemma processJob_unfold e wf w dir :
  mkdtemp e = Returned dir →
  processJob onProgress e wf w =
    let w0 := World (pm w) (made dir (elapse (took e Mkdtemp) (sys w))) (host w) in
    match processJob_try onProgress e wf dir w0 with
    | (Returned r, w1) =>
        (Returned r,
         World (set_activeJobs (map_delete (JobTranslator.jobUUID wf)) (pm w1)) (sys w1) (host w1))
    | (Threw err, w1) =>
        (Threw err,
         World (set_activeJobs (map_delete (JobTranslator.jobUUID wf))
                  (log_destroy (JobTranslator.jobUUID wf) (pm w1))) (sys w1) (host w1))
    end.
Proof.
  intros Hd. unfold processJob, step, on_sys, modify, bind, await.
  rewrite Hd. reflexivity.
Qed.

End PoolFacts.

Section ProgressFacts.
Import PoolManager.
Implicit Types (e : env) (w : world (list Z)).

Ltac mstep :=
  cbv [step progress on_pm on_sys bind ret await modify gets throw
       pm sys host negb set_poolKey set_activeJobs log_destroy segmentTimeoutMs
       record_progress];
  cbn [fst snd].

Lemma tick_log e n t0 a w :
  ∃ w', tick record_progress e n t0 a w = (Returned (), w')
        ∧ host w' = host w ++ tick_values e n [a].
Proof.
  destruct w as [m s h]. unfold tick, tick_values. mstep.
  destruct (0 <? n)%nat; mstep; eexists; (split; [reflexivity|]); cbn [host].
  - reflexivity.
  - now rewrite app_nil_r.
Qed.

Lemma run_ticks_log e n t0 ts w :
  ∃ w', run_ticks record_progress e n t0 ts w = (Returned (), w')
        ∧ host w' = host w ++ tick_values e n ts.
Proof.
  revert w. induction ts as [|a r IH]; intros w.
  - exists w. split; [reflexivity|]. unfold tick_values.
    destruct (0 <? n)%nat; now rewrite app_nil_r.
  - destruct (tick_log e n t0 a w) as (w1 & Ht & Hh1).
    destruct (IH w1) as (w2 & Hr & Hh2).
    exists w2. cbn [run_ticks]. rewrite (bind_returned _ _ _ _ _ Ht).
    split; [exact Hr|]. rewrite Hh2, Hh1, <- app_assoc. f_equal.
    unfold tick_values. destruct (0 <? n)%nat; reflexivity.
Qed.

Lemma submit_log e wf dir w segs w1 :
  submit record_progress e wf dir w = (Returned segs, w1) →
  loadConfig e = Returned (true, segs) ∧ host w1 = host w ++ [0; 2; 8; 10].
Proof.
  destruct w as [m s h]. unfold submit. mstep.
  destruct (createPoolDrive e); [|discriminate]. mstep.
  destruct (pipeSource e); [|discriminate]. mstep.
  destruct (extractMetadata e); [|discriminate]. mstep.
  destruct (segment e); [|discriminate]. mstep.
  destruct (demux e); [|discriminate]. mstep.
  destruct (putSegments e); [|discriminate]. mstep.
  destruct (putTracks e); [|discriminate]. mstep.
  destruct (loadConfig e) as [[[] sg]|]; [| |discriminate]; mstep; [|discriminate].
  destruct (launch e); [|discriminate]. mstep.
  intros [= <- <-]. split; [reflexivity|]. cbn [host].
  now rewrite <- !app_assoc.
Qed.


Lemma extract_log e wf dir w r w1 :
  extract record_progress e wf dir w = (Returned r, w1) →
  host w1 = host w ++ [95; 100].
Proof.
  destruct w as [m s h]. unfold extract. mstep.
  destruct (extractOutput e); [|discriminate]. mstep.
  destruct (poolDestroy e); [|discriminate]. mstep.
  intros [= _ <-]. cbn [host]. now rewrite <- app_assoc.
Qed.


Lemma seq_sorted a n : StronglySorted lt (seq a n).
Proof.
  revert a. induction n as [|n IH]; intros a; simpl; constructor; [apply IH|].
  apply Forall_forall. intros x Hx. apply elem_of_seq in Hx. lia.
Qed.

Lemma ticks_sorted end_ms : StronglySorted Z.le (ticks end_ms).
Proof.
  unfold ticks. eapply StronglySorted_fmap; [|apply seq_sorted].
  intros x y Hxy. simpl. lia.
Qed.

Lemma tick_percent_bounds e n a : 10 ≤ tick_percent e n a ≤ 85.
Proof.
  unfold tick_percent. pose proof (floor_ratio75_nonneg (segmentsComplete e a) n). lia.
Qed.

Lemma tick_values_sorted e n ts :
  (∀ t1 t2, t1 ≤ t2 → (segmentsComplete e t1 ≤ segmentsComplete e t2)%nat) →
  StronglySorted Z.le ts →
  StronglySorted Z.le (tick_values e n ts).
Proof.
  intros Hseg Hts. unfold tick_values. destruct (0 <? n)%nat; [|constructor].
  eapply StronglySorted_fmap; [|exact Hts].
  intros x y Hxy. unfold tick_percent.
  pose proof (floor_ratio75_mono n _ _ (Hseg x y Hxy)). lia.
Qed.

End ProgressFacts.

(** C6.  When every step before the wait succeeds and "finalized" is not
    emitted within the pipeline timeout of the pool manager
    ([config.segmentTimeoutMs], 600000 ms when unset or 0), [processJob]
    rejects with "Job timed out after <timeout>ms", an error of the timeout
    class.  The deadline is a setting of the pool manager alone: the state
    [H] of the caller, where the watchdog and its job timeout live, does not
    enter it. *)
Theorem C6_pipeline_timeout_rejects {H : Type} (onProgress : Z → Sys → H → H)
    (e : PoolManager.env) (wf : JobTranslator.workflow) (w : PoolManager.world H) :
  PoolManager.reaches_wait e →
  0 < PoolManager.pipelineTimeoutMs (PoolManager.pm w) →
  ¬ PoolManager.finalized_within (PoolManager.pipelineTimeoutMs (PoolManager.pm w)) e →
  ∃ err,
    (PoolManager.processJob onProgress e wf w).1 = Threw err
    ∧ is_timeout err = true
    ∧ err = JobTimedOut (num_or (PoolManager.segmentTimeoutMs (PoolManager.pm w)) 600000).
Proof.
  intros (H1&H2&H3&H4&H5&H6&H7&H8&(segs&H9)&H10) Hpos Hnot.
  exists (JobTimedOut (PoolManager.pipelineTimeoutMs (PoolManager.pm w))).
  split; [|split; reflexivity].
  destruct (PoolManager.mkdtemp e) as [dir|] eqn:Hd; [|discriminate].
  rewrite (processJob_unfold onProgress e wf w dir Hd). cbv zeta.
  set (w0 := PoolManager.World _ _ _).
  assert (Hw0 : PoolManager.segmentTimeoutMs (PoolManager.pm w0)
                = PoolManager.segmentTimeoutMs (PoolManager.pm w)) by reflexivity.
  unfold PoolManager.processJob_try.
  pose proof (submit_reaches onProgress e wf dir w0 H2 H3 H4 H5 H6 H7 H8 segs H9 H10) as Hs.
  pose proof (submit_config onProgress e wf dir w0) as Hc.
  destruct (PoolManager.submit onProgress e wf dir w0) as [o w1] eqn:Hsub.
  cbn [fst snd] in Hs, Hc. subst o.
  rewrite (bind_returned _ _ _ _ _ Hsub).
  assert (Ht : PoolManager.pipelineTimeoutMs (PoolManager.pm w1)
               = PoolManager.pipelineTimeoutMs (PoolManager.pm w)).
  { unfold PoolManager.pipelineTimeoutMs. now rewrite Hc, Hw0. }
  pose proof (monitor_outcome onProgress e (length segs) w1) as Hm.
  rewrite wait_end_timeout in Hm by (rewrite Ht; assumption).
  destruct (PoolManager.monitor onProgress e (length segs) w1) as [o w2] eqn:Hmon.
  cbn [fst] in Hm. subst o.
  rewrite (bind_threw _ _ _ _ _ Hmon). cbn [fst]. now rewrite Ht.
Qed.

(** Scenario B with a pipeline timeout of 5000 ms. *)
Lemma C6_pipeline_timeout_rejects_witness :
  (PoolManager.processJob PoolManager.record_progress Scenario.pipelineB Scenario.workflowA
     (PoolManager.World (PoolManager.new (Some 5000)) Scenario.start_of_time [])).1
  = Threw (JobTimedOut 5000).
Proof.
  destruct (C6_pipeline_timeout_rejects PoolManager.record_progress Scenario.pipelineB
              Scenario.workflowA
              (PoolManager.World (PoolManager.new (Some 5000)) Scenario.start_of_time []))
    as (err & Hrun & _ & ->).
  - repeat split; try reflexivity. exists Scenario.segments3. reflexivity.
  - reflexivity.
  - intros (at_ms & result & Hf & _). discriminate Hf.
  - exact Hrun.
Defined.



Lemma completed_monotone t1 t2 :
  t1 ≤ t2 → (Scenario.completed t1 ≤ Scenario.completed t2)%nat.
Proof.
  intros Hle. unfold Scenario.completed.
  pose proof (Z.div_le_mono t1 t2 2000 ltac:(lia) Hle). lia.
Qed.


(** [onProgress(10)] is called after the demux and before the segments and
    tracks are written to the drive: a run that fails there has reported
    10. *)
Lemma progress_10_precedes_manifest :
  let run := PoolManager.processJob PoolManager.record_progress Scenario.pipelineNoManifest
               Scenario.workflowA
               (PoolManager.World (PoolManager.new None) Scenario.start_of_time []) in
  run.1 = Threw (Rejected "drive closed") ∧ PoolManager.host run.2 = [0; 2; 8; 10].
Proof. vm_compute. split; reflexivity. Qed.

(** ** Frame rules: what a computation leaves untouched *)

Section Frame.
Context {S T : Type} (f : S → T).

Lemma preserves_ret {A} (a : A) : preserves f (ret a).
Proof. intros s. reflexivity. Qed.
Lemma preserves_throw {A} err : preserves f (@throw S A err).
Proof. intros s. reflexivity. Qed.
Lemma preserves_await {A} (o : outcome A) : preserves f (await o).
Proof. intros s. reflexivity. Qed.
Lemma preserves_gets {A} (g : S → A) : preserves f (gets g).
Proof. intros s. reflexivity. Qed.
Lemma preserves_modify (g : S → S) : (∀ s, f (g s) = f s) → preserves f (modify g).
Proof. intros Hg s. apply Hg. Qed.
Lemma preserves_bind {A B} (c : M S A) (k : A → M S B) :
  preserves f c → (∀ a, preserves f (k a)) → preserves f (bind c k).
Proof.
  intros Hc Hk s. unfold bind. specialize (Hc s).
  destruct (c s) as [[a|err] s1]; cbn [snd] in *; [|exact Hc].
  now rewrite (Hk a s1).
Qed.
Lemma preserves_try_catch {A} (c : M S A) (h : error → M S A) :
  preserves f c → (∀ err, preserves f (h err)) → preserves f (try_catch c h).
Proof.
  intros Hc Hh s. unfold try_catch. specialize (Hc s).
  destruct (c s) as [[a|err] s1]; cbn [snd] in *; [exact Hc|].
  now rewrite (Hh err s1).
Qed.
Lemma preserves_swallow {A} (c : M S A) : preserves f c → preserves f (swallow c).
Proof. intros Hc s. unfold swallow. specialize (Hc s). now destruct (c s). Qed.
Lemma preserves_if {A} (b : bool) (c1 c2 : M S A) :
  preserves f c1 → preserves f c2 → preserves f (if b then c1 else c2).
Proof. now destruct b. Qed.
End Frame.

Lemma preserves_zoom {S U T A} (f : U → T) (get : U → S) (set : S → U → U) (c : M S A) :
  (∀ s u, f (set s u) = f u) → preserves f (zoom get set c).
Proof. intros Hset u. unfold zoom. destruct (c (get u)) as [o s1]. apply Hset. Qed.

Lemma preserves_zoom_inner {S U T A} (g : S → T) (get : U → S) (set : S → U → U) (c : M S A) :
  (∀ s u, get (set s u) = s) → preserves g c → preserves (g ∘ get) (zoom get set c).
Proof.
  intros Hgs Hc u. unfold zoom, compose. specialize (Hc (get u)).
  destruct (c (get u)) as [o s1]. cbn [snd] in *. now rewrite Hgs.
Qed.

Section PoolFrame.
Import PoolManager.
Context {H T : Type} (g : H → T) (onProgress : Z → Sys → H → H).
Hypothesis Hcb : ∀ p s h, g (onProgress p s h) = g h.
Local Abbreviation f := (g ∘ host).

Lemma preserves_on_pm k : preserves f (@on_pm H k).
Proof. apply preserves_modify. reflexivity. Qed.
Lemma preserves_on_sys k : preserves f (@on_sys H k).
Proof. apply preserves_modify. reflexivity. Qed.
Lemma preserves_step {A} e st (o : outcome A) : preserves f (@step H A e st o).
Proof. apply preserves_bind; [apply preserves_on_sys|intros; apply preserves_await]. Qed.
Lemma preserves_progress p : preserves f (progress onProgress p).
Proof. apply preserves_modify. intros [m s h]. apply Hcb. Qed.

Ltac frame :=
  repeat first
    [ apply preserves_on_pm | apply preserves_on_sys | apply preserves_step
    | apply preserves_progress | apply preserves_ret | apply preserves_throw
    | apply preserves_await | apply preserves_gets
    | apply preserves_if
    | apply preserves_bind; [|intros ?] ].

Lemma preserves_run_ticks e n t0 ts : preserves f (run_ticks onProgress e n t0 ts).
Proof.
  induction ts as [|a r IH]; cbn [run_ticks]; [apply preserves_ret|].
  apply preserves_bind; [|intros _; exact IH]. unfold tick. frame.
Qed.

Lemma preserves_submit e wf dir : preserves f (submit onProgress e wf dir).
Proof. unfold submit. frame. Qed.

Lemma preserves_monitor e n : preserves f (monitor onProgress e n).
Proof. unfold monitor. frame. apply preserves_run_ticks. Qed.

Lemma preserves_extract e wf dir : preserves f (extract onProgress e wf dir).
Proof. unfold extract. frame. Qed.

Lemma preserves_pool_processJob e wf : preserves f (processJob onProgress e wf).
Proof.
  unfold processJob. apply preserves_bind; [apply preserves_step|intros dir].
  apply preserves_bind; [apply preserves_on_sys|intros _].
  intros w0.
  assert (Ht : preserves f (processJob_try onProgress e wf dir)).
  { unfold processJob_try.
    apply preserves_bind; [apply preserves_submit|intros segs].
    apply preserves_bind; [apply preserves_monitor|intros _; apply preserves_extract]. }
  specialize (Ht w0). destruct (processJob_try onProgress e wf dir w0) as [[r|err] w1];
    exact Ht.
Qed.

Lemma preserves_cancelJob rm id : preserves f (@cancelJob H rm id).
Proof.
  unfold cancelJob. apply preserves_bind; [apply preserves_gets|intros [j|]]; frame.
Qed.

Lemma preserves_destroy rm sd sc : preserves f (@destroy H rm sd sc).
Proof.
  assert (Hall : ∀ ids, preserves f (@cancel_all H rm ids)).
  { induction ids as [|i r IH]; cbn [cancel_all]; [apply preserves_ret|].
    apply preserves_bind; [apply preserves_cancelJob|intros _; exact IH]. }
  unfold destroy. apply preserves_bind; [apply preserves_gets|intros ids].
  apply preserves_bind; [apply Hall|intros _]. frame.
Qed.
End PoolFrame.

Section BridgeFrame.
Import Bridge.
Context {T : Type} (f : Bridge.t → T).
(** [f] reads the bridge's own tables only. *)
Hypothesis Hclient : ∀ c b, f (set_runnerClient c b) = f b.
Hypothesis Hpool : ∀ m b, f (set_poolManager m b) = f b.
Hypothesis Hsys : ∀ s b, f (set_sys s b) = f b.
Hypothesis Hwd : ∀ g b, f (set_watchdog g b) = f b.
Hypothesis Hlog : ∀ l b, f (write l b) = f b.

Lemma preserves_on_client {A} (c : M RunnerClient.t A) : preserves f (on_client c).
Proof. apply preserves_zoom. intros; apply Hclient. Qed.

Lemma preserves_bridge_on_sys {A} (c : M Sys A) : preserves f (Bridge.on_sys c).
Proof. apply preserves_zoom. intros; apply Hsys. Qed.

Lemma preserves_on_pool {A} (c : M (PoolManager.world Bridge.t) A) :
  preserves (f ∘ PoolManager.host) c → preserves f (on_pool c).
Proof.
  intros Hc b. unfold on_pool, zoom.
  specialize (Hc (PoolManager.World (poolManager b) (sys b) b)).
  destruct (c _) as [o w1]. cbn [snd] in *. unfold compose in Hc. cbn in Hc.
  now rewrite Hpool, Hsys.
Qed.

Lemma preserves_bridge_step {A} e st (o : outcome A) : preserves f (Bridge.step e st o).
Proof.
  unfold Bridge.step. apply preserves_bind; [apply preserves_bridge_on_sys|].
  intros _. apply preserves_await.
Qed.

Lemma onProgress_frame e id p s b : f (onProgress e id p s b) = f b.
Proof. unfold onProgress. now rewrite Hclient, Hwd. Qed.

Lemma preserves_on_self {A} (c : M Bridge.t A) :
  preserves f c → preserves (f ∘ self) (on_self c).
Proof. intros Hc. unfold on_self. apply (preserves_zoom_inner f); [reflexivity|exact Hc]. Qed.

Lemma preserves_try e id ty p : preserves (f ∘ self) (processJob_try e id ty p).
Proof.
  unfold processJob_try.
  repeat first
    [ apply preserves_await
    | apply preserves_modify; intros [? ? ?]; reflexivity
    | apply preserves_on_self
    | apply preserves_bridge_step
    | apply preserves_bridge_on_sys
    | apply preserves_on_client
    | apply preserves_on_pool; apply preserves_pool_processJob; apply onProgress_frame
    | apply preserves_modify; intros ?; first [apply Hlog | apply Hwd]
    | apply preserves_bind; [|intros ?] ].
Qed.
End BridgeFrame.

(** [new Bridge(config)] never reads [timeouts.segmentTimeoutMs]: the pool
    manager takes its deadline from [supernovao.segmentTimeoutMs]. *)
Lemma bridge_pipeline_timeout (cfg : Bridge.config) :
  PoolManager.pipelineTimeoutMs (Bridge.poolManager (Bridge.new cfg))
  = num_or (Bridge.supernovao_segmentTimeoutMs cfg) 600000.
Proof. reflexivity. Qed.

(** ** Bridge: poll *)

Section PollFacts.
Import Bridge.
Implicit Types (b : Bridge.t) (e : poll_env) (j : job).

Lemma others_spec evs b :
  ∃ b1, others evs b = (Returned (), b1)
        ∧ maxConcurrentJobs b1 = maxConcurrentJobs b
        ∧ log b1 = log b
        ∧ (size (activeJobs b1) ≤ size (activeJobs b))%nat.
Proof.
  unfold others, modify. eexists. split; [reflexivity|].
  revert b. induction evs as [|ev r IH]; intros b; [simpl; auto|].
  cbn [foldl]. destruct (IH (match ev with
                             | MarksFailed j => set_failedJobs (union {[j]}) b
                             | Leaves j => set_activeJobs (delete j) b
                             end)) as (Hm & Hl & Hs).
  rewrite Hm, Hl. destruct ev as [j|j]; cbn; (split; [reflexivity|]); (split; [reflexivity|]).
  - exact Hs.
  - etransitivity; [exact Hs|]. cbn. apply map_subseteq_size, delete_subseteq.
Qed.

Lemma accept_spec r id b :
  ∃ o c, on_client (RunnerClient.acceptJob r id) b = (o, set_runnerClient c b).
Proof. unfold on_client, zoom. destruct (RunnerClient.acceptJob r id (runnerClient b)) as [o c]. eauto. Qed.

Lemma admission_spec e jobs : ∀ k b,
  ∃ ds,
    log (admission e k jobs b).2 = log b ++ lines ds
    ∧ maxConcurrentJobs (admission e k jobs b).2 = maxConcurrentJobs b
    ∧ (ds ≠ [] → Z.of_nat (size (activeJobs b)) < maxConcurrentJobs b)
    ∧ Forall (λ d, Z.of_nat d.2 ≤ maxConcurrentJobs b) ds
    ∧ stops_at_capacity (maxConcurrentJobs b) ds
    ∧ accepted ds `sublist_of` (uuid <$> jobs).
Proof.
  induction jobs as [|j rest IH]; intros k b.
  { exists []. cbn. rewrite app_nil_r. repeat split; auto; try constructor. congruence. }
  cbn [admission].
  rewrite (bind_returned _ _ b (at_capacity b) b) by reflexivity.
  destruct (at_capacity b) eqn:Hcap.
  { exists []. cbn. rewrite app_nil_r. repeat split; auto; try constructor; try congruence.
    apply sublist_nil_l. }
  assert (Hlt : Z.of_nat (size (activeJobs b)) < maxConcurrentJobs b).
  { unfold at_capacity in Hcap. lia. }
  assert (Hskip : ∀ d, d ≠ Accepted →
    ∃ ds,
      log (bind (decided j d) (λ _, admission e k rest) b).2 = log b ++ lines ds
      ∧ maxConcurrentJobs (bind (decided j d) (λ _, admission e k rest) b).2 = maxConcurrentJobs b
      ∧ (ds ≠ [] → Z.of_nat (size (activeJobs b)) < maxConcurrentJobs b)
      ∧ Forall (λ d, Z.of_nat d.2 ≤ maxConcurrentJobs b) ds
      ∧ stops_at_capacity (maxConcurrentJobs b) ds
      ∧ accepted ds `sublist_of` (uuid <$> j :: rest)).
  { intros d Hd.
    set (b1 := write (Decided (uuid j) d (size (activeJobs b))) b).
    rewrite (bind_returned _ _ b () b1) by reflexivity.
    destruct (IH k b1) as (ds & Hlog & Hmax & Hne & Hall & Hstop & Hsub).
    exists ((uuid j, d, size (activeJobs b)) :: ds).
    rewrite Hlog, Hmax. cbn [log b1 write lines fmap list_fmap]. rewrite <- app_assoc.
    split; [reflexivity|]. split; [reflexivity|]. split; [auto|].
    split; [constructor; [cbn; lia|exact Hall]|].
    split; [cbn; split; [intros _; lia|exact Hstop]|].
    cbn. destruct d; try congruence; now apply sublist_cons. }
  destruct (negb (JobTranslator.isSupported (type j))); [apply Hskip; discriminate|].
  rewrite (bind_returned _ _ b (bool_decide (uuid j ∈ failedJobs b)) b) by reflexivity.
  destruct (bool_decide (uuid j ∈ failedJobs b)); [apply Hskip; discriminate|].
  destruct (others_spec (meanwhile e k) b) as (b1 & Ho & Hm1 & Hl1 & Hs1).
  rewrite (bind_returned _ _ _ _ _ Ho).
  destruct (accept_spec (acceptJob_reply e (uuid j)) (uuid j) b1) as (o & c & Hacc).
  destruct o as [tok|err].
  2: { rewrite (bind_threw _ _ _ _ _ Hacc). exists []. cbn. rewrite app_nil_r, Hl1, Hm1.
       repeat split; auto; try constructor; try congruence. apply sublist_nil_l. }
  rewrite (bind_returned _ _ _ _ _ Hacc).
  set (b2 := set_runnerClient c b1).
  set (b3 := set_activeJobs (insert (uuid j) (ActiveJob (type j) (now (sys b2)))) b2).
  rewrite (bind_returned _ _ b2 () b3) by reflexivity.
  set (b4 := write (Decided (uuid j) Accepted (size (activeJobs b3))) b3).
  rewrite (bind_returned _ _ b3 () b4) by reflexivity.
  assert (Hsize : (size (activeJobs b3) ≤ S (size (activeJobs b)))%nat).
  { cbn. rewrite map_size_insert. destruct (activeJobs b1 !! uuid j); simpl; lia. }
  destruct (IH (S k) b4) as (ds & Hlog & Hmax & Hne & Hall & Hstop & Hsub).
  exists ((uuid j, Accepted, size (activeJobs b3)) :: ds).
  rewrite Hlog, Hmax.
  assert (Hm4 : maxConcurrentJobs b4 = maxConcurrentJobs b) by (cbn; exact Hm1).
  rewrite Hm4 in *.
  split; [cbn; rewrite Hl1, <- app_assoc; reflexivity|].
  split; [reflexivity|]. split; [auto|].
  split; [constructor; [cbn [snd]; lia|exact Hall]|].
  split; [cbn [stops_at_capacity]; split; [exact Hne|exact Hstop]|].
  cbn. now apply sublist_skip.
Qed.

Lemma decisions_of_lines ds :
  omap (λ l, match l with Decided j d n => Some (j, d, n) | _ => None end) (lines ds) = ds.
Proof. induction ds as [|[[j d] n] r IH]; [reflexivity|]. simpl. f_equal. exact IH. Qed.

Lemma decisions_since_app b b' ds extra :
  log b' = log b ++ lines ds ++ extra →
  Forall (λ l, match l with Decided _ _ _ => False | _ => True end) extra →
  decisions_since b b' = ds.
Proof.
  intros Hlog Hextra. unfold decisions_since.
  rewrite Hlog, drop_app_length, omap_app, decisions_of_lines.
  replace (omap _ extra) with (@nil (string * decision * nat)); [apply app_nil_r|].
  clear Hlog. induction Hextra as [|l r Hl _ IH]; [reflexivity|].
  destruct l; cbn; try contradiction; exact IH.
Qed.

Lemma request_spec e b :
  ∃ c, on_client (RunnerClient.requestJob (requestJob_reply e)) b
       = (match requestJob_reply e with
          | Reply true _ _ jobs => Returned jobs
          | Reply false st txt _ => Threw (HttpFailed "Request job" st txt)
          | NetworkError msg => Threw (Rejected msg)
          end, set_runnerClient c b).
Proof.
  unfold on_client, zoom, RunnerClient.requestJob, RunnerClient.fetch, RunnerClient.checked.
  munfold. destruct (requestJob_reply e) as [msg|[] st txt jobs]; eexists; reflexivity.
Qed.

Lemma poll_noop e b :
  isRunning b = false ∨ HealthMonitor.isHealthy (healthMonitor b) = false
  ∨ at_capacity b = true →
  poll e b = (Returned (), b).
Proof.
  intros Hno. unfold poll.
  rewrite (bind_returned _ _ b (isRunning b) b) by reflexivity.
  destruct (isRunning b); [|reflexivity]. cbn [negb].
  rewrite (bind_returned _ _ b (HealthMonitor.isHealthy (healthMonitor b)) b) by reflexivity.
  destruct (HealthMonitor.isHealthy (healthMonitor b)); [|reflexivity]. cbn [negb].
  rewrite (bind_returned _ _ b (at_capacity b) b) by reflexivity.
  destruct (at_capacity b); [reflexivity|].
  destruct Hno as [?|[?|?]]; discriminate.
Qed.

Lemma poll_spec e b :
  ∃ ds extra,
    (poll e b).1 = Returned ()
    ∧ log (poll e b).2 = log b ++ lines ds ++ extra
    ∧ Forall (λ l, match l with Decided _ _ _ => False | _ => True end) extra
    ∧ Forall (λ d, Z.of_nat d.2 ≤ maxConcurrentJobs b) ds
    ∧ stops_at_capacity (maxConcurrentJobs b) ds
    ∧ accepted ds `sublist_of` (uuid <$> offered e).
Proof.
  unfold poll.
  rewrite (bind_returned _ _ b (isRunning b) b) by reflexivity.
  destruct (isRunning b); cbn [negb].
  2: { exists [], []. cbn. rewrite app_nil_r. repeat split; auto; try apply sublist_nil_l. }
  rewrite (bind_returned _ _ b (HealthMonitor.isHealthy (healthMonitor b)) b) by reflexivity.
  destruct (HealthMonitor.isHealthy (healthMonitor b)); cbn [negb].
  2: { exists [], []. cbn. rewrite app_nil_r. repeat split; auto; try apply sublist_nil_l. }
  rewrite (bind_returned _ _ b (at_capacity b) b) by reflexivity.
  destruct (at_capacity b).
  { exists [], []. cbn. rewrite app_nil_r. repeat split; auto; try apply sublist_nil_l. }
  unfold try_catch.
  destruct (others_spec (meanwhile e 0) b) as (b1 & Ho & Hm1 & Hl1 & Hs1).
  rewrite (bind_returned _ _ _ _ _ Ho).
  destruct (request_spec e b1) as (c & Hreq).
  set (b2 := set_runnerClient c b1) in *.
  assert (Hl2 : log b2 = log b) by exact Hl1.
  assert (Hm2 : maxConcurrentJobs b2 = maxConcurrentJobs b) by exact Hm1.
  unfold offered.
  destruct (requestJob_reply e) as [msg|[] st txt jobs].
  - rewrite (bind_threw _ _ _ _ _ Hreq). exists [], [LogError "Poll error" (message (Rejected msg))].
    cbn. rewrite Hl1. repeat split; auto; try apply sublist_nil_l.
  - rewrite (bind_returned _ _ _ _ _ Hreq).
    destruct (admission_spec e jobs 1%nat b2) as (ds & Hlog & Hmax & _ & Hall & Hstop & Hsub).
    rewrite Hm2 in *. rewrite Hl2 in Hlog.
    destruct (admission e 1 jobs b2) as [[[]|err] b3]; cbn [fst snd] in *.
    + exists ds, []. rewrite app_nil_r. repeat split; auto.
    + exists ds, [LogError "Poll error" (message err)].
      cbn. rewrite Hlog, <- app_assoc. repeat split; auto.
  - rewrite (bind_threw _ _ _ _ _ Hreq).
    exists [], [LogError "Poll error" (message (HttpFailed "Request job" st txt))].
    cbn. rewrite Hl1. repeat split; auto; try apply sublist_nil_l.
Qed.
End PollFacts.

(** ** Bridge: processJob *)

Section JobFacts.
Import Bridge.
Implicit Types (b : Bridge.t) (e : job_env) (id : string).

Lemma preserves_catch {T} (f : Bridge.t → T) e id err :
  (∀ c b, f (set_runnerClient c b) = f b) → (∀ m b, f (set_poolManager m b) = f b) →
  (∀ s b, f (set_sys s b) = f b) → (∀ g b, f (set_watchdog g b) = f b) →
  (∀ l b, f (write l b) = f b) →
  (∀ b, f (set_failedJobs (union {[id]}) b) = f b) →
  preserves f (processJob_catch e id err).
Proof.
  intros Hclient Hpool Hsys Hwd Hlog Hfailed. unfold processJob_catch.
  repeat match goal with
    | |- preserves _ (bind _ _) => apply preserves_bind; [|intros ?]
    | |- preserves _ (swallow _) => apply preserves_swallow
    | |- preserves _ (Bridge.on_sys _) => apply preserves_bridge_on_sys; assumption
    | |- preserves _ (on_client _) => apply preserves_on_client; assumption
    | |- preserves _ (on_pool _) =>
        apply preserves_on_pool; [assumption..|apply preserves_cancelJob]
    | |- preserves _ (modify _) =>
        apply preserves_modify; intros ?; first [apply Hlog | apply Hwd | apply Hfailed]
    end.
Qed.

Lemma catch_closed_form e id err b :
  processJob_catch e id err b =
    let b1 := write (LogError "Job failed" (message err)) b in
    let b2 := set_sys (elapse (took e Report) (sys b1)) b1 in
    let b3 := (on_client (RunnerClient.postError (postError_reply e) id (message err)) b2).2 in
    let b4 := set_watchdog (JobWatchdog.clear id) (set_failedJobs (union {[id]}) b3) in
    (Returned (), (on_pool (PoolManager.cancelJob (rm_ok e) id) b4).2).
Proof.
  unfold processJob_catch, bind, modify, swallow, Bridge.on_sys.
  unfold zoom at 1. cbn [fst snd].
  destruct (on_client _ _) as [o1 b3]. cbn [snd].
  destruct (on_pool _ _) as [o2 b6]. reflexivity.
Qed.

Lemma catch_marks_failed e id err b :
  failedJobs (processJob_catch e id err b).2 = {[id]} ∪ failedJobs b.
Proof.
  rewrite catch_closed_form. cbv zeta. cbn [snd].
  rewrite (preserves_on_pool failedJobs ltac:(reflexivity) ltac:(reflexivity) _
             (preserves_cancelJob failedJobs (rm_ok e) id)).
  cbn [failedJobs set_watchdog set_failedJobs].
  now rewrite (preserves_on_client failedJobs ltac:(reflexivity)).
Qed.

Lemma catch_returns e id err b : (processJob_catch e id err b).1 = Returned ().
Proof. now rewrite catch_closed_form. Qed.

(** The [catch] block leaves no watchdog entry for the job. *)
Lemma catch_clears_watchdog e id err b :
  JobWatchdog.jobs (watchdog (processJob_catch e id err b).2) !! id = None.
Proof.
  rewrite catch_closed_form. cbv zeta. cbn [snd].
  rewrite (preserves_on_pool (λ b, JobWatchdog.jobs (watchdog b) !! id)
             ltac:(reflexivity) ltac:(reflexivity) _
             (preserves_cancelJob _ (rm_ok e) id)).
  cbn [watchdog set_watchdog set_failedJobs]. apply clear_removes.
Qed.

Lemma preserves_finally {T} (f : Bridge.t → T) e id :
  (∀ s b, f (set_sys s b) = f b) →
  (∀ b, f (set_activeJobs (delete id) b) = f b) →
  preserves (f ∘ self) (processJob_finally e id).
Proof.
  intros Hsys Hact. unfold processJob_finally.
  apply preserves_bind; [apply preserves_on_self, preserves_modify, Hact|intros _].
  apply preserves_bind; [apply preserves_gets|intros fr].
  apply preserves_bind; [|intros _].
  - destruct (tempDir fr); [|apply preserves_ret].
    apply preserves_on_self, preserves_bridge_on_sys, Hsys.
  - destruct (poolTempDir fr); [|apply preserves_ret].
    apply preserves_on_self, preserves_bridge_on_sys, Hsys.
Qed.

Lemma finally_drops e id fr :
  activeJobs (self (processJob_finally e id fr).2) = delete id (activeJobs (self fr)).
Proof.
  unfold processJob_finally.
  set (fr1 := Frame (set_activeJobs (delete id) (self fr)) (tempDir fr) (poolTempDir fr)).
  rewrite (bind_returned _ _ fr () fr1) by reflexivity.
  rewrite (bind_returned _ _ fr1 fr1 fr1) by reflexivity.
  assert (Hp : preserves (activeJobs ∘ self)
                 (bind (match tempDir fr1 with
                        | Some d => on_self (Bridge.on_sys (ResultAssembler.cleanupTemp (rm_ok e) d))
                        | None => ret ()
                        end)
                    (λ _, match poolTempDir fr1 with
                          | Some d => on_self (Bridge.on_sys (ResultAssembler.cleanupTemp (rm_ok e) d))
                          | None => ret ()
                          end))).
  { apply preserves_bind; [|intros _].
    - destruct (tempDir fr1); [|apply preserves_ret].
      apply preserves_on_self, preserves_bridge_on_sys. reflexivity.
    - destruct (poolTempDir fr1); [|apply preserves_ret].
      apply preserves_on_self, preserves_bridge_on_sys. reflexivity. }
  apply (Hp fr1).
Qed.

Lemma finally_returns e id fr : (processJob_finally e id fr).1 = Returned ().
Proof.
  unfold processJob_finally.
  set (fr1 := Frame (set_activeJobs (delete id) (self fr)) (tempDir fr) (poolTempDir fr)).
  rewrite (bind_returned _ _ fr () fr1) by reflexivity.
  rewrite (bind_returned _ _ fr1 fr1 fr1) by reflexivity.
  unfold bind, on_self, Bridge.on_sys, ResultAssembler.cleanupTemp, zoom, modify, ret.
  destruct (tempDir fr1), (poolTempDir fr1); reflexivity.
Qed.

(** [processJob] as its three blocks in sequence. *)
Lemma processJob_closed_form e id ty p b :
  processJob e id ty p b =
    let b1 := set_activeJobs (insert id (ActiveJob ty (now (sys b)))) b in
    let tried := processJob_try e id ty p (Frame b1 None None) in
    let fr :=
      match tried.1 with
      | Returned _ => tried.2
      | Threw err =>
          Frame (processJob_catch e id err (self tried.2)).2
                (tempDir tried.2) (poolTempDir tried.2)
      end in
    (Returned (), self (processJob_finally e id fr).2).
Proof.
  cbv zeta. unfold processJob, try_finally, processJob_guarded.
  set (b1 := set_activeJobs (insert id (ActiveJob ty (now (sys b)))) b).
  rewrite (bind_returned _ _ (Frame b None None) () (Frame b1 None None)) by reflexivity.
  unfold try_catch.
  destruct (processJob_try e id ty p (Frame b1 None None)) as [[[]|err] fr2]; cbn [fst snd].
  - pose proof (finally_returns e id fr2) as Hr.
    destruct (processJob_finally e id fr2) as [o fr3]. cbn [fst snd] in *. now subst o.
  - unfold on_self, zoom.
    pose proof (catch_returns e id err (self fr2)) as Hc.
    destruct (processJob_catch e id err (self fr2)) as [o b3]. cbn [fst snd] in *. subst o.
    pose proof (finally_returns e id (Frame b3 (tempDir fr2) (poolTempDir fr2))) as Hr.
    destruct (processJob_finally e id _) as [o fr3]. cbn [fst snd] in *. now subst o.
Qed.

(** What the failure path does achieve, in every failed run: the id is
    marked failed, it leaves the active table, and no watchdog entry is
    left for it. *)
Lemma failure_path e id ty p b :
  failed_run e id ty p b = true →
  let b' := (processJob e id ty p b).2 in
  id ∈ failedJobs b'
  ∧ (id ∉ dom (activeJobs b'))
  ∧ JobWatchdog.jobs (watchdog b') !! id = None.
Proof.
  intros Hfailed. rewrite processJob_closed_form. cbv zeta. cbn [snd].
  unfold failed_run in Hfailed.
  destruct (processJob_try e id ty p _) as [[[]|err] fr2]; cbn [fst snd returned negb] in *;
    [discriminate|].
  set (fr := Frame _ _ _).
  pose proof (preserves_finally failedJobs e id ltac:(reflexivity) ltac:(reflexivity) fr) as Hf.
  pose proof (preserves_finally (λ b, JobWatchdog.jobs (watchdog b) !! id) e id
                ltac:(reflexivity) ltac:(reflexivity) fr) as Hw.
  pose proof (finally_drops e id fr) as Ha.
  unfold compose in Hf, Hw. rewrite Hf, Hw, Ha. subst fr. cbn [self].
  split; [rewrite catch_marks_failed; apply elem_of_union_l, elem_of_singleton; reflexivity|].
  split; [|apply catch_clears_watchdog].
  rewrite dom_delete_L. intros Hin. apply elem_of_difference in Hin as [_ Hn].
  apply Hn, elem_of_singleton. reflexivity.
Qed.
End JobFacts.

(** ** Bridge: the tables along every interleaving *)

Section FleetFacts.
Import Bridge.
Implicit Types (b : Bridge.t) (f : fleet) (id : string) (ts pre post : list (string * phase)).

(** What [move] does to the list of tasks. *)
Lemma move_spec id from to ts ts' :
  move id from to ts = Some ts' →
  ∃ l1 ph l2, ts = l1 ++ (id, ph) :: l2 ∧ ph ∈ from
              ∧ ts' = l1 ++ match to with Some ph' => (id, ph') :: l2 | None => l2 end.
Proof.
  revert ts'. induction ts as [|[i ph] r IH]; intros ts' Hm; [discriminate|].
  cbn [move] in Hm. destruct (bool_decide_reflect (i = id ∧ ph ∈ from)) as [[-> Hin]|Hn].
  - injection Hm as <-. exists [], ph, r. auto.
  - destruct (move id from to r) as [r'|]; [|discriminate]. injection Hm as <-.
    destruct (IH r' eq_refl) as (l1 & ph' & l2 & -> & Hin & ->).
    exists ((i, ph) :: l1), ph', l2. auto.
Qed.

(** The tables and the tasks agree. *)
Definition coherent f : Prop :=
  NoDup (tasks f).*1
  ∧ (∀ id, id ∈ dom (activeJobs (bridge f)) ↔ (id, InTry) ∈ tasks f ∨ (id, InCatch) ∈ tasks f)
  ∧ (∀ id, (id, Accepting) ∈ tasks f ∨ (id, InTry) ∈ tasks f → id ∉ failedJobs (bridge f))
  ∧ (∀ id, (id, InCatch) ∈ tasks f → id ∈ failedJobs (bridge f)).

Lemma nodup_middle id ph (l1 l2 : list (string * phase)) :
  NoDup (l1 ++ (id, ph) :: l2).*1 →
  NoDup (l1 ++ l2).*1 ∧ (∀ ph', (id, ph') ∉ l1 ++ l2).
Proof.
  rewrite !fmap_app, fmap_cons. cbn [fst]. intros Hnd.
  apply NoDup_app in Hnd as (H1 & H12 & H2). apply NoDup_cons in H2 as [Hid H2].
  split.
  - apply NoDup_app. split; [exact H1|]. split; [|exact H2].
    intros x Hx Hx2. apply (H12 x Hx). now right.
  - intros ph' Hin. apply elem_of_app in Hin as [Hin|Hin].
    + apply (H12 id); [|now left]. apply list_elem_of_fmap. now exists (id, ph').
    + apply Hid. apply list_elem_of_fmap. now exists (id, ph').
Qed.

Lemma elem_of_middle (x y : string * phase) l1 l2 :
  x ∈ l1 ++ y :: l2 ↔ x = y ∨ x ∈ l1 ++ l2.
Proof. rewrite !elem_of_app, elem_of_cons. tauto. Qed.

Lemma nodup_replace id ph ph' (l1 l2 : list (string * phase)) :
  NoDup (l1 ++ (id, ph) :: l2).*1 → NoDup (l1 ++ (id, ph') :: l2).*1.
Proof. now rewrite !fmap_app, !fmap_cons. Qed.

Lemma coherent_act a f f' :
  coherent f → reoffered a f = false → act a f = Some f' → coherent f'.
Proof.
  destruct f as [b ts]. intros (Hnd & Hact & Hclean & Hwin) Hfresh Hstep.
  destruct a as [j|id|j|id|id|b']; cbn [act bridge tasks] in Hstep.
  - (* Admits *)
    destruct (_ || _) eqn:Hguard; [discriminate|]. injection Hstep as <-.
    apply orb_false_iff in Hguard as [_ Hnf]. apply bool_decide_eq_false in Hnf.
    cbn [reoffered tasks] in Hfresh. apply bool_decide_eq_false in Hfresh.
    unfold coherent. cbn [bridge tasks].
    split; [|split; [|split]].
    + rewrite fmap_app. apply NoDup_app. split; [exact Hnd|]. split.
      * intros x Hx Hx'. apply list_elem_of_singleton in Hx'. now subst.
      * apply NoDup_singleton.
    + intros id. rewrite Hact, !elem_of_app, !list_elem_of_singleton.
      split; [tauto|]. intros [[?|[=]]|[?|[=]]]; tauto.
    + intros id. rewrite !elem_of_app, !list_elem_of_singleton.
      intros [[?|[= ->]]|[?|[=]]]; auto.
    + intros id. rewrite !elem_of_app, !list_elem_of_singleton.
      intros [?|[=]]. auto.
  - (* AcceptFails *)
    destruct (move id [Accepting] None ts) as [ts'|] eqn:Hm; [|discriminate].
    injection Hstep as <-.
    apply move_spec in Hm as (l1 & ph & l2 & -> & Hph & ->).
    destruct (nodup_middle _ _ _ _ Hnd) as [Hnd' Hgone].
    unfold coherent. cbn [bridge tasks] in *.
    setoid_rewrite elem_of_middle in Hact. setoid_rewrite elem_of_middle in Hclean.
    setoid_rewrite elem_of_middle in Hwin.
    apply list_elem_of_singleton in Hph as ->.
    split; [exact Hnd'|]. split; [|split].
    + intros i. rewrite Hact. split; [|tauto]. intros [[[=]|?]|[[=]|?]]; tauto.
    + intros i Hi. apply Hclean. tauto.
    + intros i Hi. apply Hwin. tauto.
  - (* Starts *)
    destruct j as [id ty p]. cbn [uuid type spawn modify snd] in Hstep.
    destruct (move id [Accepting] (Some InTry) ts) as [ts'|] eqn:Hm; [|discriminate].
    injection Hstep as <-.
    apply move_spec in Hm as (l1 & ph & l2 & -> & Hph & ->).
    destruct (nodup_middle _ _ _ _ Hnd) as [Hnd' Hgone].
    apply list_elem_of_singleton in Hph as ->.
    unfold coherent. cbn [bridge tasks activeJobs failedJobs set_activeJobs] in *.
    setoid_rewrite elem_of_middle in Hact. setoid_rewrite elem_of_middle in Hclean.
    setoid_rewrite elem_of_middle in Hwin. setoid_rewrite elem_of_middle.
    split; [eapply nodup_replace, Hnd|]. split; [|split].
    + intros i. rewrite dom_insert_L, elem_of_union, elem_of_singleton, Hact.
      split.
      * intros [->|[[[=]|?]|[[=]|?]]]; auto.
      * intros [[[= ->]|?]|[[=]|?]]; auto.
    + intros i [[[=]|Hi]|[[= ->]|Hi]]; apply Hclean; auto.
    + intros i [[=]|Hi]. apply Hwin. auto.
  - (* Fails *)
    destruct (move id [InTry] (Some InCatch) ts) as [ts'|] eqn:Hm; [|discriminate].
    injection Hstep as <-.
    apply move_spec in Hm as (l1 & ph & l2 & -> & Hph & ->).
    destruct (nodup_middle _ _ _ _ Hnd) as [Hnd' Hgone].
    apply list_elem_of_singleton in Hph as ->.
    unfold coherent. cbn [bridge tasks activeJobs failedJobs set_failedJobs] in *.
    setoid_rewrite elem_of_middle in Hact. setoid_rewrite elem_of_middle in Hclean.
    setoid_rewrite elem_of_middle in Hwin. setoid_rewrite elem_of_middle.
    split; [eapply nodup_replace, Hnd|]. split; [|split].
    + intros i. rewrite Hact. split.
      * intros [[[= ->]|?]|[[=]|?]]; auto.
      * intros [[[=]|?]|[[= ->]|?]]; auto.
    + intros i Hi. rewrite elem_of_union, elem_of_singleton. intros [->|Hf].
      * destruct Hi as [[[=]|Hi]|[[=]|Hi]]; exact (Hgone _ Hi).
      * revert Hf. apply Hclean. destruct Hi as [[[=]|Hi]|[[=]|Hi]]; auto.
    + intros i [[= ->]|Hi]; rewrite elem_of_union, elem_of_singleton; auto.
  - (* Ends *)
    destruct (move id [InTry; InCatch] None ts) as [ts'|] eqn:Hm; [|discriminate].
    injection Hstep as <-.
    apply move_spec in Hm as (l1 & ph & l2 & -> & Hph & ->).
    destruct (nodup_middle _ _ _ _ Hnd) as [Hnd' Hgone].
    unfold coherent. cbn [bridge tasks activeJobs failedJobs set_activeJobs] in *.
    setoid_rewrite elem_of_middle in Hact. setoid_rewrite elem_of_middle in Hclean.
    setoid_rewrite elem_of_middle in Hwin.
    split; [exact Hnd'|]. split; [|split].
    + intros i. rewrite dom_delete_L, elem_of_difference, elem_of_singleton, Hact.
      split.
      * intros [[[[= -> _]|?]|[[= -> _]|?]] Hne]; auto; now destruct Hne.
      * intros Hi. split; [tauto|]. intros ->. destruct Hi as [Hi|Hi]; exact (Hgone _ Hi).
    + intros i Hi. apply Hclean. tauto.
    + intros i Hi. apply Hwin. tauto.
  - (* Other *)
    destruct (bool_decide_reflect (activeJobs b' = activeJobs b ∧ failedJobs b' = failedJobs b))
      as [[Ha Hf]|]; [|discriminate].
    injection Hstep as <-. unfold coherent. cbn [bridge tasks]. rewrite Ha, Hf. auto.
Qed.

Lemma coherent_acts l f f' :
  coherent f → orderly l f = true → acts l f = Some f' → coherent f'.
Proof.
  revert f. induction l as [|a r IH]; intros f Hc Ho Hl.
  - injection Hl as <-. exact Hc.
  - cbn [acts] in Hl. cbn [orderly] in Ho.
    apply andb_true_iff in Ho as [Hfresh Ho]. apply negb_true_iff in Hfresh.
    destruct (act a f) as [f1|] eqn:Hstep; [|discriminate]. cbn in Hl.
    eapply IH; [|exact Ho|exact Hl]. eapply coherent_act; eassumption.
Qed.

Lemma coherent_trace l f :
  coherent f → orderly l f = true → Forall coherent (trace l f).
Proof.
  revert f. induction l as [|a r IH]; intros f Hc Ho; cbn [trace].
  - constructor; [exact Hc|constructor].
  - constructor; [exact Hc|]. cbn [orderly] in Ho.
    apply andb_true_iff in Ho as [Hfresh Ho]. apply negb_true_iff in Hfresh.
    destruct (act a f) as [f1|] eqn:Hstep; [|constructor].
    apply IH; [|exact Ho]. eapply coherent_act; eassumption.
Qed.

(** [acts] gives the last state of [trace]. *)
Lemma acts_trace l f f' : acts l f = Some f' → last (trace l f) = Some f'.
Proof.
  revert f. induction l as [|a r IH]; intros f Hl; cbn [trace acts] in *.
  - now injection Hl as <-.
  - destruct (act a f) as [f1|]; [|discriminate]. cbn in Hl.
    specialize (IH f1 Hl). destruct (trace r f1) as [|x xs] eqn:Ht; [discriminate|].
    exact IH.
Qed.

Lemma coherent_window f id :
  coherent f →
  (id ∈ dom (activeJobs (bridge f)) ∧ id ∈ failedJobs (bridge f)) ↔ in_window f id.
Proof.
  intros (Hnd & Hact & Hclean & Hwin). unfold in_window. split.
  - intros [Ha Hf]. apply Hact in Ha as [Ha|Ha]; [|exact Ha].
    exfalso. revert Hf. apply Hclean. auto.
  - intros Hw. split; [apply Hact; auto|apply Hwin, Hw].
Qed.

Lemma coherent_init b : activeJobs b = ∅ → coherent (Fleet b []).
Proof.
  intros He. unfold coherent. cbn [bridge tasks]. rewrite He.
  split; [constructor|]. split; [|split].
  - intros id. rewrite dom_empty_L. split; [intros []%elem_of_empty|].
    intros [[]%elem_of_nil|[]%elem_of_nil].
  - intros id [[]%elem_of_nil|[]%elem_of_nil].
  - intros id []%elem_of_nil.
Qed.

End FleetFacts.

Section Refinement.
Import JobTranslator Bridge.
Implicit Types (b : Bridge.t) (f : fleet) (id : string) (ts : list (string * phase))
  (e : job_env).

Lemma move_head id ph from to ts :
  ph ∈ from →
  move id from to ((id, ph) :: ts)
  = Some (match to with Some ph' => (id, ph') :: ts | None => ts end).
Proof. intros Hin. cbn [move]. now rewrite bool_decide_true. Qed.

Lemma act_other b' b ts :
  activeJobs b' = activeJobs b → failedJobs b' = failedJobs b →
  act (Other b') (Fleet b ts) = Some (Fleet b' ts).
Proof. intros Ha Hf. cbn [act bridge tasks]. now rewrite bool_decide_true. Qed.

Lemma act_starts id ty p b ts :
  act (Starts (Job id ty p)) (Fleet b ((id, Accepting) :: ts))
  = Some (Fleet (set_activeJobs (insert id (ActiveJob ty (now (sys b)))) b)
            ((id, InTry) :: ts)).
Proof.
  cbn [act bridge tasks uuid]. now rewrite move_head by left.
Qed.

Lemma act_fails id b ts :
  act (Fails id) (Fleet b ((id, InTry) :: ts))
  = Some (Fleet (set_failedJobs (union {[id]}) b) ((id, InCatch) :: ts)).
Proof.
  cbn [act bridge tasks]. now rewrite move_head by left.
Qed.

Lemma act_ends id ph b ts :
  ph ≠ Accepting →
  act (Ends id) (Fleet b ((id, ph) :: ts)) = Some (Fleet (set_activeJobs (delete id) b) ts).
Proof.
  intros Hph. cbn [act bridge tasks]. rewrite move_head; [reflexivity|].
  destruct ph; [now destruct Hph|left|right; left].
Qed.

(** The handler writes neither table, whatever the replies. *)
Lemma timeoutHandler_facts r rm id b :
  (timeoutHandler r rm id b).1 = Returned ()
  ∧ activeJobs (timeoutHandler r rm id b).2 = activeJobs b
  ∧ failedJobs (timeoutHandler r rm id b).2 = failedJobs b
  ∧ watchdog (timeoutHandler r rm id b).2 = watchdog b.
Proof.
  assert (Hp : ∀ {T} (g : Bridge.t → T),
             (∀ c b, g (set_runnerClient c b) = g b) → (∀ m b, g (set_poolManager m b) = g b) →
             (∀ s b, g (set_sys s b) = g b) → (∀ l b, g (write l b) = g b) →
             preserves g (timeoutHandler r rm id)).
  { intros T g Hc Hm Hs Hl. unfold timeoutHandler.
    apply preserves_bind; [apply preserves_modify; intros ?; apply Hl|intros _].
    apply preserves_swallow, preserves_bind; [apply preserves_on_client, Hc|intros _].
    apply preserves_on_pool; [exact Hm|exact Hs|apply preserves_cancelJob]. }
  split.
  - unfold timeoutHandler.
    rewrite (bind_returned _ _ b () (write (LogError "Job timed out" id) b)) by reflexivity.
    unfold swallow. now destruct (bind _ _ _).
  - repeat split; apply Hp; reflexivity.
Qed.

(** Neither does the shutdown. *)
Lemma shutdown_tables (se : shutdown_env) b :
  activeJobs (stop se b).2 = activeJobs b ∧ failedJobs (stop se b).2 = failedJobs b.
Proof.
  assert (Hp : ∀ {T} (g : Bridge.t → T),
             (∀ c b, g (set_runnerClient c b) = g b) → (∀ m b, g (set_poolManager m b) = g b) →
             (∀ s b, g (set_sys s b) = g b) → (∀ l b, g (write l b) = g b) →
             (∀ k b, g (set_watchdog k b) = g b) → (∀ k b, g (set_healthMonitor k b) = g b) →
             (∀ b, g (MkBridge (maxConcurrentJobs b) false (activeJobs b) (failedJobs b)
                        (runnerClient b) (poolManager b) (watchdog b) (healthMonitor b)
                        (sys b) (log b)) = g b) →
             preserves g (stop se)).
  { intros T g Hc Hm Hs Hl Hw Hh Hr. unfold stop, gracefulShutdown.
    assert (Hrep : ∀ ids, preserves g (report_all se ids)).
    { induction ids as [|i r IH]; cbn [report_all]; [apply preserves_ret|].
      apply preserves_bind; [|intros _; exact IH].
      apply preserves_swallow, preserves_bind; [apply preserves_gets|intros has].
      destruct has; cbn [negb]; [apply preserves_on_client, Hc|apply preserves_ret]. }
    repeat match goal with
      | |- preserves _ (bind _ _) => apply preserves_bind; [|intros ?]
      | |- preserves _ (try_catch _ _) => apply preserves_try_catch; [|intros ?]
      | |- preserves _ (report_all _ _) => apply Hrep
      | |- preserves _ (ret _) => apply preserves_ret
      | |- preserves _ (gets _) => apply preserves_gets
      | |- preserves _ (on_client _) => apply preserves_on_client, Hc
      | |- preserves _ (on_pool _) =>
          apply preserves_on_pool; [exact Hm|exact Hs|apply preserves_destroy]
      | |- preserves _ (modify _) =>
          apply preserves_modify; intros ?; first [apply Hl | apply Hw | apply Hh | apply Hr]
      end. }
  split; apply Hp; reflexivity.
Qed.

Lemma processJob_acts e id ty p b ts :
  acts (actions_of_run e id ty p b) (Fleet b ((id, Accepting) :: ts))
  = Some (Fleet (processJob e id ty p b).2 ts).
Proof.
  unfold actions_of_run. rewrite processJob_closed_form. cbv zeta. cbn [snd].
  change (spawn (Job id ty p) b).2
    with (set_activeJobs (insert id (ActiveJob ty (now (sys b)))) b).
  set (b1 := set_activeJobs (insert id (ActiveJob ty (now (sys b)))) b).
  pose proof (preserves_try activeJobs ltac:(reflexivity) ltac:(reflexivity)
                ltac:(reflexivity) ltac:(reflexivity) ltac:(reflexivity) e id ty p
                (Frame b1 None None)) as Ha.
  pose proof (preserves_try failedJobs ltac:(reflexivity) ltac:(reflexivity)
                ltac:(reflexivity) ltac:(reflexivity) ltac:(reflexivity) e id ty p
                (Frame b1 None None)) as Hf.
  unfold compose in Ha, Hf. cbn [self] in Ha, Hf.
  destruct (processJob_try e id ty p (Frame b1 None None)) as [[[]|err] fr2];
    cbn [fst snd] in *.
  - cbn [acts]. rewrite act_starts. fold b1. cbn [mbind option_bind].
    rewrite act_other by assumption. cbn [mbind option_bind].
    rewrite act_ends by discriminate. cbn [mbind option_bind].
    rewrite act_other; [reflexivity|..].
    + rewrite finally_drops. reflexivity.
    + apply (preserves_finally failedJobs e id ltac:(reflexivity) ltac:(reflexivity) fr2).
  - cbn [acts]. rewrite act_starts. fold b1. cbn [mbind option_bind].
    rewrite act_other by assumption. cbn [mbind option_bind].
    set (b2 := write (LogError "Job failed" (message err)) (self fr2)).
    set (b3 := set_sys (elapse (took e Report) (sys b2)) b2).
    set (b4 := (on_client (RunnerClient.postError (postError_reply e) id (message err)) b3).2).
    assert (Ha4 : activeJobs b4 = activeJobs (self fr2))
      by (unfold b4; now rewrite (preserves_on_client activeJobs ltac:(reflexivity))).
    assert (Hf4 : failedJobs b4 = failedJobs (self fr2))
      by (unfold b4; now rewrite (preserves_on_client failedJobs ltac:(reflexivity))).
    rewrite act_other by assumption. cbn [mbind option_bind].
    rewrite act_fails. cbn [mbind option_bind].
    set (bc := (processJob_catch e id err (self fr2)).2).
    assert (Hca : activeJobs bc = activeJobs b4).
    { unfold bc. rewrite Ha4.
      apply (preserves_catch activeJobs e id err); reflexivity. }
    assert (Hcf : failedJobs bc = {[id]} ∪ failedJobs b4).
    { unfold bc. rewrite catch_marks_failed, Hf4. reflexivity. }
    rewrite act_other by assumption. cbn [mbind option_bind].
    rewrite act_ends by discriminate. cbn [mbind option_bind].
    rewrite act_other; [reflexivity|..].
    + rewrite finally_drops. reflexivity.
    + apply (preserves_finally failedJobs e id ltac:(reflexivity) ltac:(reflexivity)
               (Frame bc (tempDir fr2) (poolTempDir fr2))).
Qed.

Lemma acts_app l1 l2 f : acts (l1 ++ l2) f = acts l1 f ≫= acts l2.
Proof.
  revert f. induction l1 as [|a r IH]; intros f; [reflexivity|].
  cbn [app acts]. destruct (act a f) as [f1|]; [apply IH|reflexivity].
Qed.

Lemma move_last id to ts :
  (∀ i, (i, Accepting) ∉ ts) →
  move id [Accepting] to (ts ++ [(id, Accepting)])
  = Some (ts ++ match to with Some ph' => [(id, ph')] | None => [] end).
Proof.
  induction ts as [|[i ph] r IH]; intros Hts.
  - cbn [app move]. now rewrite bool_decide_true by (split; [reflexivity|left]).
  - cbn [app move]. rewrite bool_decide_false.
    + rewrite IH; [reflexivity|]. intros i' Hi'. apply (Hts i'). now right.
    + intros [-> Hph]. apply list_elem_of_singleton in Hph as ->. apply (Hts id). now left.
Qed.

Lemma act_accept_fails_last id b ts :
  (∀ i, (i, Accepting) ∉ ts) →
  act (AcceptFails id) (Fleet b (ts ++ [(id, Accepting)])) = Some (Fleet b ts).
Proof.
  intros Hts. cbn [act bridge tasks]. rewrite move_last by exact Hts.
  now rewrite app_nil_r.
Qed.

Lemma act_starts_last j b ts :
  (∀ i, (i, Accepting) ∉ ts) →
  act (Starts j) (Fleet b (ts ++ [(uuid j, Accepting)]))
  = Some (Fleet (spawn j b).2 (ts ++ [(uuid j, InTry)])).
Proof. intros Hts. cbn [act bridge tasks]. now rewrite move_last by exact Hts. Qed.

Lemma admission_acts (pe : poll_env) jobs :
  (∀ k, meanwhile pe k = []) →
  ∀ k b ts,
    (∀ i, (i, Accepting) ∉ ts) →
    ∃ started,
      acts (actions_of_admission pe jobs b) (Fleet b ts)
      = Some (Fleet (admission pe k jobs b).2 (ts ++ ((λ j, (uuid j, InTry)) <$> started)))
      ∧ started `sublist_of` jobs.
Proof.
  intros Hquiet. induction jobs as [|j rest IH]; intros k b ts Hts.
  { exists []. cbn. now rewrite app_nil_r. }
  cbn [admission actions_of_admission].
  rewrite (bind_returned _ _ b (at_capacity b) b) by reflexivity.
  destruct (at_capacity b) eqn:Hcap.
  { exists []. cbn. rewrite app_nil_r. split; [reflexivity|apply sublist_nil_l]. }
  assert (Hskip : ∀ d,
    ∃ started,
      acts (Other (decided j d b).2 :: actions_of_admission pe rest (decided j d b).2)
        (Fleet b ts)
      = Some (Fleet (bind (decided j d) (λ _, admission pe k rest) b).2
                (ts ++ ((λ j, (uuid j, InTry)) <$> started)))
      ∧ started `sublist_of` j :: rest).
  { intros d. set (b1 := (decided j d b).2).
    rewrite (bind_returned _ _ b () b1) by reflexivity.
    destruct (IH k b1 ts Hts) as (started & Hacts & Hsub). exists started.
    split; [|now apply sublist_cons].
    cbn [acts]. rewrite act_other by reflexivity. exact Hacts. }
  destruct (isSupported (type j)) eqn:Hsup; cbn [negb]; [|apply Hskip].
  rewrite (bind_returned _ _ b (bool_decide (uuid j ∈ failedJobs b)) b) by reflexivity.
  destruct (bool_decide (uuid j ∈ failedJobs b)) eqn:Hfailed; [apply Hskip|].
  rewrite Hquiet. rewrite (bind_returned _ _ b () b) by reflexivity.
  assert (Hadmits : act (Admits j) (Fleet b ts) = Some (Fleet b (ts ++ [(uuid j, Accepting)]))).
  { cbn [act bridge tasks]. now rewrite Hcap, Hsup, Hfailed. }
  pose proof (preserves_on_client activeJobs ltac:(reflexivity)
                (RunnerClient.acceptJob (acceptJob_reply pe (uuid j)) (uuid j)) b) as Ha.
  pose proof (preserves_on_client failedJobs ltac:(reflexivity)
                (RunnerClient.acceptJob (acceptJob_reply pe (uuid j)) (uuid j)) b) as Hf.
  destruct (on_client (RunnerClient.acceptJob (acceptJob_reply pe (uuid j)) (uuid j)) b)
    as [[tok|err] b2] eqn:Hacc; cbn [fst snd] in *.
  2: { rewrite (bind_threw _ _ _ _ _ Hacc). exists []. cbn [fmap list_fmap snd].
       rewrite app_nil_r. split; [|apply sublist_nil_l].
       cbn [acts]. rewrite Hadmits. cbn [mbind option_bind].
       rewrite act_accept_fails_last by exact Hts. cbn [mbind option_bind].
       now rewrite act_other. }
  rewrite (bind_returned _ _ _ _ _ Hacc).
  set (b3 := (spawn j b2).2).
  rewrite (bind_returned _ _ b2 () b3) by reflexivity.
  set (b4 := (decided j Accepted b3).2).
  rewrite (bind_returned _ _ b3 () b4) by reflexivity.
  destruct (IH (S k) b4 (ts ++ [(uuid j, InTry)])) as (started & Hacts & Hsub).
  { intros i Hi. apply elem_of_app in Hi as [Hi|Hi]; [exact (Hts i Hi)|].
    apply list_elem_of_singleton in Hi. discriminate. }
  exists (j :: started). split; [|now apply sublist_skip].
  cbn [acts]. rewrite Hadmits. cbn [mbind option_bind].
  rewrite act_other by assumption. cbn [mbind option_bind].
  rewrite act_starts_last by exact Hts. cbn [mbind option_bind]. fold b3.
  rewrite act_other by reflexivity. cbn [mbind option_bind].
  rewrite Hacts. cbn [fmap list_fmap]. now rewrite <- app_assoc.
Qed.

(** A call of [poll] during whose awaits no other task acts is a path of
    actions: the jobs it starts are the tasks it adds. *)
Lemma poll_acts (pe : poll_env) b ts :
  (∀ k, meanwhile pe k = []) →
  (∀ i, (i, Accepting) ∉ ts) →
  ∃ started,
    acts (actions_of_poll pe b) (Fleet b ts)
    = Some (Fleet (poll pe b).2 (ts ++ ((λ j, (uuid j, InTry)) <$> started))).
Proof.
  intros Hquiet Hts. unfold actions_of_poll.
  destruct (negb (isRunning b) || negb (HealthMonitor.isHealthy (healthMonitor b))
            || at_capacity b) eqn:Hguard.
  { exists []. cbn [fmap list_fmap acts]. rewrite app_nil_r, poll_noop; [reflexivity|].
    apply orb_true_iff in Hguard as [Hguard|Hguard]; [|auto].
    apply orb_true_iff in Hguard as [Hguard|Hguard]; apply negb_true_iff in Hguard; auto. }
  apply orb_false_iff in Hguard as [Hguard Hcap].
  apply orb_false_iff in Hguard as [Hrun Hhealthy].
  apply negb_false_iff in Hrun, Hhealthy.
  assert (Hpoll : poll pe b
    = try_catch
        (bind (others (meanwhile pe 0))
           (λ _, bind (on_client (RunnerClient.requestJob (requestJob_reply pe)))
                   (λ availableJobs, admission pe 1 availableJobs)))
        (λ err, modify (write (LogError "Poll error" (message err)))) b).
  { unfold poll.
    rewrite (bind_returned _ _ b (isRunning b) b) by reflexivity. rewrite Hrun. cbn [negb].
    rewrite (bind_returned _ _ b (HealthMonitor.isHealthy (healthMonitor b)) b) by reflexivity.
    rewrite Hhealthy. cbn [negb].
    rewrite (bind_returned _ _ b (at_capacity b) b) by reflexivity. now rewrite Hcap. }
  pose proof (preserves_on_client activeJobs ltac:(reflexivity)
                (RunnerClient.requestJob (requestJob_reply pe)) b) as Ha.
  pose proof (preserves_on_client failedJobs ltac:(reflexivity)
                (RunnerClient.requestJob (requestJob_reply pe)) b) as Hf.
  rewrite Hpoll. unfold try_catch. rewrite Hquiet.
  rewrite (bind_returned _ _ b () b) by reflexivity.
  destruct (on_client (RunnerClient.requestJob (requestJob_reply pe)) b)
    as [[jobs|err] b1] eqn:Hreq; cbn [fst snd] in *.
  - rewrite (bind_returned _ _ _ _ _ Hreq).
    destruct (admission_acts pe jobs Hquiet 1%nat b1 ts Hts) as (started & Hacts & _).
    exists started. cbn [acts]. rewrite act_other by assumption. cbn [mbind option_bind].
    rewrite acts_app, Hacts. cbn [mbind option_bind acts].
    destruct (admission pe 1 jobs b1) as [[[]|err] b2]; cbn [fst snd];
      now rewrite act_other.
  - rewrite (bind_threw _ _ _ _ _ Hreq). exists []. cbn [fmap list_fmap snd acts modify].
    rewrite app_nil_r. now rewrite act_other.
Qed.

End Refinement.

Section Window.
Import Bridge.
Implicit Types (b : Bridge.t) (e : job_env) (id : string).
(** Every run whose [try] block throws reaches the window: at the entry of
    the [finally] its id is in both tables. *)
Lemma failed_run_in_both_tables e id ty p b :
  failed_run e id ty p b = true →
  let b2 := self (processJob_guarded e id ty p (Frame b None None)).2 in
  id ∈ dom (activeJobs b2) ∧ id ∈ failedJobs b2.
Proof.
  intros Hfailed. cbv zeta. unfold processJob_guarded, failed_run in *.
  set (b1 := set_activeJobs (insert id (ActiveJob ty (now (sys b)))) b) in *.
  rewrite (bind_returned _ _ (Frame b None None) () (Frame b1 None None)) by reflexivity.
  unfold try_catch.
  pose proof (preserves_try activeJobs ltac:(reflexivity) ltac:(reflexivity)
                ltac:(reflexivity) ltac:(reflexivity) ltac:(reflexivity) e id ty p
                (Frame b1 None None)) as Ha.
  destruct (processJob_try e id ty p (Frame b1 None None)) as [[[]|err] fr2];
    cbn [fst snd returned negb] in *; [discriminate|].
  unfold compose in Ha. cbn [self] in Ha.
  pose proof (preserves_catch activeJobs e id err ltac:(reflexivity) ltac:(reflexivity)
                ltac:(reflexivity) ltac:(reflexivity) ltac:(reflexivity)
                ltac:(reflexivity) (self fr2)) as Hca.
  pose proof (catch_marks_failed e id err (self fr2)) as Hcf.
  unfold on_self, zoom.
  destruct (processJob_catch e id err (self fr2)) as [o b3]. cbn [self snd] in *.
  split.
  - rewrite Hca, Ha. unfold b1. cbn [activeJobs set_activeJobs].
    rewrite dom_insert_L. apply elem_of_union_l, elem_of_singleton. reflexivity.
  - rewrite Hcf. apply elem_of_union_l, elem_of_singleton. reflexivity.
Qed.
End Window.

Section PollClaims.
Import Bridge.

(** C2.  [poll] does nothing when the bridge is not running, when the
    health monitor reports unhealthy, or when the active table is already at
    [maxConcurrentJobs].  It never throws.  After every decision of its
    admission loop the active table holds at most [maxConcurrentJobs] jobs;
    no decision is taken once the table has reached that size; and the jobs
    it admits are, in order, a subsequence of the jobs the queue returned.
    Other tasks may finish during the awaits of the call. *)
Theorem C2_poll_admission_respects_capacity (e : poll_env) (b : Bridge.t) :
  let ds := decisions_since b (poll e b).2 in
  (isRunning b = false ∨ HealthMonitor.isHealthy (healthMonitor b) = false
   ∨ at_capacity b = true →
   poll e b = (Returned (), b))
  ∧ (poll e b).1 = Returned ()
  ∧ Forall (λ d, Z.of_nat d.2 ≤ maxConcurrentJobs b) ds
  ∧ stops_at_capacity (maxConcurrentJobs b) ds
  ∧ accepted ds `sublist_of` (uuid <$> offered e).
Proof.
  cbv zeta. split; [apply poll_noop|].
  destruct (poll_spec e b) as (ds & extra & Hret & Hlog & Hextra & Hall & Hstop & Hsub).
  rewrite (decisions_since_app b _ ds extra Hlog Hextra). auto.
Qed.

(** Two free slots, four offers, the second of an unsupported type. *)
Lemma C2_poll_admission_respects_capacity_witness :
  decisions_since Scenario.bridge (poll Scenario.pollEnv Scenario.bridge).2
  = [("job-1", Accepted, 1%nat); ("job-live", SkipUnsupported, 1%nat);
     ("job-2", Accepted, 2%nat)]
  ∧ Forall (λ d, Z.of_nat d.2 ≤ 2)
      (decisions_since Scenario.bridge (poll Scenario.pollEnv Scenario.bridge).2)
  ∧ poll Scenario.pollEnv (Bridge.new Scenario.config)
    = (Returned (), Bridge.new Scenario.config).
Proof.
  destruct (C2_poll_admission_respects_capacity Scenario.pollEnv Scenario.bridge)
    as (_ & _ & Hall & _ & _).
  destruct (C2_poll_admission_respects_capacity Scenario.pollEnv (Bridge.new Scenario.config))
    as (Hnoop & _).
  split; [vm_compute; reflexivity|]. split; [exact Hall|].
  apply Hnoop. left. reflexivity.
Defined.
End PollClaims.

Section JobClaims.
Import Bridge.

(** C3.  On a failure of [processJob] the report is attempted, the id is
    added to the failed set, the pool job is cancelled, the watchdog entry
    is cleared, and the [finally] removes the temp workspaces it knows.  It
    does not know the workspace of the pipeline stage when that stage
    failed: [poolTempDir] is assigned from the result of
    [poolManager.processJob] only, and [cancelJob] finds no entry because
    the pipeline's own [finally] already dropped it.  Scenario B: the
    pipeline of "job-a" never finalizes; afterwards the download directory
    is gone and the pipeline's directory "/tmp/ptsn-pool1" is still on
    disk. *)
Theorem C3_pipeline_workspace_survives_pipeline_failure :
  let run := processJob Scenario.jobEnvB "job-a" "vod-web-video-transcoding"
               Scenario.payloadA Scenario.acceptedA in
  failed_run Scenario.jobEnvB "job-a" "vod-web-video-transcoding"
    Scenario.payloadA Scenario.acceptedA = true
  ∧ run.1 = Returned ()
  ∧ last (RunnerClient.requests (runnerClient run.2))
    = Some (RunnerClient.Request "http://localhost:9000/api/v1/runners/jobs/job-a/error"
              (RunnerClient.ErrorBody (Some "runner-token") "token-a"
                 "Job timed out after 600000ms"))
  ∧ elements (failedJobs run.2) = ["job-a"]
  ∧ elements (dom (activeJobs run.2)) = []
  ∧ JobWatchdog.jobs (watchdog run.2) !! "job-a" = None
  ∧ JobWatchdog.pending (watchdog run.2) = []
  ∧ PoolManager.activeJobs (poolManager run.2) = []
  ∧ elements (tmpdirs (sys run.2)) = ["/tmp/ptsn-pool1"].
Proof. vm_compute. repeat split; reflexivity. Qed.

(** C4, as stated, fails: in scenario B the tables are disjoint at the
    start, and at the last await of the [catch] block "job-a" is both in the
    active table and in the failed set. *)
Lemma C4_job_in_both_tables_during_failure :
  tables_disjoint Scenario.acceptedA
  ∧ ¬ Forall tables_disjoint
        (moments Scenario.jobEnvB "job-a" "vod-web-video-transcoding"
           Scenario.payloadA Scenario.acceptedA).
Proof.
  split.
  - intros j [Hin _]. apply elem_of_dom in Hin as [x Hx].
    assert (Hempty : activeJobs Scenario.acceptedA = ∅) by (vm_compute; reflexivity).
    rewrite Hempty, lookup_empty in Hx. discriminate.
  - intros Hall. unfold moments in Hall.
    apply Forall_cons in Hall as [_ Hall]. apply Forall_cons in Hall as [Hmid _].
    apply (Hmid "job-a"). split.
    + apply elem_of_dom. eexists. vm_compute. reflexivity.
    + apply elem_of_elements.
      match goal with |- _ ∈ elements (failedJobs ?m) =>
        assert (Hfailed : elements (failedJobs m) = ["job-a"]) by (vm_compute; reflexivity)
      end.
      rewrite Hfailed. apply list_elem_of_singleton. reflexivity.
Qed.

(** C4, amended.  The runs of [processJob] are started without being
    awaited and take turns with [poll], with the timers and with each
    other.  Along every interleaving of their steps from a bridge with no
    active job, as long as no job is admitted past the check of line 103
    while it is being accepted or processed, at every point a job id is in
    both the active table and the failed set exactly while a run for it
    stands between [failedJobs.add] (line 177) and [activeJobs.delete]
    (line 181); at every other point no id is in both. *)
Theorem C4_in_both_tables_exactly_in_failure_window (b0 : Bridge.t) (l : list action) :
  activeJobs b0 = ∅ →
  orderly l (Fleet b0 []) = true →
  Forall (λ f,
            (∀ id, (id ∈ dom (activeJobs (bridge f)) ∧ id ∈ failedJobs (bridge f))
                   ↔ in_window f id)
            ∧ (tables_disjoint (bridge f) ↔ ∀ id, ¬ in_window f id))
         (trace l (Fleet b0 [])).
Proof.
  intros Hempty Horder.
  eapply Forall_impl; [apply coherent_trace; [apply coherent_init, Hempty|exact Horder]|].
  intros f Hc. split; [intros id; now apply coherent_window|].
  unfold tables_disjoint. split.
  - intros Hd id Hw. apply (Hd id). now apply coherent_window.
  - intros Hn id Hboth. apply (Hn id). now apply coherent_window.
Qed.

(** "job-a" and "job-b" are in flight together; "job-a" fails and waits
    for [cancelJob] while "job-b" completes. *)
Lemma C4_in_both_tables_exactly_in_failure_window_witness :
  let states := trace Scenario.interleaved (Fleet Scenario.bridge []) in
  tasks <$> states
  = [ [];
      [("job-a", Accepting)];
      [("job-a", Accepting)];
      [("job-a", InTry)];
      [("job-a", InTry); ("job-b", Accepting)];
      [("job-a", InTry); ("job-b", InTry)];
      [("job-a", InCatch); ("job-b", InTry)];
      [("job-a", InCatch)];
      [] ]
  ∧ Forall (λ f, ∀ id, (id ∈ dom (activeJobs (bridge f)) ∧ id ∈ failedJobs (bridge f))
                       ↔ in_window f id) states.
Proof.
  intros states. split; [vm_compute; reflexivity|].
  eapply Forall_impl.
  - apply (C4_in_both_tables_exactly_in_failure_window Scenario.bridge Scenario.interleaved).
    + vm_compute. reflexivity.
    + vm_compute. reflexivity.
  - intros f [Hwin _]. exact Hwin.
Defined.

(** Why the re-offer is excluded: when the queue offers a job a second
    time while its first run is in flight, and that run fails and ends
    before the second [acceptJob] returns, the second run starts with its
    id in the failed set; the id is then in both tables with no run in the
    window. *)
Lemma reoffered_job_in_both_tables_outside_window :
  let f := default (Fleet Scenario.bridge [])
             (acts Scenario.reoffer (Fleet Scenario.bridge [])) in
  acts Scenario.reoffer (Fleet Scenario.bridge []) = Some f
  ∧ orderly Scenario.reoffer (Fleet Scenario.bridge []) = false
  ∧ tasks f = [("job-a", InTry)]
  ∧ "job-a" ∈ dom (activeJobs (bridge f))
  ∧ "job-a" ∈ failedJobs (bridge f)
  ∧ ¬ in_window f "job-a".
Proof.
  intros f.
  assert (Ht : tasks f = [("job-a", InTry)]) by (vm_compute; reflexivity).
  split; [vm_compute; reflexivity|]. split; [vm_compute; reflexivity|].
  split; [exact Ht|]. split; [|split].
  - apply elem_of_dom. eexists. vm_compute. reflexivity.
  - apply elem_of_elements.
    assert (He : elements (failedJobs (bridge f)) = ["job-a"]) by (vm_compute; reflexivity).
    rewrite He. now left.
  - unfold in_window. rewrite Ht. intros Hin. apply list_elem_of_singleton in Hin. discriminate.
Qed.
End JobClaims.

Section ShutdownClaims.
Import Bridge.

(** C9.  The steps of the shutdown run in the order monitor, reports, pool
    manager, watchdog, unregistration, and a failed report or a failed
    unregistration is absorbed.  A failure of [poolManager.destroy()] is
    not: it is awaited outside any [try]/[catch], so it ends
    [gracefulShutdown] at once.  With one job in the pool and a store that
    fails to close, the watchdog timer is still armed, nothing is sent to
    unregister and the runner token is kept; with a failing report and a
    failing unregistration instead, every step runs. *)
Theorem C9_destroy_failure_aborts_shutdown :
  let run := gracefulShutdown Scenario.shutdownEnv Scenario.busy in
  let lossy := gracefulShutdown Scenario.lossyShutdownEnv Scenario.busy in
  run.1 = Threw (Rejected "store close failed")
  ∧ drop 2 (log run.2)
    = [LogInfo "Graceful shutdown initiated"; LogInfo "Health monitor stopped"]
  ∧ length (JobWatchdog.pending (watchdog run.2)) = 1%nat
  ∧ JobWatchdog.jobs (watchdog Scenario.busy) !! "job-a"
    = JobWatchdog.jobs (watchdog run.2) !! "job-a"
  ∧ RunnerClient.req_url <$> RunnerClient.requests (runnerClient run.2)
    = ["http://localhost:9000/api/v1/runners/jobs/job-a/accept";
       "http://localhost:9000/api/v1/runners/jobs/job-a/error"]
  ∧ RunnerClient.runnerToken (runnerClient run.2) = Some "runner-token"
  ∧ lossy.1 = Returned ()
  ∧ drop 2 (log lossy.2)
    = [LogInfo "Graceful shutdown initiated"; LogInfo "Health monitor stopped";
       LogInfo "Pool manager destroyed"; LogInfo "Watchdog timers cleared";
       LogInfo "Shutdown complete"]
  ∧ JobWatchdog.pending (watchdog lossy.2) = [].
Proof. vm_compute. repeat split; reflexivity. Qed.
End ShutdownClaims.

(** * Further properties of the code *)

(** ** JobWatchdog: one timer per job *)

Section WatchdogMore.
Context {Cb : Type}.
Import JobWatchdog.
Implicit Types (w : JobWatchdog.t Cb) (id : string) (cb : Cb).

Lemma tidy_new timeout : tidy (@new Cb timeout).
Proof. split; [intros tm Hin; inversion Hin|constructor]. Qed.

Lemma NoDup_fmap_filter {A B} (f : A → B) (P : A → Prop) `{!∀ x, Decision (P x)} (l : list A) :
  NoDup (f <$> l) → NoDup (f <$> filter P l).
Proof.
  induction l as [|x l IH]; [auto|]. rewrite fmap_cons. intros Hnd.
  apply NoDup_cons in Hnd as [Hx Hnd]. destruct (decide (P x)).
  - rewrite filter_cons_True by assumption. rewrite fmap_cons. apply NoDup_cons. split; [|auto].
    intros Hin. apply Hx. apply list_elem_of_fmap in Hin as (y & -> & Hy).
    apply list_elem_of_fmap. exists y. split; [reflexivity|].
    apply list_elem_of_filter in Hy. tauto.
  - rewrite filter_cons_False by assumption. auto.
Qed.

Lemma filter_none {A} (P : A → Prop) `{!∀ x, Decision (P x)} (l : list A) :
  (∀ x, x ∈ l → ¬ P x) → filter P l = [].
Proof.
  induction l as [|x l IH]; [reflexivity|]. intros Hall.
  rewrite filter_cons_False by (apply Hall; constructor).
  apply IH. intros y Hy. apply Hall. now constructor.
Qed.

Lemma tidy_watch now id cb w : tidy w → jobs w !! id = None → tidy (watch now id cb w).
Proof.
  intros [Hb Hnd] Hfresh. split.
  - intros tm Hin. cbn [pending watch next_handle jobs] in *.
    apply elem_of_app in Hin as [Hin|Hin].
    + destruct (Hb tm Hin) as (Hlt & e & He & Hh). split; [lia|].
      exists e. split; [|exact Hh]. rewrite lookup_insert_ne; [exact He|].
      intros Heq. rewrite <- Heq in He. congruence.
    + apply list_elem_of_singleton in Hin as ->. cbn. split; [lia|].
      eexists. rewrite lookup_insert_eq. split; reflexivity.
  - cbn [pending watch]. rewrite fmap_app. apply NoDup_app. split; [exact Hnd|].
    split; [|apply NoDup_singleton].
    intros h Hh Hin. cbn in Hin. apply list_elem_of_singleton in Hin as ->.
    apply list_elem_of_fmap in Hh as (tm & Heq & Htm).
    destruct (Hb tm Htm) as (Hlt & _). lia.
Qed.

Lemma tidy_kick now id w : tidy w → tidy (kick now id w).
Proof.
  intros [Hb Hnd]. unfold kick. destruct (jobs w !! id) as [e|] eqn:He; [|split; assumption].
  split.
  - intros tm Hin. cbn [pending next_handle jobs] in *.
    apply elem_of_app in Hin as [Hin|Hin].
    + apply list_elem_of_filter in Hin as [Hne Hin].
      destruct (Hb tm Hin) as (Hlt & e' & He' & Hh). split; [lia|].
      destruct (decide (timer_arg tm = id)) as [Heq|Hneq].
      * exfalso. apply Hne. rewrite Heq in He'. congruence.
      * exists e'. split; [|exact Hh]. rewrite lookup_insert_ne; [exact He'|congruence].
    + apply list_elem_of_singleton in Hin as ->. cbn. split; [lia|].
      eexists. rewrite lookup_insert_eq. split; reflexivity.
  - cbn [pending]. rewrite fmap_app. apply NoDup_app.
    split; [apply NoDup_fmap_filter; exact Hnd|]. split; [|apply NoDup_singleton].
    intros h Hh Hin. cbn in Hin. apply list_elem_of_singleton in Hin as ->.
    apply list_elem_of_fmap in Hh as (tm & Heq & Htm).
    apply list_elem_of_filter in Htm as [_ Htm].
    destruct (Hb tm Htm) as (Hlt & _). lia.
Qed.

Lemma tidy_clear id w : tidy w → tidy (clear id w).
Proof.
  intros [Hb Hnd]. unfold clear. destruct (jobs w !! id) as [e|] eqn:He; [|split; assumption].
  split.
  - intros tm Hin. cbn [pending next_handle jobs] in *.
    apply list_elem_of_filter in Hin as [Hne Hin].
    destruct (Hb tm Hin) as (Hlt & e' & He' & Hh). split; [lia|].
    destruct (decide (timer_arg tm = id)) as [Heq|Hneq].
    + exfalso. apply Hne. rewrite Heq in He'. congruence.
    + exists e'. split; [|exact Hh]. rewrite lookup_delete_ne; [exact He'|congruence].
  - cbn [pending]. apply NoDup_fmap_filter. exact Hnd.
Qed.

Lemma clearAll_pending w : tidy w → pending (clearAll w) = [].
Proof.
  intros [Hb _]. cbn [clearAll pending].
  apply filter_none. intros tm Hin Hall.
  destruct (Hb tm Hin) as (_ & e & He & Hh).
  apply (Hall _ _ He). exact Hh.
Qed.

Lemma tidy_clearAll w : tidy w → tidy (clearAll w).
Proof.
  intros Ht. split.
  - intros tm Hin. rewrite (clearAll_pending w Ht) in Hin. inversion Hin.
  - rewrite (clearAll_pending w Ht). constructor.
Qed.

Lemma tidy_advance now w : tidy w → tidy (advance now w).
Proof.
  intros [Hb Hnd]. split.
  - intros tm Hin. cbn [advance pending next_handle jobs] in *.
    apply list_elem_of_filter in Hin as [_ Hin]. exact (Hb tm Hin).
  - cbn [advance pending]. apply NoDup_fmap_filter. exact Hnd.
Qed.

Lemma tidy_performs os w : tidy w → disciplined os w → tidy (performs os w).
Proof.
  revert w. induction os as [|o r IH]; intros w Ht Hd; [exact Ht|].
  destruct Hd as [Ho Hr]. unfold performs. cbn [foldl]. apply IH; [|exact Hr].
  destruct o; cbn [perform];
    auto using tidy_watch, tidy_kick, tidy_clear, tidy_clearAll, tidy_advance.
Qed.

Lemma tidy_one_timer id w : tidy w → (length (timers_for id w) ≤ 1)%nat.
Proof.
  intros [Hb Hnd]. unfold timers_for.
  assert (Hnd' : NoDup (handle <$> filter (λ tm, timer_arg tm = id) (pending w)))
    by (apply NoDup_fmap_filter; exact Hnd).
  assert (Hl : ∀ tm, tm ∈ filter (λ tm, timer_arg tm = id) (pending w) →
            ∃ e, jobs w !! id = Some e ∧ entry_timer e = handle tm).
  { intros tm Hin. apply list_elem_of_filter in Hin as [Harg Hin].
    destruct (Hb tm Hin) as (_ & e & He & Hh). rewrite Harg in He. eauto. }
  destruct (filter _ (pending w)) as [|a [|b r]]; cbn; try lia.
  exfalso.
  destruct (Hl a ltac:(constructor)) as (ea & Hea & Ha).
  destruct (Hl b ltac:(constructor; constructor)) as (eb & Heb & Hbb).
  cbn in Hnd'. apply NoDup_cons in Hnd' as [Hni _]. apply Hni.
  assert (ea = eb) as -> by congruence. rewrite <- Ha, Hbb. constructor.
Qed.

Lemma insert_by_due_perm (tm : timer Cb) ts : insert_by_due tm ts ≡ₚ tm :: ts.
Proof.
  induction ts as [|x r IH]; [reflexivity|]. cbn [insert_by_due].
  destruct (due tm <? due x); [reflexivity|]. rewrite IH. apply Permutation_swap.
Qed.

Lemma by_due_perm (ts : list (timer Cb)) : by_due ts ≡ₚ ts.
Proof.
  unfold by_due. rewrite <- (reverse_Permutation ts) at 2.
  induction (reverse ts) as [|x r IH]; [reflexivity|].
  cbn [foldr]. now rewrite insert_by_due_perm, IH.
Qed.

Lemma count_fired id (l : list (timer Cb)) :
  length (filter (λ p : Cb * string, p.2 = id) ((λ tm, (timer_cb tm, timer_arg tm)) <$> l))
  = length (filter (λ tm, timer_arg tm = id) l).
Proof.
  induction l as [|x r IH]; [reflexivity|]. rewrite fmap_cons.
  destruct (decide (timer_arg x = id)) as [Heq|Hne].
  - rewrite !filter_cons_True by assumption. cbn. now rewrite IH.
  - rewrite !filter_cons_False by assumption. exact IH.
Qed.

(** How many timeouts one passage of time delivers for an id. *)
Lemma advance_timeouts now id w :
  timeouts_of id (advance now w)
  = (timeouts_of id w
     + length (filter (λ tm, (due tm ≤ now)%Z) (timers_for id w)))%nat.
Proof.
  unfold timeouts_of, timers_for. cbn [advance fired].
  rewrite filter_app, length_app, count_fired. f_equal.
  rewrite (by_due_perm (filter _ (pending w))).
  now rewrite !list_filter_filter, (list_filter_iff _ (λ x, due x ≤ now ∧ timer_arg x = id))
    by (intros; tauto).
Qed.

Lemma advance_timers_for now id w :
  timers_for id (advance now w) = filter (λ tm, now < due tm) (timers_for id w).
Proof.
  unfold timers_for. cbn [advance pending]. rewrite !list_filter_filter.
  apply list_filter_iff. intros; tauto.
Qed.

Lemma tidy_timers_of_entry id w e :
  tidy w → jobs w !! id = Some e →
  filter (λ tm, handle tm ≠ entry_timer e) (timers_for id w) = [].
Proof.
  intros [Hb _] He. apply filter_none. intros tm Hin Hne.
  apply list_elem_of_filter in Hin as [Harg Hin].
  destruct (Hb tm Hin) as (_ & e' & He' & Hh). rewrite Harg in He'.
  apply Hne. congruence.
Qed.

Lemma tidy_no_entry_no_timer id w :
  tidy w → jobs w !! id = None → timers_for id w = [].
Proof.
  intros [Hb _] He. apply filter_none. intros tm Hin Harg.
  destruct (Hb tm Hin) as (_ & e' & He' & _). rewrite Harg in He'. congruence.
Qed.

Lemma clear_timers_for id w : tidy w → timers_for id (clear id w) = [].
Proof.
  intros Ht. apply tidy_no_entry_no_timer; [now apply tidy_clear|apply clear_removes].
Qed.

(** X1.  Under the discipline of the bridge, where [watch] is only called
    for a job id that has no entry, at most one timer is pending for a job
    id after any sequence of [watch], [kick], [clear], [clearAll] and timer
    expiries on a new watchdog. *)
Theorem watchdog_one_timer_per_job (os : list (op Cb)) (timeout : option Z) id :
  disciplined os (new timeout) →
  (length (timers_for id (performs os (new timeout))) ≤ 1)%nat.
Proof. intros Hd. apply tidy_one_timer, tidy_performs; [apply tidy_new|exact Hd]. Qed.

(** X2.  On a watchdog whose timers are all referred to by entries,
    [clear(id)] leaves no timer for the id, so no later expiry calls its
    timeout handler; [clearAll()] leaves no timer at all. *)
Theorem watchdog_clear_stops_timeouts id w now :
  tidy w →
  timers_for id (clear id w) = []
  ∧ timeouts_of id (advance now (clear id w)) = timeouts_of id w
  ∧ pending (clearAll w) = []
  ∧ fired (advance now (clearAll w)) = fired w.
Proof.
  intros Ht. split; [now apply clear_timers_for|]. split; [|split].
  - rewrite advance_timeouts, clear_timers_for by assumption. cbn.
    unfold timeouts_of, clear. destruct (jobs w !! id); cbn; lia.
  - now apply clearAll_pending.
  - cbn [advance fired]. rewrite (clearAll_pending w Ht). cbn. apply app_nil_r.
Qed.

(** X3.  [kick(id)] on a watched id cancels the pending timer and arms one
    [timeoutMs] after the kick, with the handler the entry holds: no timeout
    is delivered for the id before that deadline, exactly one at it, and
    then no timer is left. *)
Theorem watchdog_kick_rearms_from_now id w e now t :
  tidy w → jobs w !! id = Some e →
  let w' := kick now id w in
  timers_for id w'
  = [Timer (next_handle w) (now + timer_delay (timeoutMs w)) (onTimeout e) id]
  ∧ (t < now + timer_delay (timeoutMs w) →
     timeouts_of id (advance t w') = timeouts_of id w)
  ∧ (now + timer_delay (timeoutMs w) ≤ t →
     timeouts_of id (advance t w') = S (timeouts_of id w)
     ∧ timers_for id (advance t w') = []).
Proof.
  intros Ht He w'.
  assert (Htf : timers_for id w'
    = [Timer (next_handle w) (now + timer_delay (timeoutMs w)) (onTimeout e) id]).
  { unfold w'. rewrite (kick_timers_for now id w e He).
    now rewrite (tidy_timers_of_entry id w e Ht He). }
  assert (Hfired : timeouts_of id w' = timeouts_of id w).
  { unfold w', kick, timeouts_of. now rewrite He. }
  split; [exact Htf|]. split.
  - intros Hlt. rewrite advance_timeouts, Htf, Hfired.
    rewrite filter_cons_False by (cbn; lia). cbn. lia.
  - intros Hge. rewrite advance_timeouts, advance_timers_for, Htf, Hfired.
    rewrite filter_cons_True by (cbn; lia).
    rewrite filter_cons_False by (cbn; lia). cbn. split; [lia|reflexivity].
Qed.

(** X4.  [watch(id, cb)] on an id without entry delivers no timeout before
    [timeoutMs] have passed and exactly one once they have. *)
Theorem watchdog_watch_fires_once_at_deadline id cb w now t :
  tidy w → jobs w !! id = None →
  let w' := watch now id cb w in
  (t < now + timer_delay (timeoutMs w) →
     timeouts_of id (advance t w') = timeouts_of id w)
  ∧ (now + timer_delay (timeoutMs w) ≤ t →
     timeouts_of id (advance t w') = S (timeouts_of id w)).
Proof.
  intros Ht He w'.
  assert (Htf : timers_for id w'
    = [Timer (next_handle w) (now + timer_delay (timeoutMs w)) cb id]).
  { unfold w', timers_for. rewrite watch_keeps_pending, filter_app.
    fold (timers_for id w). rewrite (tidy_no_entry_no_timer id w Ht He).
    now rewrite filter_cons_True by reflexivity. }
  assert (Hfired : timeouts_of id w' = timeouts_of id w) by reflexivity.
  split; intros Hcmp; rewrite advance_timeouts, Htf, Hfired.
  - rewrite filter_cons_False by (cbn; lia). cbn. lia.
  - rewrite filter_cons_True by (cbn; lia). cbn. lia.
Qed.

(** X5.  [elapsed(id)] counts from the call of [watch]: a [kick] does not
    restart it, and it is -1 once the id is cleared. *)
Theorem watchdog_elapsed_since_watch id cb w now t :
  elapsed t id (watch now id cb w) = t - now
  ∧ elapsed t id (kick now id w) = elapsed t id w
  ∧ elapsed t id (clear id w) = -1
  ∧ elapsed t id (clearAll w) = -1.
Proof.
  unfold elapsed. split; [|split; [|split]].
  - cbn. now rewrite lookup_insert_eq.
  - unfold kick. destruct (jobs w !! id) as [e|] eqn:He; cbn; [|now rewrite He].
    now rewrite lookup_insert_eq.
  - now rewrite clear_removes.
  - reflexivity.
Qed.
End WatchdogMore.

Lemma watchdog_one_timer_per_job_witness :
  JobWatchdog.disciplined Scenario.calls (JobWatchdog.new (Some 1000))
  ∧ (length (JobWatchdog.timers_for "job-a"
               (JobWatchdog.performs Scenario.calls (JobWatchdog.new (Some 1000%Z)))) ≤ 1)%nat.
Proof.
  assert (Hd : JobWatchdog.disciplined Scenario.calls (JobWatchdog.new (Some 1000)))
    by (vm_compute; repeat split).
  split; [exact Hd|].
  exact (watchdog_one_timer_per_job Scenario.calls (Some 1000) "job-a" Hd).
Defined.

(** "job-a" is cleared 300 ms into its timeout of 1000 ms. *)
Lemma watchdog_clear_stops_timeouts_witness :
  JobWatchdog.timeouts_of "job-a"
    (JobWatchdog.advance 5000 (JobWatchdog.clear "job-a" Scenario.watched)) = 0%nat.
Proof.
  destruct (watchdog_clear_stops_timeouts "job-a" Scenario.watched 5000) as (_ & Hnone & _).
  - apply tidy_watch; [apply tidy_new|reflexivity].
  - rewrite Hnone. reflexivity.
Defined.

(** "job-a", watched at 0 with a timeout of 1000 ms, is kicked at 400. *)
Lemma watchdog_kick_rearms_from_now_witness :
  let w := JobWatchdog.kick 400 "job-a" Scenario.watched in
  JobWatchdog.timeouts_of "job-a" (JobWatchdog.advance 1399 w) = 0%nat
  ∧ JobWatchdog.timeouts_of "job-a" (JobWatchdog.advance 1400 w) = 1%nat.
Proof.
  intros w.
  assert (Ht : JobWatchdog.tidy Scenario.watched)
    by (apply tidy_watch; [apply tidy_new|reflexivity]).
  pose proof (watchdog_kick_rearms_from_now "job-a" Scenario.watched
                (JobWatchdog.Entry 0%nat Bridge.TimeoutHandler 0) 400 1399 Ht eq_refl) as H1.
  pose proof (watchdog_kick_rearms_from_now "job-a" Scenario.watched
                (JobWatchdog.Entry 0%nat Bridge.TimeoutHandler 0) 400 1400 Ht eq_refl) as H2.
  cbv zeta in H1, H2. destruct H1 as (_ & Hbefore & _). destruct H2 as (_ & _ & Hafter).
  split.
  - unfold w. rewrite Hbefore; [reflexivity|vm_compute; reflexivity].
  - unfold w. destruct Hafter as [Hafter _]; [vm_compute; discriminate|].
    rewrite Hafter. reflexivity.
Defined.

Lemma watchdog_watch_fires_once_at_deadline_witness :
  JobWatchdog.timeouts_of "job-a" (JobWatchdog.advance 999 Scenario.watched) = 0%nat
  ∧ JobWatchdog.timeouts_of "job-a" (JobWatchdog.advance 1000 Scenario.watched) = 1%nat.
Proof.
  pose proof (watchdog_watch_fires_once_at_deadline "job-a" Bridge.TimeoutHandler
                (JobWatchdog.new (Some 1000)) 0 999 (tidy_new _) eq_refl) as H1.
  pose proof (watchdog_watch_fires_once_at_deadline "job-a" Bridge.TimeoutHandler
                (JobWatchdog.new (Some 1000)) 0 1000 (tidy_new _) eq_refl) as H2.
  cbv zeta in H1, H2. destruct H1 as (Hbefore & _). destruct H2 as (_ & Hafter).
  split.
  - unfold Scenario.watched. rewrite Hbefore; [reflexivity|vm_compute; reflexivity].
  - unfold Scenario.watched. rewrite Hafter; [reflexivity|vm_compute; discriminate].
Defined.

(** ** HealthMonitor over any sequence of probe cycles *)

Section HealthMore.
Import HealthMonitor.

Lemma checks_snoc cs c m :
  checks (cs ++ [c]) m = _check c.1.1 c.1.2 c.2 (checks cs m).
Proof. unfold checks. rewrite foldl_app. destruct c as [[p now] started]. reflexivity. Qed.

Lemma trailing_snoc cs c :
  trailing_failures (cs ++ [c])
  = if probe_failed c.1.1 then S (trailing_failures cs) else 0%nat.
Proof. unfold trailing_failures. rewrite reverse_snoc. reflexivity. Qed.

Lemma new_threshold_positive cfg : (0 < maxConsecutiveFailures (new cfg))%nat.
Proof.
  unfold new. cbn. destruct (cfg ≫= cfg_maxConsecutiveFailures) as [[|n]|]; lia.
Qed.

(** X6.  After any sequence of probe cycles on a new monitor the failure
    counter is the number of failed probes since the last success, and
    [isHealthy()] holds exactly when that number is below
    [maxConsecutiveFailures]. *)
Theorem health_flag_follows_trailing_failures (cfg : option config) (cs : list cycle) :
  let m := checks cs (new cfg) in
  maxConsecutiveFailures m = maxConsecutiveFailures (new cfg)
  ∧ consecutiveFailures m = trailing_failures cs
  ∧ isHealthy m
    = bool_decide (trailing_failures cs < maxConsecutiveFailures (new cfg))%nat.
Proof.
  cbv zeta. pose proof (new_threshold_positive cfg) as Hpos.
  induction cs as [|c cs IH] using rev_ind.
  - split; [reflexivity|]. split; [reflexivity|].
    symmetry. apply bool_decide_eq_true_2. exact Hpos.
  - destruct IH as (Hm & Hc & Hh). rewrite checks_snoc, trailing_snoc, check_max, Hm.
    split; [reflexivity|].
    destruct c as [[p now] started]. cbn [fst snd].
    destruct (probe_failed p) eqn:Hp.
    + rewrite check_failed_count, check_failed_healthy, Hc, Hh, Hm by exact Hp.
      split; [reflexivity|].
      destruct (Nat.leb_spec (maxConsecutiveFailures (new cfg)) (S (trailing_failures cs))).
      * rewrite andb_false_r. symmetry. apply bool_decide_eq_false_2. lia.
      * rewrite andb_true_r. rewrite !bool_decide_eq_true_2 by lia. reflexivity.
    + destruct p; try discriminate. split; [reflexivity|].
      symmetry. apply bool_decide_eq_true_2. exact Hpos.
Qed.

(** X7.  The zombie scan of [_check] only observes: the counter, the
    health flag and the "unhealthy" notifications of a cycle do not depend
    on the clock or on the jobs of the pool manager; a job is reported
    exactly when it has been running for more than twice [jobTimeoutMs]. *)
Theorem health_zombie_scan_only_observes
    (p : probe) (now now' : Z) (started started' : list (string * Z)) (m : t) :
  consecutiveFailures (_check p now started m) = consecutiveFailures (_check p now' started' m)
  ∧ isHealthy (_check p now started m) = isHealthy (_check p now' started' m)
  ∧ notified p now started m = notified p now' started' m
  ∧ ∀ uuid elapsed,
      ZombieWarning uuid elapsed ∈ events (_check p now started m) ↔
      ZombieWarning uuid elapsed ∈ events m
      ∨ ∃ startTime, (uuid, startTime) ∈ started ∧ elapsed = now - startTime
                     ∧ jobTimeoutMs m * 2 < elapsed.
Proof.
  assert (Hz : ∀ T uuid elapsed,
    ZombieWarning uuid elapsed ∈ zombies now T started ↔
    ∃ startTime, (uuid, startTime) ∈ started ∧ elapsed = now - startTime ∧ T * 2 < elapsed).
  { intros T uuid elapsed. unfold zombies. rewrite list_elem_of_omap. split.
    - intros ([u st] & Hin & Hsome). destruct (Z.ltb_spec (T * 2) (now - st)); [|discriminate].
      inversion Hsome; subst. eauto.
    - intros (st & Hin & -> & Hlt). exists (uuid, st). split; [exact Hin|].
      destruct (Z.ltb_spec (T * 2) (now - st)); [reflexivity|lia]. }
  assert (Hn : ∀ nw st, notified p nw st m
     = match p with
       | ProbeOk => []
       | _ => if (maxConsecutiveFailures m <=? S (consecutiveFailures m))%nat
              then [Unhealthy (reason_of p) (S (consecutiveFailures m))] else []
       end).
  { intros nw st. destruct p; try (now apply notified_failed).
    unfold notified. cbn. rewrite drop_app_length. apply zombies_not_unhealthy. }
  split; [destruct p; cbn; unfold _recordFailure; repeat case_match; reflexivity|].
  split; [destruct p; cbn; unfold _recordFailure, isHealthy; repeat case_match; reflexivity|].
  split; [now rewrite !Hn|].
  intros uuid elapsed.
  assert (Hj : jobTimeoutMs (match p with
                 | ProbeOk => Monitor (checkIntervalMs m) (jobTimeoutMs m)
                                (maxConsecutiveFailures m) 0 true (interval m) (events m)
                 | ProbeStatus st => _recordFailure (ReturnedStatus st) m
                 | ProbeThrew msg => _recordFailure (FetchError msg) m
                 end) = jobTimeoutMs m).
  { destruct p; cbn; unfold _recordFailure; try case_match; reflexivity. }
  unfold _check. cbn [events]. rewrite elem_of_app, Hz, Hj.
  destruct p; cbn; unfold _recordFailure; try case_match; cbn [events];
    rewrite ?elem_of_app, ?list_elem_of_singleton; split; intros Hx; try tauto;
    destruct Hx as [[Hx|Hx]|Hx]; try tauto; discriminate.
Qed.
End HealthMore.

(** ** RunnerClient: tokens and requests *)

Section ClientMore.
Import RunnerClient.
Implicit Types (c : RunnerClient.t) (j : string) (o : op).

Ltac client_unfold :=
  unfold run, unregister, requestJob, acceptJob, updateJob, postSuccess, postError,
    abortJob, _jobToken, fetch, checked, set_jobTokens, set_runnerToken, _apiUrl in *;
  munfold; simpl in *.

Ltac token_cases c j :=
  let tok := fresh "tok" in
  destruct (jobTokens c !! j) as [tok|] eqn:?;
    [destruct (decide (tok = ""))|].

(** X8.  The token that [acceptJob] returns is the one the later calls for
    that job send: [updateJob], [postError], [abortJob] and [postSuccess]
    each add one request to the job's endpoint that carries the runner
    token and this job token. *)
Theorem client_token_round_trip c c1 j tok (r : reply string) :
  acceptJob r j c = (Returned tok, c1) → tok ≠ "" →
  jobTokens c1 = <[j := tok]> (jobTokens c)
  ∧ (∀ r' p, requests (updateJob r' j p c1).2
       = requests c1 ++ [Request (url c +:+ "/api/v1/runners/jobs/" +:+ j +:+ "/update")
                                 (UpdateBody (runnerToken c) tok p)])
  ∧ (∀ r' msg, requests (postError r' j msg c1).2
       = requests c1 ++ [Request (url c +:+ "/api/v1/runners/jobs/" +:+ j +:+ "/error")
                                 (ErrorBody (runnerToken c) tok msg)])
  ∧ (∀ r', requests (abortJob r' j c1).2
       = requests c1 ++ [Request (url c +:+ "/api/v1/runners/jobs/" +:+ j +:+ "/abort")
                                 (AbortBody (runnerToken c) tok)])
  ∧ (∀ r' content path, requests (postSuccess (Returned content) r' j path c1).2
       = requests c1 ++ [Request (url c +:+ "/api/v1/runners/jobs/" +:+ j +:+ "/success")
                                 (SuccessForm (runnerToken c) tok content)]).
Proof.
  intros Hacc Hne.
  assert (Hc1 : c1 = Client (url c) (runnerToken c) (<[j := tok]> (jobTokens c))
                       (requests c ++ [Request (url c +:+ "/api/v1/runners/jobs/" +:+ j +:+ "/accept")
                                               (RunnerBody (runnerToken c))])).
  { client_unfold. destruct r as [?|[] ? ? ?]; simpl in Hacc; inversion Hacc; reflexivity. }
  subst c1. split; [reflexivity|].
  repeat split; intros; client_unfold; rewrite lookup_insert_eq;
    (destruct (decide (tok = "")); [contradiction|]);
    destruct r' as [?|[] ? ? ?]; reflexivity.
Qed.

(** X9.  A call that throws leaves the stored tokens as they were: a
    rejected [acceptJob] stores nothing, a rejected report keeps the job
    token for a retry, a rejected [unregister] keeps the runner token. *)
Theorem client_failed_call_keeps_tokens c o e :
  (run o c).1 = Threw e →
  jobTokens (run o c).2 = jobTokens c
  ∧ runnerToken (run o c).2 = runnerToken c
  ∧ url (run o c).2 = url c.
Proof.
  destruct o as [r|r|r k|r k pr|f r k pa|r k msg|r k]; client_unfold.
  - destruct r as [?|[] ? ? ?]; simpl; intros; try discriminate; auto.
  - destruct r as [?|[] ? ? ?]; simpl; intros; try discriminate; auto.
  - destruct r as [?|[] ? ? ?]; simpl; intros; try discriminate; auto.
  - token_cases c k; simpl; auto.
    destruct r as [?|[] ? ? ?]; simpl; intros; try discriminate; auto.
  - token_cases c k; simpl; auto. destruct f; simpl; auto.
    destruct r as [?|[] ? ? ?]; simpl; intros; try discriminate; auto.
  - token_cases c k; simpl; auto.
    destruct r as [?|[] ? ? ?]; simpl; intros; try discriminate; auto.
  - token_cases c k; simpl; auto.
    destruct r as [?|[] ? ? ?]; simpl; intros; try discriminate; auto.
Qed.

(** X10.  Every call sends at most one request; it carries the runner
    token of the moment, and a job token only when that is the non-empty
    token stored for the job of the call. *)
Theorem client_call_sends_at_most_one_request c o :
  requests (run o c).2 = requests c
  ∨ ∃ rq, requests (run o c).2 = requests c ++ [rq]
          ∧ body_runnerToken (req_body rq) = runnerToken c
          ∧ (∀ tok, body_jobToken (req_body rq) = Some tok →
               tok ≠ "" ∧ ∃ k, op_job o = Some k ∧ jobTokens c !! k = Some tok).
Proof.
  destruct o as [r|r|r k|r k pr|f r k pa|r k msg|r k]; client_unfold.
  - right. eexists. split; [destruct r as [?|[] ? ? ?]; reflexivity|].
    split; [reflexivity|]. intros tok Htok; discriminate.
  - right. eexists. split; [destruct r as [?|[] ? ? ?]; reflexivity|].
    split; [reflexivity|]. intros tok Htok; discriminate.
  - right. eexists. split; [destruct r as [?|[] ? ? ?]; reflexivity|].
    split; [reflexivity|]. intros tok Htok; discriminate.
  - token_cases c k; simpl; auto.
    right. eexists. split; [destruct r as [?|[] ? ? ?]; reflexivity|].
    split; [reflexivity|]. intros tok' Htok; inversion Htok; subst. eauto.
  - token_cases c k; simpl; auto. destruct f; simpl; auto.
    right. eexists. split; [destruct r as [?|[] ? ? ?]; reflexivity|].
    split; [reflexivity|]. intros tok' Htok; inversion Htok; subst. eauto.
  - token_cases c k; simpl; auto.
    right. eexists. split; [destruct r as [?|[] ? ? ?]; reflexivity|].
    split; [reflexivity|]. intros tok' Htok; inversion Htok; subst. eauto.
  - token_cases c k; simpl; auto.
    right. eexists. split; [destruct r as [?|[] ? ? ?]; reflexivity|].
    split; [reflexivity|]. intros tok' Htok; inversion Htok; subst. eauto.
Qed.

(** X11.  When the queue accepts a job with an empty token, [acceptJob]
    returns it, and every later [updateJob], [postSuccess], [postError] and
    [abortJob] for the job throws "No job token" without sending anything:
    the job can be neither completed nor given back. *)
Theorem client_empty_token_blocks_reports c c1 j o (r : reply string) :
  acceptJob r j c = (Returned "", c1) → needs_token j o →
  run o c1 = (Threw (NoJobToken j), c1).
Proof.
  intros Hacc Hn.
  assert (He : jobTokens c1 !! j = Some "").
  { client_unfold. destruct r as [?|[] ? ? ?]; simpl in Hacc; inversion Hacc; subst.
    cbn. apply lookup_insert_eq. }
  destruct Hn; client_unfold; rewrite He; reflexivity.
Qed.
End ClientMore.

(** "job-a" is accepted with the token "token-a"; the next progress update
    carries it. *)
Lemma client_token_round_trip_witness :
  let c := RunnerClient.set_runnerToken (Some "runner-token")
             (RunnerClient.new "http://localhost:9000") in
  let c1 := (RunnerClient.acceptJob (Reply true 200 "" "token-a") "job-a" c).2 in
  last (RunnerClient.requests (RunnerClient.updateJob Scenario.ok "job-a" 40 c1).2)
  = Some (RunnerClient.Request "http://localhost:9000/api/v1/runners/jobs/job-a/update"
            (RunnerClient.UpdateBody (Some "runner-token") "token-a" 40)).
Proof.
  intros c c1.
  destruct (client_token_round_trip c c1 "job-a" "token-a" (Reply true 200 "" "token-a"))
    as (_ & Hupdate & _).
  - reflexivity.
  - discriminate.
  - rewrite Hupdate, last_snoc. reflexivity.
Defined.

(** The error report of "job-a" is rejected by the server: the token stays. *)
Lemma client_failed_call_keeps_tokens_witness :
  let o := RunnerClient.OpPostError (Reply false 500 "Internal Server Error" ())
             "job-a" "Job timed out" in
  RunnerClient.jobTokens (RunnerClient.run o Scenario.clientA).2 !! "job-a" = Some "token-a".
Proof.
  intros o.
  destruct (client_failed_call_keeps_tokens Scenario.clientA o
              (HttpFailed "Post error" 500 "Internal Server Error")) as (Hkept & _).
  - reflexivity.
  - rewrite Hkept. reflexivity.
Defined.

(** The queue accepts "job-a" with an empty token. *)
Lemma client_empty_token_blocks_reports_witness :
  let c1 := (RunnerClient.acceptJob (Reply true 200 "" "") "job-a"
               (RunnerClient.new "http://localhost:9000")).2 in
  RunnerClient.run (RunnerClient.OpAbortJob Scenario.ok "job-a") c1
  = (Threw (NoJobToken "job-a"), c1).
Proof.
  intros c1.
  apply (client_empty_token_blocks_reports (RunnerClient.new "http://localhost:9000") c1
           "job-a" _ (Reply true 200 "" "")).
  - reflexivity.
  - constructor.
Defined.

(** ** JobTranslator and its use by ResultAssembler *)

Section TranslatorFacts.
Import JobTranslator ResultAssembler.

Lemma supported_cases ty :
  isSupported ty = true ↔
  ty = "vod-web-video-transcoding" ∨ ty = "vod-hls-transcoding"
  ∨ ty = "vod-audio-merge-transcoding".
Proof.
  unfold isSupported, SUPPORTED_TYPES. rewrite bool_decide_eq_true.
  rewrite !elem_of_cons, elem_of_nil. tauto.
Qed.

Lemma translateJob_returned ty p wf :
  translateJob ty p = Returned wf →
  isSupported ty = true
  ∧ ∃ i o, input p = Some i ∧ output p = Some o
      ∧ wf = Workflow (TYPE_MAP ty)
               (if decide (ty = "vod-audio-merge-transcoding")
                then audioFileUrl i else videoFileUrl i)
               (resolution o) (fps o) (FORMAT_MAP (TYPE_MAP ty)) "" "".
Proof.
  unfold translateJob. destruct (isSupported ty); [|discriminate]. cbn [negb].
  destruct (input p) as [i|]; [|discriminate].
  destruct (output p) as [o|]; [|discriminate].
  intros [= <-]. split; [reflexivity|]. exists i, o. auto.
Qed.

(** X12.  [translateJob] returns exactly for a supported job type whose
    payload has both [input] and [output]; otherwise the first failing
    check decides the error: the type, then [input], then [output]. *)
Theorem translateJob_outcome ty p :
  (returned (translateJob ty p) = true
     ↔ isSupported ty = true ∧ is_Some (input p) ∧ is_Some (output p))
  ∧ (isSupported ty = false → translateJob ty p = Threw (UnsupportedJobType ty))
  ∧ (isSupported ty = true → input p = None →
       translateJob ty p = Threw (PayloadInputMissing ty))
  ∧ (isSupported ty = true → is_Some (input p) → output p = None →
       translateJob ty p = Threw (PayloadOutputMissing ty)).
Proof.
  unfold translateJob.
  destruct (isSupported ty), (input p) as [i|], (output p) as [o|]; cbn;
    repeat split; try discriminate; eauto;
    try (intros (_ & [? ?] & [? ?]); discriminate);
    try (intros [? ?]; discriminate); try (intros _ [? ?]; discriminate).
Qed.

(** X13.  The tables of [translateJob]: the workflow type determines the
    job type, the output format is "hls" for "vod-hls-transcoding" and "mp4"
    otherwise, the input is the audio file for an audio merge and the video
    file otherwise, and the caller's fields are left empty. *)
Theorem translateJob_tables ty p wf ty' p' wf' :
  translateJob ty p = Returned wf → translateJob ty' p' = Returned wf' →
  (wf_type wf = wf_type wf' ↔ ty = ty')
  ∧ (outputFormat wf = "hls" ↔ ty = "vod-hls-transcoding")
  ∧ (outputFormat wf ≠ "hls" → outputFormat wf = "mp4")
  ∧ (∀ i, input p = Some i →
       inputUrl wf = if decide (ty = "vod-audio-merge-transcoding")
                     then audioFileUrl i else videoFileUrl i)
  ∧ jobUUID wf = "" ∧ localInputPath wf = "".
Proof.
  intros H1 H2.
  apply translateJob_returned in H1 as (Hs & i & o & Hi & Ho & ->).
  apply translateJob_returned in H2 as (Hs' & i' & o' & Hi' & Ho' & ->).
  assert (Hfmt : ∀ t, FORMAT_MAP (TYPE_MAP t) = "hls" ∨ FORMAT_MAP (TYPE_MAP t) = "mp4").
  { intros t. unfold FORMAT_MAP. destruct (decide (TYPE_MAP t = "vod-hls")); auto. }
  cbn [wf_type outputFormat inputUrl jobUUID localInputPath].
  split.
  { apply supported_cases in Hs as [-> | [-> | ->]];
      apply supported_cases in Hs' as [-> | [-> | ->]]; cbn;
      split; intros; solve [reflexivity | discriminate]. }
  split.
  { apply supported_cases in Hs as [-> | [-> | ->]]; cbn;
      split; intros; solve [reflexivity | discriminate]. }
  split; [intros Hne; destruct (Hfmt ty); [contradiction|assumption]|].
  split; [intros i0 Hi0; rewrite Hi in Hi0; now inversion Hi0|].
  split; reflexivity.
Qed.

(** X14.  As the bridge composes them: the result that [prepareResult]
    gives for the workflow of [translateJob] is classified "hls" exactly for
    the job type "vod-hls-transcoding", that is when the workflow's output
    format is "hls", and it names the file it was given. *)
Theorem result_kind_follows_job_type fs ty p wf id inputPath outputPath r :
  translateJob ty p = Returned wf →
  prepareResult fs outputPath (with_localInputPath inputPath (with_jobUUID id wf))
    = Returned r →
  videoFilePath r = outputPath
  ∧ (result_kind r = Hls ↔ ty = "vod-hls-transcoding")
  ∧ (result_kind r = Hls ↔ outputFormat wf = "hls").
Proof.
  intros H1 Hr.
  apply translateJob_returned in H1 as (Hs & i & o & Hi & Ho & ->).
  unfold prepareResult in Hr.
  destruct (access_R_OK fs outputPath); [|discriminate]. cbn [negb] in Hr.
  destruct (stat_size fs outputPath) as [size|]; [|discriminate].
  destruct (size =? 0); [discriminate|].
  destruct (probeFile fs outputPath); [|discriminate].
  apply supported_cases in Hs as [-> | [-> | ->]]; cbn in Hr; inversion Hr; subst; cbn;
    (split; [reflexivity|]); split; split; intros; solve [reflexivity | discriminate].
Qed.

End TranslatorFacts.

(** An HLS job and an audio merge on the same payload. *)
Lemma translateJob_tables_witness :
  let hls := JobTranslator.Workflow "vod-hls" "http://localhost:9000/input" 720 30 "hls" "" "" in
  let merge := JobTranslator.Workflow "audio-merge" "" 720 30 "mp4" "" "" in
  JobTranslator.translateJob "vod-hls-transcoding" Scenario.payloadA = Returned hls
  ∧ JobTranslator.translateJob "vod-audio-merge-transcoding" Scenario.payloadA = Returned merge
  ∧ JobTranslator.wf_type hls ≠ JobTranslator.wf_type merge.
Proof.
  intros hls merge.
  assert (H1 : JobTranslator.translateJob "vod-hls-transcoding" Scenario.payloadA
               = Returned hls) by reflexivity.
  assert (H2 : JobTranslator.translateJob "vod-audio-merge-transcoding" Scenario.payloadA
               = Returned merge) by reflexivity.
  split; [exact H1|]. split; [exact H2|].
  destruct (translateJob_tables _ _ _ _ _ _ H1 H2) as (Htypes & _).
  intros Heq. apply Htypes in Heq. discriminate Heq.
Defined.

(** An HLS job whose output file is in place. *)
Lemma result_kind_follows_job_type_witness :
  let wf := JobTranslator.Workflow "vod-hls" "http://localhost:9000/input" 720 30 "hls" "" "" in
  let r := ResultAssembler.Result "/tmp/ptsn-pool1/output.mp4" ResultAssembler.Hls in
  ResultAssembler.prepareResult Scenario.goodFiles "/tmp/ptsn-pool1/output.mp4"
    (JobTranslator.with_localInputPath "/tmp/ptsn-job-a-dl/input.mp4"
       (JobTranslator.with_jobUUID "job-a" wf)) = Returned r
  ∧ (ResultAssembler.result_kind r = ResultAssembler.Hls
     ↔ JobTranslator.outputFormat wf = "hls").
Proof.
  intros wf r.
  assert (Hr : ResultAssembler.prepareResult Scenario.goodFiles "/tmp/ptsn-pool1/output.mp4"
                 (JobTranslator.with_localInputPath "/tmp/ptsn-job-a-dl/input.mp4"
                    (JobTranslator.with_jobUUID "job-a" wf)) = Returned r) by reflexivity.
  split; [exact Hr|].
  destruct (result_kind_follows_job_type Scenario.goodFiles "vod-hls-transcoding"
              Scenario.payloadA wf "job-a" "/tmp/ptsn-job-a-dl/input.mp4"
              "/tmp/ptsn-pool1/output.mp4" r) as (_ & _ & Hkind).
  - reflexivity.
  - exact Hr.
  - exact Hkind.
Defined.

(** ** PoolManager: the job table, the workspace, the progress

    A run of [processJob] is followed on its own, as in the model: what
    other tasks or timer handlers do during its awaits is not part of it. *)

Lemma filter_all {A} (P : A → Prop) `{!∀ x, Decision (P x)} (l : list A) :
  (∀ x, x ∈ l → P x) → filter P l = l.
Proof.
  induction l as [|x l IH]; [reflexivity|]. intros Hall.
  rewrite filter_cons_True by (apply Hall; constructor).
  f_equal. apply IH. intros y Hy. apply Hall. now constructor.
Qed.

Section MapFacts.
Import PoolManager.
Context {V : Type}.
Implicit Types (l : list (string * V)) (k : string).

Lemma map_get_delete k l : map_get k (map_delete k l) = None.
Proof.
  unfold map_delete. induction l as [|[k' v] r IH]; [reflexivity|].
  rewrite filter_cons. cbn [fst]. destruct (decide (k' ≠ k)) as [Hne|Heq]; [|exact IH].
  cbn [map_get]. destruct (decide (k' = k)); [contradiction|exact IH].
Qed.

Lemma map_get_delete_ne k k' l : k ≠ k' → map_get k (map_delete k' l) = map_get k l.
Proof.
  intros Hne. unfold map_delete. induction l as [|[k0 v] r IH]; [reflexivity|].
  rewrite filter_cons. cbn [fst map_get].
  destruct (decide (k0 ≠ k')) as [H0|H0].
  - cbn [map_get]. now rewrite IH.
  - apply dec_stable in H0. subst k0. destruct (decide (k' = k)); [congruence|exact IH].
Qed.

Lemma map_get_none k l : map_get k l = None ↔ k ∉ l.*1.
Proof.
  induction l as [|[k' v] r IH]; cbn [map_get fmap list_fmap fst].
  - split; [intros _; apply not_elem_of_nil|reflexivity].
  - rewrite not_elem_of_cons. destruct (decide (k' = k)) as [->|Hne].
    + split; [discriminate|intros [Hk _]; contradiction].
    + rewrite IH. split; [intros Hk; split; [congruence|exact Hk]|intros [_ Hk]; exact Hk].
Qed.

Lemma map_delete_absent k l : map_get k l = None → map_delete k l = l.
Proof.
  rewrite map_get_none. intros Hk. unfold map_delete.
  induction l as [|[k' v] r IH]; [reflexivity|].
  cbn [fmap list_fmap fst] in Hk. apply not_elem_of_cons in Hk as [Hne Hk].
  rewrite filter_cons_True by (cbn; congruence). now rewrite IH.
Qed.

Lemma map_delete_set k v l : map_delete k (map_set k v l) = map_delete k l.
Proof.
  unfold map_delete. induction l as [|[k' v'] r IH]; cbn [map_set].
  - rewrite filter_cons_False by (cbn; intros Hk; now apply Hk). reflexivity.
  - destruct (decide (k' = k)) as [->|Hne].
    + rewrite !filter_cons_False by (cbn; intros Hk; now apply Hk). reflexivity.
    + rewrite !filter_cons_True by (cbn; exact Hne). now rewrite IH.
Qed.

Lemma map_delete_filter k (ids : list string) l :
  map_delete k (filter (λ kv, kv.1 ∉ ids) l) = filter (λ kv, kv.1 ∉ k :: ids) l.
Proof.
  unfold map_delete. rewrite list_filter_filter. apply list_filter_iff.
  intros [k' v]. cbn [fst]. rewrite not_elem_of_cons. tauto.
Qed.

Lemma map_delete_delete_all ids k l :
  filter (λ kv : string * V, kv.1 ∉ ids) (map_delete k l)
  = filter (λ kv, kv.1 ∉ k :: ids) l.
Proof.
  unfold map_delete. rewrite list_filter_filter. apply list_filter_iff.
  intros [k' v]. cbn [fst]. rewrite not_elem_of_cons. tauto.
Qed.

Lemma filter_keys_nil l : filter (λ kv : string * V, kv.1 ∉ l.*1) l = [].
Proof.
  apply filter_none. intros kv Hin Hout. apply Hout. now apply list_elem_of_fmap_2.
Qed.
End MapFacts.

Section PoolJobs.
Import PoolManager.
Context {H : Type}.
Implicit Types (e : env) (w : world H).

Lemma cancelJob_closed_form rm id w :
  cancelJob rm id w
  = (Returned (),
     match map_get id (activeJobs (pm w)) with
     | None => w
     | Some j =>
         World (set_activeJobs (map_delete id) (log_destroy id (pm w)))
               (removed (rm (pj_tempDir j)) (pj_tempDir j) (sys w)) (host w)
     end).
Proof.
  destruct w as [m s h]. unfold cancelJob, bind, gets. cbn [pm fst snd].
  destruct (map_get id (activeJobs m)); reflexivity.
Qed.

(** X15.  [cancelJob] never throws; it removes the entry of the job and no
    other entry, does nothing at all for an id that is not in the table,
    and a second call changes nothing. *)
Theorem pool_cancelJob_idempotent rm id w :
  let r := cancelJob rm id w in
  r.1 = Returned ()
  ∧ activeJobs (pm r.2) = map_delete id (activeJobs (pm w))
  ∧ (∀ k, k ≠ id → map_get k (activeJobs (pm r.2)) = map_get k (activeJobs (pm w)))
  ∧ (map_get id (activeJobs (pm w)) = None → r.2 = w)
  ∧ cancelJob rm id r.2 = (Returned (), r.2).
Proof.
  cbv zeta. rewrite !cancelJob_closed_form. cbn [fst snd].
  assert (Hact : activeJobs (pm (match map_get id (activeJobs (pm w)) with
     | None => w
     | Some j =>
         World (set_activeJobs (map_delete id) (log_destroy id (pm w)))
               (removed (rm (pj_tempDir j)) (pj_tempDir j) (sys w)) (host w)
     end)) = map_delete id (activeJobs (pm w))).
  { destruct (map_get id (activeJobs (pm w))) eqn:Hg; [reflexivity|].
    symmetry. now apply map_delete_absent. }
  split; [reflexivity|]. split; [exact Hact|].
  split; [intros k Hk; rewrite Hact; now apply map_get_delete_ne|].
  split; [intros ->; reflexivity|].
  rewrite Hact, map_get_delete. reflexivity.
Qed.

Lemma cancel_all_spec rm ids w :
  ∃ w', cancel_all rm ids w = (Returned (), w')
    ∧ activeJobs (pm w') = filter (λ kv, kv.1 ∉ ids) (activeJobs (pm w))
    ∧ swarm (pm w') = swarm (pm w) ∧ store_closed (pm w') = store_closed (pm w)
    ∧ host w' = host w
    ∧ (∀ id, id ∈ destroyed (pm w) → id ∈ destroyed (pm w'))
    ∧ (∀ id, id ∈ ids → id ∈ (activeJobs (pm w)).*1 → id ∈ destroyed (pm w')).
Proof.
  revert w. induction ids as [|i r IH]; intros w.
  - exists w. split; [reflexivity|]. split.
    { symmetry. apply filter_all. intros; apply not_elem_of_nil. }
    repeat split; auto. intros id Hid. now apply elem_of_nil in Hid.
  - cbn [cancel_all]. pose proof (cancelJob_closed_form rm i w) as Hc.
    set (w1 := match map_get i (activeJobs (pm w)) with None => w | Some j => _ end) in Hc.
    rewrite (bind_returned _ _ _ _ _ Hc).
    destruct (IH w1) as (w2 & Hr & Ha & Hs & Hst & Hh & Hmono & Hd).
    assert (Ha1 : activeJobs (pm w1) = map_delete i (activeJobs (pm w))).
    { subst w1. destruct (map_get i (activeJobs (pm w))) eqn:Hg; [reflexivity|].
      symmetry. now apply map_delete_absent. }
    assert (Hd1 : ∀ id, id ∈ destroyed (pm w) → id ∈ destroyed (pm w1)).
    { subst w1. destruct (map_get i (activeJobs (pm w))); [|auto].
      intros id Hid. cbn. apply elem_of_app. now left. }
    assert (Hi : i ∈ (activeJobs (pm w)).*1 → i ∈ destroyed (pm w1)).
    { intros Hin. subst w1. destruct (map_get i (activeJobs (pm w))) eqn:Hg.
      - cbn. apply elem_of_app. right. constructor.
      - apply map_get_none in Hg. contradiction. }
    exists w2. split; [exact Hr|]. split.
    { rewrite Ha, Ha1. apply map_delete_delete_all. }
    split; [subst w1; rewrite Hs; destruct (map_get i (activeJobs (pm w))); reflexivity|].
    split; [subst w1; rewrite Hst; destruct (map_get i (activeJobs (pm w))); reflexivity|].
    split; [subst w1; rewrite Hh; destruct (map_get i (activeJobs (pm w))); reflexivity|].
    split; [auto|].
    intros id Hid Hin. destruct (decide (id = i)) as [->|Hne]; [auto|].
    apply elem_of_cons in Hid as [?|Hid]; [contradiction|].
    apply Hd; [exact Hid|]. rewrite Ha1.
    apply dec_stable. intros Hout. apply map_get_none in Hout.
    rewrite map_get_delete_ne in Hout by exact Hne.
    apply map_get_none in Hout. contradiction.
Qed.

Lemma destroy_facts rm (swarmDestroy storeClose : outcome unit) w :
  let r := destroy rm swarmDestroy storeClose w in
  activeJobs (pm r.2) = []
  ∧ (∀ id, id ∈ (activeJobs (pm w)).*1 → id ∈ destroyed (pm r.2))
  ∧ r.1 = match (if swarm (pm w) then swarmDestroy else Returned ()) with
          | Threw err => Threw err
          | Returned _ => storeClose
          end
  ∧ store_closed (pm r.2) = (if returned r.1 then true else store_closed (pm w))
  ∧ host r.2 = host w.
Proof.
  cbv zeta. unfold destroy.
  rewrite (bind_returned _ _ w ((activeJobs (pm w)).*1) w) by reflexivity.
  destruct (cancel_all_spec rm ((activeJobs (pm w)).*1) w)
    as (w1 & Hr & Ha & Hs & Hst & Hh & _ & Hd).
  rewrite (bind_returned _ _ _ _ _ Hr).
  rewrite filter_keys_nil in Ha.
  rewrite (bind_returned _ _ w1 (swarm (pm w1)) w1) by reflexivity.
  rewrite Hs. destruct w1 as [m1 s1 h1]. cbn [pm host] in *.
  unfold bind, await, ret, on_pm, modify. cbn [pm sys host fst snd].
  destruct (swarm (pm w)); [destruct swarmDestroy as [[]|err]|];
    try destruct storeClose as [[]|err']; cbn [fst snd pm host activeJobs destroyed
      store_closed returned]; repeat split; auto.
Qed.
(** X16.  [destroy()] cancels every job before it touches the swarm and
    the store: the table is empty and the pool of every job was destroyed
    also when [destroy()] throws, which it does exactly when
    [swarm.destroy()] or [store.close()] does; the caller's state is not
    touched. *)
Theorem pool_destroy_cancels_all rm (swarmDestroy storeClose : outcome unit) w :
  let r := destroy rm swarmDestroy storeClose w in
  activeJobs (pm r.2) = []
  ∧ (∀ id, id ∈ (activeJobs (pm w)).*1 → id ∈ destroyed (pm r.2))
  ∧ r.1 = match (if swarm (pm w) then swarmDestroy else Returned ()) with
          | Threw err => Threw err
          | Returned _ => storeClose
          end
  ∧ store_closed (pm r.2) = (if returned r.1 then true else store_closed (pm w))
  ∧ host r.2 = host w.
Proof. apply destroy_facts. Qed.
End PoolJobs.

Section PoolInvariant.
Import PoolManager.
Context {H T : Type} (onProgress : Z → Sys → H → H) (jobKey : string).
Context (f : world H → T).
(** [f] does not read the clock, the caller's state, the pool key, the
    destroy log or the entry of [jobKey] in [activeJobs]. *)
Hypothesis Hclock : ∀ m s h t, f (World m (MkSys t (tmpdirs s)) h) = f (World m s h).
Hypothesis Hhost : ∀ m s h h', f (World m s h') = f (World m s h).
Hypothesis Hkey : ∀ m s h k, f (World (set_poolKey k m) s h) = f (World m s h).
Hypothesis Hdestroy : ∀ m s h, f (World (log_destroy jobKey m) s h) = f (World m s h).
Hypothesis Hset : ∀ m s h v,
  f (World (set_activeJobs (map_set jobKey v) m) s h) = f (World m s h).

Lemma inv_progress p : preserves f (progress onProgress p).
Proof. apply preserves_modify. intros [m s h]. apply Hhost. Qed.
Lemma inv_step {A} e st (o : outcome A) : preserves f (@step H A e st o).
Proof.
  unfold step. apply preserves_bind; [|intros; apply preserves_await].
  apply preserves_modify. intros [m s h]. apply Hclock.
Qed.
Lemma inv_clock k : preserves f (@on_sys H (λ s, MkSys (k s) (tmpdirs s))).
Proof. apply preserves_modify. intros [m s h]. apply Hclock. Qed.

Ltac keep :=
  repeat first
    [ apply inv_step | apply inv_progress | apply inv_clock
    | apply preserves_ret | apply preserves_throw
    | apply preserves_await | apply preserves_gets
    | apply preserves_if
    | apply preserves_modify; intros [? ? ?]; first [apply Hkey | apply Hdestroy | apply Hset]
    | apply preserves_bind; [|intros ?] ].

Lemma inv_run_ticks e n t0 ts : preserves f (run_ticks onProgress e n t0 ts).
Proof.
  induction ts as [|a r IH]; cbn [run_ticks]; [apply preserves_ret|].
  apply preserves_bind; [|intros _; exact IH]. unfold tick.
  apply preserves_bind; [apply inv_clock|intros _]. keep.
Qed.

Lemma inv_try e wf dir :
  JobTranslator.jobUUID wf = jobKey →
  preserves f (processJob_try onProgress e wf dir).
Proof.
  intros Hj. unfold processJob_try.
  apply preserves_bind; [|intros segs; apply preserves_bind; [|intros _]].
  - unfold submit, on_pm. rewrite Hj. keep.
  - unfold monitor. apply preserves_bind; [apply preserves_gets|intros t0].
    apply preserves_bind; [apply preserves_gets|intros m].
    apply preserves_bind; [apply inv_run_ticks|intros _].
    apply preserves_bind; [apply inv_clock|intros _; apply preserves_await].
  - unfold extract, on_pm. rewrite Hj. keep.
Qed.
End PoolInvariant.

Section PoolRuns.
Import PoolManager.
Context {H : Type} (onProgress : Z → Sys → H → H).
Implicit Types (e : env) (w : world H).

Ltac mstep :=
  cbv [step progress on_pm on_sys bind ret await modify gets throw
       pm sys host negb set_poolKey set_activeJobs log_destroy segmentTimeoutMs];
  cbn [fst snd].

Lemma extract_destroys e wf dir w r w1 :
  extract onProgress e wf dir w = (Returned r, w1) →
  JobTranslator.jobUUID wf ∈ destroyed (pm w1).
Proof.
  destruct w as [m s h]. unfold extract. mstep.
  destruct (extractOutput e); [|discriminate]. mstep.
  destruct (poolDestroy e); [|discriminate]. mstep.
  intros [= _ <-]. cbn. apply elem_of_app. right. constructor.
Qed.

Lemma try_destroys e wf dir w r w1 :
  processJob_try onProgress e wf dir w = (Returned r, w1) →
  JobTranslator.jobUUID wf ∈ destroyed (pm w1).
Proof.
  unfold processJob_try.
  destruct (submit onProgress e wf dir w) as [[segs|err] w2] eqn:Hsub.
  2: { rewrite (bind_threw _ _ _ _ _ Hsub). discriminate. }
  rewrite (bind_returned _ _ _ _ _ Hsub).
  destruct (monitor onProgress e (length segs) w2) as [[out|err] w3] eqn:Hmon.
  2: { rewrite (bind_threw _ _ _ _ _ Hmon). discriminate. }
  rewrite (bind_returned _ _ _ _ _ Hmon). apply extract_destroys.
Qed.

(** X17.  Whatever step fails or succeeds after [mkdtemp], when
    [processJob] is done its job is not in [activeJobs], every other entry
    is as before, [pool.destroy()] was called for it, and the swarm and the
    configured timeout are unchanged. *)
Theorem pool_processJob_releases_job e wf w dir :
  mkdtemp e = Returned dir →
  let r := processJob onProgress e wf w in
  activeJobs (pm r.2) = map_delete (JobTranslator.jobUUID wf) (activeJobs (pm w))
  ∧ JobTranslator.jobUUID wf ∈ destroyed (pm r.2)
  ∧ swarm (pm r.2) = swarm (pm w)
  ∧ segmentTimeoutMs (pm r.2) = segmentTimeoutMs (pm w).
Proof.
  intros Hd. cbv zeta. rewrite (processJob_unfold onProgress e wf w dir Hd). cbv zeta.
  set (j := JobTranslator.jobUUID wf). set (w0 := World _ _ _).
  pose proof (inv_try onProgress j (λ w, map_delete j (activeJobs (pm w)))
    ltac:(reflexivity) ltac:(reflexivity) ltac:(reflexivity) ltac:(reflexivity)
    ltac:(intros; cbn; apply map_delete_set) e wf dir eq_refl w0) as Ha.
  pose proof (inv_try onProgress j (λ w, swarm (pm w))
    ltac:(reflexivity) ltac:(reflexivity) ltac:(reflexivity) ltac:(reflexivity)
    ltac:(reflexivity) e wf dir eq_refl w0) as Hs.
  pose proof (inv_try onProgress j (λ w, segmentTimeoutMs (pm w))
    ltac:(reflexivity) ltac:(reflexivity) ltac:(reflexivity) ltac:(reflexivity)
    ltac:(reflexivity) e wf dir eq_refl w0) as Ht.
  pose proof (try_destroys e wf dir w0) as Hdes.
  destruct (processJob_try onProgress e wf dir w0) as [[r|err] w1];
    cbn [fst snd pm] in *.
  - split; [exact Ha|]. split; [exact (Hdes r w1 eq_refl)|]. split; assumption.
  - split; [exact Ha|]. split; [|split; assumption].
    cbn. apply elem_of_app. right. constructor.
Qed.

Lemma processJob_workspace e wf w dir :
  mkdtemp e = Returned dir →
  tmpdirs (sys (processJob onProgress e wf w).2) = {[dir]} ∪ tmpdirs (sys w).
Proof.
  intros Hd. rewrite (processJob_unfold onProgress e wf w dir Hd). cbv zeta.
  set (w0 := World _ _ _).
  pose proof (inv_try onProgress (JobTranslator.jobUUID wf) (λ w, tmpdirs (sys w))
    ltac:(reflexivity) ltac:(reflexivity) ltac:(reflexivity) ltac:(reflexivity)
    ltac:(reflexivity) e wf dir eq_refl w0) as Hs.
  destruct (processJob_try onProgress e wf dir w0) as [[r|err] w1];
    cbn [fst snd sys] in *; exact Hs.
Qed.

Lemma extract_result e wf dir w r w1 :
  extract onProgress e wf dir w = (Returned r, w1) →
  r = PoolResult (dir +:+ "/output.mp4") dir.
Proof.
  destruct w as [m s h]. unfold extract. mstep.
  destruct (extractOutput e); [|discriminate]. mstep.
  destruct (poolDestroy e); [|discriminate]. mstep.
  now intros [= <- _].
Qed.

Lemma processJob_result e wf w r w' :
  processJob onProgress e wf w = (Returned r, w') →
  ∃ dir, mkdtemp e = Returned dir ∧ r = PoolResult (dir +:+ "/output.mp4") dir.
Proof.
  destruct (mkdtemp e) as [dir|] eqn:Hd.
  2: { unfold processJob, step, on_sys, modify, bind, await. rewrite Hd. discriminate. }
  rewrite (processJob_unfold onProgress e wf w dir Hd). cbv zeta.
  set (w0 := World _ _ _). unfold processJob_try.
  destruct (submit onProgress e wf dir w0) as [[segs|err] w2] eqn:Hsub.
  2: { rewrite (bind_threw _ _ _ _ _ Hsub). discriminate. }
  rewrite (bind_returned _ _ _ _ _ Hsub).
  destruct (monitor onProgress e (length segs) w2) as [[out|err] w3] eqn:Hmon.
  2: { rewrite (bind_threw _ _ _ _ _ Hmon). discriminate. }
  rewrite (bind_returned _ _ _ _ _ Hmon).
  destruct (extract onProgress e wf dir w3) as [[res|err] w4] eqn:Hext; [|discriminate].
  intros [= <- _]. exists dir. split; [reflexivity|]. eapply extract_result, Hext.
Qed.

(** X18.  [processJob] never removes its workspace: when [mkdtemp]
    returned, the directory is on disk afterwards whether the run returned
    or threw, and a returned result names it; when [mkdtemp] throws,
    nothing else happened. *)
Theorem pool_processJob_keeps_workspace e wf w :
  let r := processJob onProgress e wf w in
  match mkdtemp e with
  | Returned dir =>
      tmpdirs (sys r.2) = {[dir]} ∪ tmpdirs (sys w)
      ∧ (∀ res, r.1 = Returned res → res = PoolResult (dir +:+ "/output.mp4") dir)
  | Threw err =>
      r.1 = Threw err ∧ pm r.2 = pm w ∧ host r.2 = host w
      ∧ tmpdirs (sys r.2) = tmpdirs (sys w)
  end.
Proof.
  cbv zeta. destruct (mkdtemp e) as [dir|err] eqn:Hd.
  - split; [now apply processJob_workspace|].
    intros res Hres.
    destruct (processJob onProgress e wf w) as [o w'] eqn:Hrun. cbn [fst] in Hres. subst o.
    destruct (processJob_result e wf w res w' Hrun) as (dir' & Hd' & ->). congruence.
  - unfold processJob, step, on_sys, modify, bind, await. rewrite Hd.
    destruct w as [m s h]. repeat split.
Qed.
End PoolRuns.
Section ProgressAny.
Import PoolManager.
Implicit Types (e : env) (w : world (list Z)).

Ltac mstep :=
  cbv [step progress on_pm on_sys bind ret await modify gets throw
       pm sys host negb set_poolKey set_activeJobs log_destroy segmentTimeoutMs
       record_progress];
  cbn [fst snd].

Lemma submit_log_prefix e wf dir w :
  ∃ l, l `prefix_of` [0; 2; 8; 10]
       ∧ host (submit record_progress e wf dir w).2 = host w ++ l.
Proof.
  destruct w as [m s h]. unfold submit. mstep.
  destruct (createPoolDrive e); mstep; [|exists [0]; split; [by exists [2; 8; 10]|reflexivity]].
  destruct (pipeSource e); mstep; [|exists [0]; split; [by exists [2; 8; 10]|reflexivity]].
  destruct (extractMetadata e); mstep; [|exists [0]; split; [by exists [2; 8; 10]|reflexivity]].
  destruct (segment e); mstep;
    [|exists [0; 2]; split; [by exists [8; 10]|cbn [host]; now rewrite <- !app_assoc]].
  destruct (demux e); mstep;
    [|exists [0; 2; 8]; split; [by exists [10]|cbn [host]; now rewrite <- !app_assoc]].
  assert (Hfull : ∃ l, l `prefix_of` [0; 2; 8; 10]
            ∧ (((h ++ [0]) ++ [2]) ++ [8]) ++ [10] = h ++ l).
  { exists [0; 2; 8; 10]. split; [reflexivity|now rewrite <- !app_assoc]. }
  destruct (putSegments e); mstep; [|exact Hfull].
  destruct (putTracks e); mstep; [|exact Hfull].
  destruct (loadConfig e) as [[[] sg]|]; mstep; [| exact Hfull | exact Hfull].
  destruct (launch e); mstep; exact Hfull.
Qed.

Lemma monitor_log_any e n w :
  host (monitor record_progress e n w).2
  = host w ++ tick_values e n (ticks (wait_end e (pm w)).1).
Proof.
  unfold monitor.
  rewrite (bind_returned _ _ w (now (sys w)) w) by reflexivity.
  rewrite (bind_returned _ _ w (pm w) w) by reflexivity.
  destruct (run_ticks_log e n (now (sys w)) (ticks (wait_end e (pm w)).1) w)
    as (w2 & Hr & Hh).
  rewrite (bind_returned _ _ _ _ _ Hr).
  unfold bind, on_sys, modify, await. cbn [fst snd]. destruct w2. exact Hh.
Qed.

Lemma extract_log_any e wf dir w :
  ∃ l, (l = [95] ∨ l = [95; 100])
       ∧ host (extract record_progress e wf dir w).2 = host w ++ l.
Proof.
  destruct w as [m s h]. unfold extract. mstep.
  destruct (extractOutput e); mstep; [|exists [95]; split; [by left|reflexivity]].
  exists [95; 100]. split; [by right|].
  destruct (poolDestroy e); mstep; cbn [host]; now rewrite <- app_assoc.
Qed.

Lemma full_sequence_sorted e n end_ms :
  (∀ t1 t2, t1 ≤ t2 → (segmentsComplete e t1 ≤ segmentsComplete e t2)%nat) →
  StronglySorted Z.le (full_sequence e n end_ms)
  ∧ Forall (λ v, 0 ≤ v ≤ 100) (full_sequence e n end_ms).
Proof.
  intros Hseg. unfold full_sequence.
  set (mid := tick_values e n (ticks end_ms)).
  assert (Hb : Forall (λ v, 10 ≤ v ≤ 85) mid).
  { unfold mid, tick_values. destruct (0 <? n)%nat; [|constructor].
    apply Forall_fmap, Forall_forall. intros a _. now apply tick_percent_bounds. }
  split.
  - rewrite Forall_forall in Hb.
    repeat (apply StronglySorted_cons; split;
            [apply Forall_forall; intros x Hx;
             repeat (apply elem_of_cons in Hx as [->|Hx]; [lia|]);
             apply elem_of_app in Hx as [Hx|Hx];
             [specialize (Hb x Hx); lia|];
             repeat (apply elem_of_cons in Hx as [->|Hx]; [lia|]);
             now apply elem_of_nil in Hx|]).
    apply StronglySorted_app_2.
    + intros x1 x2 Hx1 Hx2. specialize (Hb x1 Hx1).
      repeat (apply elem_of_cons in Hx2 as [->|Hx2]; [lia|]).
      now apply elem_of_nil in Hx2.
    + apply tick_values_sorted; auto using ticks_sorted.
    + repeat constructor. lia.
  - repeat (apply Forall_cons; split; [lia|]). apply Forall_app. split.
    + eapply Forall_impl; [exact Hb|]. simpl. intros; lia.
    + repeat (apply Forall_cons; split; [lia|]). constructor.
Qed.

Lemma processJob_log_any e wf w :
  ∃ l n end_ms,
    host (processJob record_progress e wf w).2 = host w ++ l
    ∧ l `prefix_of` full_sequence e n end_ms
    ∧ (returned (processJob record_progress e wf w).1 = true →
       l = full_sequence e n end_ms).
Proof.
  destruct (mkdtemp e) as [dir|] eqn:Hd.
  2: { exists [], 0%nat, 0. unfold processJob, step, on_sys, modify, bind, await.
       rewrite Hd. cbn [fst snd host returned]. rewrite app_nil_r.
       split; [reflexivity|]. split; [apply prefix_nil|discriminate]. }
  rewrite (processJob_unfold _ e wf w dir Hd). cbv zeta.
  set (w0 := World _ _ _). change (host w) with (host w0).
  unfold processJob_try.
  destruct (submit_log_prefix e wf dir w0) as (l1 & Hp1 & Hh1).
  destruct (submit record_progress e wf dir w0) as [[segs|err] w1] eqn:Hsub.
  2: { rewrite (bind_threw _ _ _ _ _ Hsub). exists l1, 0%nat, 0. cbn [fst snd host] in *.
       split; [exact Hh1|]. split; [|discriminate].
       unfold full_sequence. now apply prefix_app_r. }
  rewrite (bind_returned _ _ _ _ _ Hsub).
  destruct (submit_log _ _ _ _ _ _ Hsub) as (_ & Hh1').
  pose proof (monitor_log_any e (length segs) w1) as Hh2.
  destruct (monitor record_progress e (length segs) w1) as [[out|err] w2] eqn:Hmon.
  2: { rewrite (bind_threw _ _ _ _ _ Hmon).
       exists ([0; 2; 8; 10] ++ tick_values e (length segs) (ticks (wait_end e (pm w1)).1)),
         (length segs), (wait_end e (pm w1)).1.
       cbn [fst snd host] in *. rewrite Hh2, Hh1', <- app_assoc.
       split; [reflexivity|]. split; [|discriminate]. unfold full_sequence.
       rewrite app_assoc. apply prefix_app_r. reflexivity. }
  rewrite (bind_returned _ _ _ _ _ Hmon).
  destruct (extract_log_any e wf dir w2) as (l3 & Hl3 & Hh3).
  pose proof (extract_log e wf dir w2) as Hret.
  exists ([0; 2; 8; 10] ++ tick_values e (length segs) (ticks (wait_end e (pm w1)).1) ++ l3),
    (length segs), (wait_end e (pm w1)).1.
  destruct (extract record_progress e wf dir w2) as [[res|err] w3] eqn:Hext;
    cbn [fst snd host returned] in *.
  - specialize (Hret res w3 eq_refl). rewrite Hret, Hh2, Hh1', <- !app_assoc.
    assert (l3 = [95; 100]) as ->.
    { rewrite Hret in Hh3. now apply app_inv_head in Hh3. }
    split; [reflexivity|]. split; reflexivity.
  - rewrite Hh3, Hh2, Hh1', <- !app_assoc. split; [reflexivity|].
    split; [|discriminate]. unfold full_sequence.
    apply prefix_app, prefix_app.
    destruct Hl3 as [-> | ->]; [by exists [100]|reflexivity].
Qed.

(** X19.  Also in a run that fails, at whatever step: the percentages
    handed to [onProgress] are an initial part of the sequence of a
    complete run, they never decrease and stay between 0 and 100 (provided
    the count of completed segments never decreases, as for C7). *)
Theorem pool_progress_never_decreases e wf m s :
  (∀ t1 t2, t1 ≤ t2 → (segmentsComplete e t1 ≤ segmentsComplete e t2)%nat) →
  let r := processJob record_progress e wf (World m s []) in
  (∃ n end_ms, host r.2 `prefix_of` full_sequence e n end_ms)
  ∧ StronglySorted Z.le (host r.2)
  ∧ Forall (λ v, 0 ≤ v ≤ 100) (host r.2).
Proof.
  intros Hseg. cbv zeta.
  destruct (processJob_log_any e wf (World m s [])) as (l & n & end_ms & Hh & Hp & _).
  cbn [host app] in Hh. rewrite Hh.
  destruct (full_sequence_sorted e n end_ms Hseg) as (Hsorted & Hbound).
  split; [by exists n, end_ms|].
  destruct Hp as [k Hk]. rewrite Hk in Hsorted, Hbound.
  split; [by apply StronglySorted_app_1_l in Hsorted|].
  by apply Forall_app in Hbound as [? _].
Qed.
End ProgressAny.

(** Scenario B with a pipeline timeout of 5000 ms: the run times out. *)
Lemma pool_processJob_releases_job_witness :
  let run := PoolManager.processJob PoolManager.record_progress Scenario.pipelineB
               Scenario.workflowA
               (PoolManager.World (PoolManager.new (Some 5000)) Scenario.start_of_time []) in
  run.1 = Threw (JobTimedOut 5000)
  ∧ PoolManager.activeJobs (PoolManager.pm run.2) = []
  ∧ "job-a" ∈ PoolManager.destroyed (PoolManager.pm run.2).
Proof.
  intros run.
  pose proof (pool_processJob_releases_job PoolManager.record_progress Scenario.pipelineB
                Scenario.workflowA
                (PoolManager.World (PoolManager.new (Some 5000)) Scenario.start_of_time [])
                "/tmp/ptsn-pool1" eq_refl) as Hrel.
  cbv zeta in Hrel. destruct Hrel as (Hactive & Hdestroyed & _).
  split; [vm_compute; reflexivity|]. split; [|exact Hdestroyed].
  unfold run. rewrite Hactive. reflexivity.
Defined.

Lemma pool_progress_never_decreases_witness :
  let run := PoolManager.processJob PoolManager.record_progress Scenario.pipelineB
               Scenario.workflowA
               (PoolManager.World (PoolManager.new (Some 5000)) Scenario.start_of_time []) in
  PoolManager.host run.2 = [0; 2; 8; 10; 35; 60]
  ∧ StronglySorted Z.le (PoolManager.host run.2).
Proof.
  intros run.
  pose proof (pool_progress_never_decreases Scenario.pipelineB Scenario.workflowA
                (PoolManager.new (Some 5000)) Scenario.start_of_time
                completed_monotone) as Hlog.
  cbv zeta in Hlog. destruct Hlog as (_ & Hsorted & _).
  split; [vm_compute; reflexivity|exact Hsorted].
Defined.

(** ** Bridge: what poll requests *)

Section PollRequests.
Import Bridge.
Implicit Types (b : Bridge.t) (e : poll_env) (j : job).

Lemma others_client evs b :
  runnerClient (others evs b).2 = runnerClient b
  ∧ failedJobs b ⊆ failedJobs (others evs b).2.
Proof.
  unfold others, modify. cbn [snd].
  revert b. induction evs as [|ev r IH]; intros b; [split; reflexivity|].
  cbn [foldl]. destruct (IH (match ev with
                             | MarksFailed j => set_failedJobs (union {[j]}) b
                             | Leaves j => set_activeJobs (delete j) b
                             end)) as (Hc & Hf).
  rewrite Hc. split; [destruct ev; reflexivity|].
  etransitivity; [|exact Hf]. destruct ev; cbn; [apply union_subseteq_r|reflexivity].
Qed.

Lemma accept_sends r id b :
  ∃ o c, on_client (RunnerClient.acceptJob r id) b = (o, set_runnerClient c b)
    ∧ RunnerClient.url c = RunnerClient.url (runnerClient b)
    ∧ RunnerClient.runnerToken c = RunnerClient.runnerToken (runnerClient b)
    ∧ RunnerClient.requests c
      = RunnerClient.requests (runnerClient b) ++ [accept_request b id].
Proof.
  unfold on_client, zoom, RunnerClient.acceptJob, RunnerClient.fetch, RunnerClient.checked,
    accept_request, RunnerClient._apiUrl.
  munfold. destruct r as [msg|[] st txt tok]; cbn; eexists _, _; repeat split.
Qed.

Lemma admission_requests e (b : Bridge.t) jobs : ∀ k b0,
  RunnerClient.url (runnerClient b0) = RunnerClient.url (runnerClient b) →
  RunnerClient.runnerToken (runnerClient b0) = RunnerClient.runnerToken (runnerClient b) →
  failedJobs b ⊆ failedJobs b0 →
  ∃ ids,
    RunnerClient.requests (runnerClient (admission e k jobs b0).2)
    = RunnerClient.requests (runnerClient b0) ++ (accept_request b <$> ids)
    ∧ ids `sublist_of`
        (uuid <$> filter (λ j, JobTranslator.isSupported (type j) = true
                               ∧ uuid j ∉ failedJobs b) jobs).
Proof.
  induction jobs as [|j rest IH]; intros k b0 Hu Ht Hf.
  { exists []. cbn. rewrite app_nil_r. split; [reflexivity|constructor]. }
  cbn [admission].
  rewrite (bind_returned _ _ b0 (at_capacity b0) b0) by reflexivity.
  destruct (at_capacity b0).
  { exists []. cbn [snd ret fmap list_fmap]. rewrite app_nil_r.
    split; [reflexivity|apply sublist_nil_l]. }
  assert (Hskip : ∀ d,
    ∃ ids,
      RunnerClient.requests
        (runnerClient (bind (decided j d) (λ _, admission e k rest) b0).2)
      = RunnerClient.requests (runnerClient b0) ++ (accept_request b <$> ids)
      ∧ ids `sublist_of`
          (uuid <$> filter (λ j, JobTranslator.isSupported (type j) = true
                                 ∧ uuid j ∉ failedJobs b) (j :: rest))).
  { intros d.
    set (b1 := write (Decided (uuid j) d (size (activeJobs b0))) b0).
    rewrite (bind_returned _ _ b0 () b1) by reflexivity.
    destruct (IH k b1 Hu Ht Hf) as (ids & Hreq & Hsub).
    exists ids. split; [exact Hreq|].
    rewrite filter_cons. case_decide; [|exact Hsub].
    cbn [fmap list_fmap]. now apply sublist_cons. }
  destruct (JobTranslator.isSupported (type j)) eqn:Hsup; cbn [negb]; [|apply Hskip].
  rewrite (bind_returned _ _ b0 (bool_decide (uuid j ∈ failedJobs b0)) b0) by reflexivity.
  destruct (bool_decide (uuid j ∈ failedJobs b0)) eqn:Hfailed; [apply Hskip|].
  apply bool_decide_eq_false in Hfailed.
  assert (Hadm : JobTranslator.isSupported (type j) = true ∧ uuid j ∉ failedJobs b).
  { split; [exact Hsup|]. intros Hin. apply Hfailed, Hf, Hin. }
  destruct (others_client (meanwhile e k) b0) as (Hc1 & Hf1).
  destruct (others_spec (meanwhile e k) b0) as (b1 & Ho & _).
  rewrite Ho in Hc1, Hf1. cbn [snd] in Hc1, Hf1.
  rewrite (bind_returned _ _ _ _ _ Ho).
  destruct (accept_sends (acceptJob_reply e (uuid j)) (uuid j) b1)
    as (o & c & Hacc & Hcu & Hct & Hcr).
  assert (Hreq1 : RunnerClient.requests c
                  = RunnerClient.requests (runnerClient b0) ++ [accept_request b (uuid j)]).
  { rewrite Hcr, Hc1. unfold accept_request. now rewrite Hc1, Hu, Ht. }
  rewrite filter_cons_True by exact Hadm. cbn [fmap list_fmap].
  destruct o as [tok|err].
  2: { rewrite (bind_threw _ _ _ _ _ Hacc). exists [uuid j]. cbn [snd runnerClient set_runnerClient].
       split; [exact Hreq1|]. apply sublist_skip, sublist_nil_l. }
  rewrite (bind_returned _ _ _ _ _ Hacc).
  set (b2 := set_runnerClient c b1).
  set (b3 := set_activeJobs (insert (uuid j) (ActiveJob (type j) (now (sys b2)))) b2).
  rewrite (bind_returned _ _ b2 () b3) by reflexivity.
  set (b4 := write (Decided (uuid j) Accepted (size (activeJobs b3))) b3).
  rewrite (bind_returned _ _ b3 () b4) by reflexivity.
  destruct (IH (S k) b4) as (ids & Hreq & Hsub).
  { cbn. now rewrite Hcu, Hc1. }
  { cbn. now rewrite Hct, Hc1. }
  { exact (transitivity Hf Hf1). }
  exists (uuid j :: ids). split; [|now apply sublist_skip].
  rewrite Hreq. cbn [b4 b3 b2 runnerClient write set_activeJobs set_runnerClient].
  rewrite Hreq1, <- app_assoc. reflexivity.
Qed.

Lemma poll_requests e b :
  sent_since b (poll e b).2 = []
  ∨ ∃ ids,
      sent_since b (poll e b).2
      = job_request b :: (accept_request b <$> ids)
      ∧ ids `sublist_of`
          (uuid <$> filter (λ j, JobTranslator.isSupported (type j) = true
                                 ∧ uuid j ∉ failedJobs b) (offered e)).
Proof.
  unfold sent_since, poll, job_request.
  rewrite (bind_returned _ _ b (isRunning b) b) by reflexivity.
  destruct (isRunning b); cbn [negb]; [|left; apply drop_all].
  rewrite (bind_returned _ _ b (HealthMonitor.isHealthy (healthMonitor b)) b) by reflexivity.
  destruct (HealthMonitor.isHealthy (healthMonitor b)); cbn [negb]; [|left; apply drop_all].
  rewrite (bind_returned _ _ b (at_capacity b) b) by reflexivity.
  destruct (at_capacity b); [left; apply drop_all|].
  right. unfold try_catch.
  destruct (others_client (meanwhile e 0) b) as (Hc1 & Hf1).
  destruct (others_spec (meanwhile e 0) b) as (b1 & Ho & _).
  rewrite Ho in Hc1, Hf1. cbn [snd] in Hc1, Hf1.
  rewrite (bind_returned _ _ _ _ _ Ho).
  set (rq := RunnerClient.Request _ _).
  assert (Hreq : ∃ o c, on_client (RunnerClient.requestJob (requestJob_reply e)) b1
                   = (o, set_runnerClient c b1)
                 ∧ o = match requestJob_reply e with
                       | Reply true _ _ jobs => Returned jobs
                       | Reply false st txt _ => Threw (HttpFailed "Request job" st txt)
                       | NetworkError msg => Threw (Rejected msg)
                       end
                 ∧ RunnerClient.url c = RunnerClient.url (runnerClient b)
                 ∧ RunnerClient.runnerToken c = RunnerClient.runnerToken (runnerClient b)
                 ∧ RunnerClient.requests c = RunnerClient.requests (runnerClient b) ++ [rq]).
  { unfold on_client, zoom, RunnerClient.requestJob, RunnerClient.fetch, RunnerClient.checked,
      RunnerClient._apiUrl. munfold. rewrite Hc1.
    destruct (requestJob_reply e) as [msg|[] st txt jobs]; cbn; eexists _, _; repeat split. }
  destruct Hreq as (o & c & Hreq & -> & Hcu & Hct & Hcr).
  unfold offered.
  destruct (requestJob_reply e) as [msg|[] st txt jobs].
  - rewrite (bind_threw _ _ _ _ _ Hreq). exists []. cbn. rewrite Hcr, drop_app_length.
    split; [reflexivity|constructor].
  - rewrite (bind_returned _ _ _ _ _ Hreq).
    destruct (admission_requests e b jobs 1%nat (set_runnerClient c b1) Hcu Hct Hf1)
      as (ids & Hadm & Hsub).
    exists ids. split; [|exact Hsub].
    destruct (admission e 1 jobs (set_runnerClient c b1)) as [[[]|err] b3];
      unfold modify; cbn [fst snd runnerClient set_runnerClient write] in *;
      rewrite Hadm, Hcr, <- app_assoc, drop_app_length; reflexivity.
  - rewrite (bind_threw _ _ _ _ _ Hreq). exists []. cbn. rewrite Hcr, drop_app_length.
    split; [reflexivity|constructor].
Qed.
(** X20.  A call of [poll] sends nothing, or the job request followed by
    accept requests only; the accepted ids are, in order, among the offered
    jobs of a supported type that were not in the failed set when the call
    began. *)
Theorem poll_requests_only_admissible_jobs e b :
  sent_since b (poll e b).2 = []
  ∨ ∃ ids,
      sent_since b (poll e b).2
      = job_request b :: (accept_request b <$> ids)
      ∧ ids `sublist_of`
          (uuid <$> filter (λ j, JobTranslator.isSupported (type j) = true
                                 ∧ uuid j ∉ failedJobs b) (offered e)).
Proof. apply poll_requests. Qed.
End PollRequests.

(** ** Bridge: shutdown and the life cycle *)

Section ShutdownFacts.
Import Bridge.
Implicit Types (b : Bridge.t) (e : shutdown_env).

Lemma set_runnerClient_same b : set_runnerClient (runnerClient b) b = b.
Proof. destruct b. reflexivity. Qed.

Ltac nothing_sent b :=
  exists (runnerClient b), []; rewrite set_runnerClient_same, app_nil_r;
  split; [reflexivity|]; split; [reflexivity|]; split; [reflexivity|];
  split; [reflexivity|]; split; [reflexivity|]; constructor.

Lemma report_all_spec e ids : ∀ b,
  ∃ c reports,
    report_all e ids b = (Returned (), set_runnerClient c b)
    ∧ RunnerClient.url c = RunnerClient.url (runnerClient b)
    ∧ RunnerClient.runnerToken c = RunnerClient.runnerToken (runnerClient b)
    ∧ RunnerClient.jobTokens c ⊆ RunnerClient.jobTokens (runnerClient b)
    ∧ RunnerClient.requests c = RunnerClient.requests (runnerClient b) ++ reports
    ∧ Forall (λ rq, ∃ id tok, id ∈ ids
                ∧ RunnerClient.jobTokens (runnerClient b) !! id = Some tok ∧ tok ≠ ""
                ∧ rq = shutdown_report b id tok) reports.
Proof.
  induction ids as [|j rest IH]; intros b.
  { nothing_sent b. }
  cbn [report_all].
  assert (Hone : ∃ c reports,
    swallow
      (bind (gets (λ b, bool_decide (is_Some (RunnerClient.jobTokens (runnerClient b) !! j))))
         (λ has, if negb has then ret ()
                 else on_client (RunnerClient.postError (shutdown_postError_reply e j) j
                                   "Runner shutting down"))) b
    = (Returned (), set_runnerClient c b)
    ∧ RunnerClient.url c = RunnerClient.url (runnerClient b)
    ∧ RunnerClient.runnerToken c = RunnerClient.runnerToken (runnerClient b)
    ∧ RunnerClient.jobTokens c ⊆ RunnerClient.jobTokens (runnerClient b)
    ∧ RunnerClient.requests c = RunnerClient.requests (runnerClient b) ++ reports
    ∧ Forall (λ rq, ∃ tok, RunnerClient.jobTokens (runnerClient b) !! j = Some tok ∧ tok ≠ ""
                ∧ rq = shutdown_report b j tok) reports).
  { unfold swallow, bind, gets. cbn [fst snd].
    destruct (RunnerClient.jobTokens (runnerClient b) !! j) as [tok|] eqn:Htok.
    2: { rewrite bool_decide_eq_false_2 by (intros [? ?]; discriminate). cbn.
         nothing_sent b. }
    rewrite bool_decide_eq_true_2 by eauto. cbn [negb].
    unfold on_client, zoom, RunnerClient.postError, RunnerClient._jobToken,
      RunnerClient.fetch, RunnerClient.checked, RunnerClient._apiUrl, shutdown_report.
    munfold. rewrite Htok.
    destruct (decide (tok = "")) as [->|Hne]; cbn.
    { nothing_sent b. }
    destruct (shutdown_postError_reply e j) as [msg|[] st txt []]; cbn;
      eexists _, [_]; (split; [reflexivity|]); cbn;
      (split; [reflexivity|]); (split; [reflexivity|]);
      (split; [first [reflexivity | apply delete_subseteq]|]);
      (split; [reflexivity|]); repeat constructor; exists tok; auto. }
  destruct Hone as (c1 & r1 & Hrun1 & Hu1 & Ht1 & Hj1 & Hq1 & Hall1).
  rewrite (bind_returned _ _ _ _ _ Hrun1).
  destruct (IH (set_runnerClient c1 b)) as (c2 & r2 & Hrun2 & Hu2 & Ht2 & Hj2 & Hq2 & Hall2).
  cbn [runnerClient set_runnerClient] in *.
  exists c2, (r1 ++ r2). rewrite Hrun2.
  split; [destruct b; reflexivity|].
  split; [congruence|]. split; [congruence|].
  split; [etransitivity; eassumption|].
  split; [rewrite Hq2, Hq1, app_assoc; reflexivity|].
  apply Forall_app. split.
  - eapply Forall_impl; [exact Hall1|]. cbn. intros rq (tok & Htok & Hne & ->).
    exists j, tok. repeat split; auto. constructor.
  - eapply Forall_impl; [exact Hall2|]. cbn. intros rq (id & tok & Hid & Htok & Hne & ->).
    exists id, tok. split; [now constructor|].
    split; [eapply lookup_weaken; eassumption|]. split; [exact Hne|].
    unfold shutdown_report. cbn [runnerClient set_runnerClient]. now rewrite Hu1, Ht1.
Qed.

Lemma on_pool_destroy e b :
  ∃ m s,
    on_pool (PoolManager.destroy (shutdown_rm_ok e) (swarmDestroy e) (storeClose e)) b
    = (destroy_outcome e b, set_poolManager m (set_sys s b))
    ∧ PoolManager.activeJobs m = [].
Proof.
  unfold on_pool, zoom, destroy_outcome.
  pose proof (destroy_facts (shutdown_rm_ok e) (swarmDestroy e) (storeClose e)
                (PoolManager.World (poolManager b) (sys b) b)) as (Ha & _ & Ho & _ & Hh).
  destruct (PoolManager.destroy _ _ _ _) as [o [m s h]]. cbn [fst snd] in *.
  cbn [PoolManager.pm PoolManager.sys PoolManager.host] in *. subst h o.
  exists m, s. split; [reflexivity|exact Ha].
Qed.

Lemma gracefulShutdown_facts e b :
  ∃ c reports m s,
    RunnerClient.url c = RunnerClient.url (runnerClient b)
    ∧ RunnerClient.runnerToken c = RunnerClient.runnerToken (runnerClient b)
    ∧ RunnerClient.requests c = RunnerClient.requests (runnerClient b) ++ reports
    ∧ Forall (λ rq, ∃ id tok, id ∈ (PoolManager.activeJobs (poolManager b)).*1
                ∧ RunnerClient.jobTokens (runnerClient b) !! id = Some tok ∧ tok ≠ ""
                ∧ rq = shutdown_report b id tok) reports
    ∧ PoolManager.activeJobs m = []
    ∧ let b5 :=
        set_poolManager m (set_sys s (set_runnerClient c
          (write (LogInfo "Health monitor stopped")
             (set_healthMonitor HealthMonitor.stop
                (write (LogInfo "Graceful shutdown initiated") b))))) in
      gracefulShutdown e b
      = match destroy_outcome e b with
        | Threw err => (Threw err, b5)
        | Returned _ =>
            let b8 := write (LogInfo "Watchdog timers cleared")
                        (set_watchdog JobWatchdog.clearAll
                           (write (LogInfo "Pool manager destroyed") b5)) in
            let u := RunnerClient.unregister (unregister_reply e) c in
            let b9 := set_runnerClient u.2 b8 in
            (Returned (),
             write (LogInfo "Shutdown complete")
               (if returned u.1 then write (LogInfo "Unregistered from PeerTube") b9 else b9))
        end.
Proof.
  unfold gracefulShutdown.
  set (b1 := write (LogInfo "Graceful shutdown initiated") b).
  rewrite (bind_returned _ _ b () b1) by reflexivity.
  set (b2 := set_healthMonitor HealthMonitor.stop b1).
  rewrite (bind_returned _ _ b1 () b2) by reflexivity.
  set (b3 := write (LogInfo "Health monitor stopped") b2).
  rewrite (bind_returned _ _ b2 () b3) by reflexivity.
  rewrite (bind_returned _ _ b3 ((PoolManager.activeJobs (poolManager b)).*1) b3) by reflexivity.
  destruct (report_all_spec e ((PoolManager.activeJobs (poolManager b)).*1) b3)
    as (c & reports & Hrep & Hu & Ht & _ & Hq & Hall).
  rewrite (bind_returned _ _ _ _ _ Hrep).
  destruct (on_pool_destroy e (set_runnerClient c b3)) as (m & s & Hd & Ha).
  exists c, reports, m, s.
  split; [exact Hu|]. split; [exact Ht|]. split; [exact Hq|]. split; [exact Hall|].
  split; [exact Ha|]. cbv zeta.
  change (destroy_outcome e (set_runnerClient c b3)) with (destroy_outcome e b) in Hd.
  destruct (destroy_outcome e b) as [[]|err].
  2: { rewrite (bind_threw _ _ _ _ _ Hd). reflexivity. }
  rewrite (bind_returned _ _ _ _ _ Hd).
  set (b5 := set_poolManager m (set_sys s (set_runnerClient c b3))).
  set (b6 := write (LogInfo "Pool manager destroyed") b5).
  rewrite (bind_returned _ _ b5 () b6) by reflexivity.
  set (b7 := set_watchdog JobWatchdog.clearAll b6).
  rewrite (bind_returned _ _ b6 () b7) by reflexivity.
  set (b8 := write (LogInfo "Watchdog timers cleared") b7).
  rewrite (bind_returned _ _ b7 () b8) by reflexivity.
  unfold try_catch, bind, on_client, zoom, modify, ret.
  change (runnerClient b8) with c.
  destruct (RunnerClient.unregister (unregister_reply e) c) as [[[]|err] c']; reflexivity.
Qed.

(** X22.  [gracefulShutdown] ends exactly as [poolManager.destroy()] does.
    In every case the health monitor is stopped, the pool manager holds no
    job and the tables of the bridge are untouched.  When [destroy()]
    returns, the watchdog is cleared, the log ends with "Shutdown complete"
    and the runner token is dropped exactly when the unregistration
    succeeded; when it throws, the watchdog and the runner token are as
    before. *)
Theorem shutdown_outcome_is_destroy_outcome e b :
  let r := gracefulShutdown e b in
  r.1 = destroy_outcome e b
  ∧ HealthMonitor.interval (healthMonitor r.2) = false
  ∧ PoolManager.activeJobs (poolManager r.2) = []
  ∧ isRunning r.2 = isRunning b ∧ activeJobs r.2 = activeJobs b
  ∧ failedJobs r.2 = failedJobs b
  ∧ match destroy_outcome e b with
    | Returned _ =>
        watchdog r.2 = JobWatchdog.clearAll (watchdog b)
        ∧ last (log r.2) = Some (LogInfo "Shutdown complete")
        ∧ RunnerClient.runnerToken (runnerClient r.2)
          = match unregister_reply e with
            | Reply true _ _ _ => None
            | _ => RunnerClient.runnerToken (runnerClient b)
            end
    | Threw _ =>
        watchdog r.2 = watchdog b
        ∧ last (log r.2) = Some (LogInfo "Health monitor stopped")
        ∧ RunnerClient.runnerToken (runnerClient r.2)
          = RunnerClient.runnerToken (runnerClient b)
    end.
Proof.
  cbv zeta.
  destruct (gracefulShutdown_facts e b) as (c & reports & m & s & Hu & Ht & Hq & Hall & Ha & Hrun).
  cbv zeta in Hrun. rewrite Hrun. clear Hrun.
  destruct (destroy_outcome e b) as [[]|err]; cbn [fst snd].
  - split; [reflexivity|].
    assert (Hunreg : RunnerClient.runnerToken
                       (RunnerClient.unregister (unregister_reply e) c).2
                     = match unregister_reply e with
                       | Reply true _ _ _ => None
                       | _ => RunnerClient.runnerToken (runnerClient b)
                       end).
    { rewrite <- Ht. unfold RunnerClient.unregister, RunnerClient.fetch, RunnerClient.checked.
      munfold. destruct (unregister_reply e) as [msg|[] st txt []]; reflexivity. }
    destruct (returned (RunnerClient.unregister (unregister_reply e) c).1);
      cbn; rewrite ?last_snoc; repeat split; auto.
  - cbn. rewrite ?last_snoc. repeat split; auto.
Qed.

(** X23.  What a shutdown sends: error reports "Runner shutting down" only
    for jobs of the pool manager that hold a non-empty job token, each with
    that token, and then, when [destroy()] returned, the unregistration. *)
Theorem shutdown_reports_only_jobs_with_token e b :
  ∃ reports,
    sent_since b (gracefulShutdown e b).2
    = reports ++ (if returned (destroy_outcome e b) then [unregister_request b] else [])
    ∧ Forall (λ rq, ∃ id tok,
                id ∈ (PoolManager.activeJobs (poolManager b)).*1
                ∧ RunnerClient.jobTokens (runnerClient b) !! id = Some tok ∧ tok ≠ ""
                ∧ rq = shutdown_report b id tok) reports.
Proof.
  destruct (gracefulShutdown_facts e b) as (c & reports & m & s & Hu & Ht & Hq & Hall & Ha & Hrun).
  cbv zeta in Hrun. exists reports. split; [|exact Hall].
  unfold sent_since. rewrite Hrun. clear Hrun.
  destruct (destroy_outcome e b) as [[]|err]; cbn [fst snd returned].
  - assert (Hunreg : RunnerClient.requests (RunnerClient.unregister (unregister_reply e) c).2
                     = RunnerClient.requests c ++ [unregister_request b]).
    { unfold unregister_request. rewrite <- Hu, <- Ht.
      unfold RunnerClient.unregister, RunnerClient.fetch, RunnerClient.checked,
        RunnerClient._apiUrl.
      munfold. destruct (unregister_reply e) as [msg|[] st txt []]; reflexivity. }
    destruct (returned (RunnerClient.unregister (unregister_reply e) c).1);
      cbn [runnerClient write set_runnerClient];
      rewrite Hunreg, Hq, <- app_assoc, drop_app_length; reflexivity.
  - cbn. rewrite Hq, drop_app_length, app_nil_r. reflexivity.
Qed.


End ShutdownFacts.

(** ** Bridge: the runs of processJob

    Again one run is followed on its own. *)

Lemma bind_inv {S A B} (c : M S A) (k : A → M S B) s b s' :
  bind c k s = (Returned b, s') →
  ∃ a s1, c s = (Returned a, s1) ∧ k a s1 = (Returned b, s').
Proof.
  unfold bind. destruct (c s) as [[a|err] s1]; [|discriminate]. eauto.
Qed.

Section RunFacts.
Import Bridge.
Implicit Types (b : Bridge.t) (e : job_env) (id : string) (fr : frame).

Lemma on_self_inv {A} (c : M Bridge.t A) fr o fr' :
  on_self c fr = (o, fr') →
  c (self fr) = (o, self fr') ∧ tempDir fr' = tempDir fr ∧ poolTempDir fr' = poolTempDir fr.
Proof.
  unfold on_self, zoom. destruct (c (self fr)) as [o1 b1]. now intros [= <- <-].
Qed.

Lemma step_inv {A} e st (o0 : outcome A) b o b' :
  Bridge.step e st o0 b = (o, b') →
  o = o0 ∧ b' = set_sys (elapse (took e st) (sys b)) b.
Proof.
  unfold Bridge.step, Bridge.on_sys, zoom, bind, modify, await. cbn [fst snd].
  now intros [= <- <-].
Qed.

Lemma on_pool_processJob_returned e id wf b r b' :
  on_pool (PoolManager.processJob (onProgress e id) (pipeline e) wf) b = (Returned r, b') →
  ∃ pdir, PoolManager.mkdtemp (pipeline e) = Returned pdir
    ∧ r = PoolManager.PoolResult (pdir +:+ "/output.mp4") pdir
    ∧ tmpdirs (sys b') = {[pdir]} ∪ tmpdirs (sys b).
Proof.
  unfold on_pool, zoom.
  set (w := PoolManager.World (poolManager b) (sys b) b).
  destruct (PoolManager.processJob (onProgress e id) (pipeline e) wf w) as [o w'] eqn:Hrun.
  intros [= -> <-].
  destruct (processJob_result _ _ _ _ _ _ Hrun) as (pdir & Hd & ->).
  exists pdir. split; [exact Hd|]. split; [reflexivity|].
  pose proof (processJob_workspace (onProgress e id) (pipeline e) wf w pdir Hd) as Ht.
  rewrite Hrun in Ht. exact Ht.
Qed.

Lemma finally_closed_form e id fr :
  self (processJob_finally e id fr).2
  = let b1 := set_activeJobs (delete id) (self fr) in
    let b2 := match tempDir fr with
              | Some d => set_sys (removed (rm_ok e d) d (sys b1)) b1
              | None => b1
              end in
    match poolTempDir fr with
    | Some d => set_sys (removed (rm_ok e d) d (sys b2)) b2
    | None => b2
    end.
Proof.
  unfold processJob_finally.
  set (fr1 := Frame (set_activeJobs (delete id) (self fr)) (tempDir fr) (poolTempDir fr)).
  rewrite (bind_returned _ _ fr () fr1) by reflexivity.
  rewrite (bind_returned _ _ fr1 fr1 fr1) by reflexivity.
  unfold bind, on_self, Bridge.on_sys, ResultAssembler.cleanupTemp, zoom, modify, ret.
  subst fr1. cbn [tempDir poolTempDir self fst snd].
  destruct (tempDir fr), (poolTempDir fr); reflexivity.
Qed.

Lemma removed_spec ok d s x :
  x ∈ tmpdirs (removed ok d s) ↔ x ∈ tmpdirs s ∧ (ok = true → x ≠ d).
Proof.
  unfold removed. destruct ok; cbn [tmpdirs].
  - rewrite elem_of_difference, elem_of_singleton. intuition.
  - intuition discriminate.
Qed.

Lemma finally_workspaces e id fr x :
  x ∈ tmpdirs (sys (self (processJob_finally e id fr).2)) ↔
  x ∈ tmpdirs (sys (self fr))
  ∧ (∀ d, tempDir fr = Some d → rm_ok e d = true → x ≠ d)
  ∧ (∀ d, poolTempDir fr = Some d → rm_ok e d = true → x ≠ d).
Proof.
  rewrite finally_closed_form. cbv zeta.
  destruct (tempDir fr) as [d|], (poolTempDir fr) as [d'|];
    cbn [sys set_sys set_activeJobs]; rewrite ?removed_spec; cbn [sys set_sys set_activeJobs].
  - split.
    + intros ((Hx & H1) & H2). split; [exact Hx|]. split; intros ? [= <-]; assumption.
    + intros (Hx & H1 & H2). split; [split|]; eauto.
  - split.
    + intros (Hx & H1). split; [exact Hx|]. split; [intros ? [= <-]; assumption|discriminate].
    + intros (Hx & H1 & H2). split; eauto.
  - split.
    + intros (Hx & H1). split; [exact Hx|]. split; [discriminate|intros ? [= <-]; assumption].
    + intros (Hx & H1 & H2). split; eauto.
  - split; [intros Hx; split; [exact Hx|split; discriminate]|now intros (Hx & _)].
Qed.

Lemma postSuccess_returned file r id path c0 c :
  RunnerClient.postSuccess file r id path c0 = (Returned (), c) →
  ∃ tok content,
    file = Returned content ∧ RunnerClient.jobTokens c0 !! id = Some tok ∧ tok ≠ ""
    ∧ c = RunnerClient.Client (RunnerClient.url c0) (RunnerClient.runnerToken c0)
            (delete id (RunnerClient.jobTokens c0))
            (RunnerClient.requests c0
               ++ [RunnerClient.Request
                     (RunnerClient.url c0 +:+ "/api/v1/runners/jobs/" +:+ id +:+ "/success")
                     (RunnerClient.SuccessForm (RunnerClient.runnerToken c0) tok content)]).
Proof.
  unfold RunnerClient.postSuccess, RunnerClient._jobToken, RunnerClient.fetch,
    RunnerClient.checked, RunnerClient.set_jobTokens, RunnerClient._apiUrl.
  munfold. cbn.
  destruct (RunnerClient.jobTokens c0 !! id) as [tok|]; [|discriminate].
  destruct (decide (tok = "")); [discriminate|].
  destruct file as [content|]; [|discriminate].
  destruct r as [msg|[] st txt []]; cbn; try discriminate.
  intros [= <-]. exists tok, content. auto.
Qed.

Lemma updateJob_tokens r id pct c :
  RunnerClient.jobTokens (RunnerClient.updateJob r id pct c).2 = RunnerClient.jobTokens c.
Proof.
  unfold RunnerClient.updateJob, RunnerClient._jobToken, RunnerClient.fetch,
    RunnerClient.checked.
  munfold. cbn.
  destruct (RunnerClient.jobTokens c !! id) as [tok|]; [|reflexivity].
  destruct (decide (tok = "")); [reflexivity|].
  destruct r as [msg|[] st txt []]; reflexivity.
Qed.

Lemma on_pool_processJob_tokens e id wf b :
  RunnerClient.jobTokens
    (runnerClient (on_pool (PoolManager.processJob (onProgress e id) (pipeline e) wf) b).2)
  = RunnerClient.jobTokens (runnerClient b).
Proof.
  apply (preserves_on_pool (λ b, RunnerClient.jobTokens (runnerClient b))
           ltac:(reflexivity) ltac:(reflexivity)).
  apply preserves_pool_processJob. intros pct s h. unfold onProgress.
  cbn [runnerClient set_runnerClient]. rewrite updateJob_tokens. reflexivity.
Qed.

Tactic Notation "peel" hyp(H) ident(x) ident(s) ident(Hs) :=
  apply bind_inv in H as (x & s & Hs & H).

Lemma try_returned e id ty p fr fr' :
  processJob_try e id ty p fr = (Returned (), fr') →
  ∃ dir pdir tok content,
    Bridge.mkdtemp e = Returned dir
    ∧ PoolManager.mkdtemp (pipeline e) = Returned pdir
    ∧ readFile e = Returned content
    ∧ tempDir fr' = Some dir ∧ poolTempDir fr' = Some pdir
    ∧ tmpdirs (sys (self fr')) = {[pdir]} ∪ ({[dir]} ∪ tmpdirs (sys (self fr)))
    ∧ RunnerClient.jobTokens (runnerClient (self fr')) !! id = None
    ∧ JobWatchdog.jobs (watchdog (self fr')) !! id = None
    ∧ tok ≠ ""
    ∧ last (RunnerClient.requests (runnerClient (self fr')))
      = Some (success_request (self fr') id tok content)
    ∧ last (log (self fr')) = Some (LogInfo "Job completed successfully")
    ∧ RunnerClient.jobTokens (runnerClient (self fr)) !! id = Some tok.
Proof.
  unfold processJob_try. intros H.
  peel H wf0 fr1 H1. peel H dir fr2 H2. peel H u3 fr3 H3. peel H u4 fr4 H4.
  peel H u5 fr5 H5. peel H u6 fr6 H6. peel H u7 fr7 H7. peel H res fr8 H8.
  peel H u9 fr9 H9. peel H result fr10 H10. peel H u11 fr11 H11. peel H u12 fr12 H12.
  peel H u13 fr13 H13.
  (* 1 *)
  unfold await in H1. injection H1 as H1 <-.
  (* 2 *)
  apply on_self_inv in H2 as (H2 & Ht2 & Hp2). apply step_inv in H2 as (Hdir & Hs2).
  (* 3 *)
  apply on_self_inv in H3 as (H3 & Ht3 & Hp3).
  unfold Bridge.on_sys, zoom, modify in H3. injection H3 as _ Hs3.
  (* 4 *)
  unfold modify in H4. injection H4 as _ Hs4.
  (* 5 *)
  apply on_self_inv in H5 as (H5 & Ht5 & Hp5). apply step_inv in H5 as (_ & Hs5).
  (* 6, 7 *)
  apply on_self_inv in H6 as (H6 & Ht6 & Hp6). unfold modify in H6. injection H6 as _ Hs6.
  apply on_self_inv in H7 as (H7 & Ht7 & Hp7). unfold modify in H7. injection H7 as _ Hs7.
  (* 8 *)
  apply on_self_inv in H8 as (H8 & Ht8 & Hp8).
  pose proof (on_pool_processJob_tokens e id
                (JobTranslator.with_localInputPath (dir +:+ "/input.mp4")
                   (JobTranslator.with_jobUUID id wf0))
                (self fr7)) as K8.
  rewrite H8 in K8. cbn [snd] in K8.
  apply on_pool_processJob_returned in H8 as (pdir & Hpdir & -> & Hs8).
  (* 9 *)
  unfold modify in H9. injection H9 as _ Hs9.
  (* 10, 11 *)
  apply on_self_inv in H10 as (H10 & Ht10 & Hp10). apply step_inv in H10 as (_ & Hs10).
  apply on_self_inv in H11 as (H11 & Ht11 & Hp11).
  unfold Bridge.on_sys, zoom, modify in H11. injection H11 as _ Hs11.
  (* 12 *)
  apply on_self_inv in H12 as (H12 & Ht12 & Hp12).
  unfold on_client, zoom, ResultAssembler.uploadResult in H12.
  destruct (RunnerClient.postSuccess _ _ _ _ _) as [o c] eqn:Hup.
  injection H12 as -> Hs12. destruct u12.
  apply postSuccess_returned in Hup as (tok & content & Hfile & Htok & Hne & Hc).
  (* 13, 14 *)
  apply on_self_inv in H13 as (H13 & Ht13 & Hp13). unfold modify in H13. injection H13 as _ Hs13.
  apply on_self_inv in H as (H14 & Ht14 & Hp14). unfold modify in H14. injection H14 as Hs14.
  exists dir, pdir, tok, content.
  split; [now symmetry|]. split; [exact Hpdir|]. split; [exact Hfile|].
  split; [rewrite Ht14, Ht13, Ht12, Ht11, Ht10, <- Hs9; cbn [tempDir];
          rewrite Ht8, Ht7, Ht6, Ht5, <- Hs4; reflexivity|].
  split; [rewrite Hp14, Hp13, Hp12, Hp11, Hp10, <- Hs9; reflexivity|].
  split.
  { assert (T2 : tmpdirs (sys (self fr2)) = tmpdirs (sys (self fr))) by now rewrite Hs2.
    assert (T3 : tmpdirs (sys (self fr3)) = {[dir]} ∪ tmpdirs (sys (self fr2)))
      by now rewrite <- Hs3.
    assert (T4 : tmpdirs (sys (self fr4)) = tmpdirs (sys (self fr3))) by now rewrite <- Hs4.
    assert (T5 : tmpdirs (sys (self fr5)) = tmpdirs (sys (self fr4))) by now rewrite Hs5.
    assert (T6 : tmpdirs (sys (self fr6)) = tmpdirs (sys (self fr5))) by now rewrite <- Hs6.
    assert (T7 : tmpdirs (sys (self fr7)) = tmpdirs (sys (self fr6))) by now rewrite <- Hs7.
    assert (T9 : tmpdirs (sys (self fr9)) = tmpdirs (sys (self fr8))) by now rewrite <- Hs9.
    assert (T10 : tmpdirs (sys (self fr10)) = tmpdirs (sys (self fr9))) by now rewrite Hs10.
    assert (T11 : tmpdirs (sys (self fr11)) = tmpdirs (sys (self fr10))) by now rewrite <- Hs11.
    assert (T12 : tmpdirs (sys (self fr12)) = tmpdirs (sys (self fr11))) by now rewrite <- Hs12.
    assert (T13 : tmpdirs (sys (self fr13)) = tmpdirs (sys (self fr12))) by now rewrite <- Hs13.
    assert (T14 : tmpdirs (sys (self fr')) = tmpdirs (sys (self fr13))) by now rewrite <- Hs14.
    congruence. }
  assert (Hkept : RunnerClient.jobTokens (runnerClient (self fr11))
                  = RunnerClient.jobTokens (runnerClient (self fr))).
  { assert (K2 : runnerClient (self fr2) = runnerClient (self fr)) by now rewrite Hs2.
    assert (K3 : runnerClient (self fr3) = runnerClient (self fr2)) by now rewrite <- Hs3.
    assert (K4 : runnerClient (self fr4) = runnerClient (self fr3)) by now rewrite <- Hs4.
    assert (K5 : runnerClient (self fr5) = runnerClient (self fr4)) by now rewrite Hs5.
    assert (K6 : runnerClient (self fr6) = runnerClient (self fr5)) by now rewrite <- Hs6.
    assert (K7 : runnerClient (self fr7) = runnerClient (self fr6)) by now rewrite <- Hs7.
    assert (K9 : runnerClient (self fr9) = runnerClient (self fr8)) by now rewrite <- Hs9.
    assert (K10 : runnerClient (self fr10) = runnerClient (self fr9)) by now rewrite Hs10.
    assert (K11 : runnerClient (self fr11) = runnerClient (self fr10)) by now rewrite <- Hs11.
    congruence. }
  rewrite Hkept in Htok.
  rewrite <- Hs14, <- Hs13, <- Hs12.
  cbn [runnerClient watchdog log set_watchdog write set_runnerClient].
  split; [rewrite Hc; cbn; apply lookup_delete_eq|].
  split; [apply clear_removes|]. split; [exact Hne|].
  split; [|split; [apply last_snoc|exact Htok]].
  unfold success_request. cbn [runnerClient set_watchdog write set_runnerClient].
  rewrite Hc. cbn. apply last_snoc.
Qed.

Lemma try_tempDir e id ty p fr wf dir :
  JobTranslator.translateJob ty p = Returned wf → Bridge.mkdtemp e = Returned dir →
  tempDir (processJob_try e id ty p fr).2 = Some dir.
Proof.
  intros Htr Hd. unfold processJob_try. rewrite Htr, Hd.
  rewrite (bind_returned _ _ fr wf fr) by reflexivity.
  set (fr2 := Frame (set_sys (elapse (took e TempDir) (sys (self fr))) (self fr))
                (tempDir fr) (poolTempDir fr)).
  rewrite (bind_returned _ _ fr dir fr2) by reflexivity.
  set (fr3 := Frame (set_sys (made dir (sys (self fr2))) (self fr2))
                (tempDir fr2) (poolTempDir fr2)).
  rewrite (bind_returned _ _ fr2 () fr3) by reflexivity.
  set (fr4 := Frame (self fr3) (Some dir) (poolTempDir fr3)).
  rewrite (bind_returned _ _ fr3 () fr4) by reflexivity.
  match goal with
  | |- tempDir (?c ?s).2 = _ =>
      assert (Hp : preserves tempDir c); [|exact (Hp s)]
  end.
  repeat match goal with
    | |- preserves _ (bind _ _) => apply preserves_bind; [|intros ?]
    | |- preserves _ (on_self _) => unfold on_self; apply preserves_zoom; reflexivity
    | |- preserves _ (modify _) => apply preserves_modify; intros ?; reflexivity
    end.
Qed.

(** X24.  Once [translateJob] and [mkdtemp] returned, the download
    workspace is removed when [processJob] returns, whatever failed in
    between, provided the removal itself succeeds. *)
Theorem bridge_download_workspace_removed e id ty p b wf dir :
  JobTranslator.translateJob ty p = Returned wf → Bridge.mkdtemp e = Returned dir →
  rm_ok e dir = true →
  dir ∉ tmpdirs (sys (processJob e id ty p b).2).
Proof.
  intros Htr Hd Hrm. rewrite processJob_closed_form. cbv zeta. cbn [snd].
  set (fr1 := Frame _ None None).
  pose proof (try_tempDir e id ty p fr1 wf dir Htr Hd) as Ht.
  set (fr := match (processJob_try e id ty p fr1).1 with
             | Returned _ => _ | Threw _ => _ end).
  assert (Hfr : tempDir fr = Some dir).
  { subst fr. destruct (processJob_try e id ty p fr1) as [[[]|err] fr2]; exact Ht. }
  intros Hin. apply finally_workspaces in Hin as (_ & Hne & _).
  exact (Hne dir Hfr Hrm eq_refl).
Qed.

(** X25.  A run of [processJob] on a bridge that holds the token [tok] of
    the job, during which no timer of the watchdog runs out
    ([no_timeout_during]) and whose [try] block returns: [tok] is not empty,
    the last request is the success report carrying [tok], the token is
    consumed, no watchdog entry is left for the job, the log ends with "Job
    completed successfully", and of the two workspaces only one whose
    removal fails stays on disk.  The run is followed on its own: a run
    during which a timer runs out continues in the code with the timeout
    handler ([timeoutHandler]), which is outside this statement. *)
Theorem bridge_successful_run e id ty p b tok :
  RunnerClient.jobTokens (runnerClient b) !! id = Some tok →
  no_timeout_during e b (processJob e id ty p b).2 →
  failed_run e id ty p b = false →
  let b' := (processJob e id ty p b).2 in
  ∃ dir pdir content,
    Bridge.mkdtemp e = Returned dir
    ∧ PoolManager.mkdtemp (pipeline e) = Returned pdir
    ∧ readFile e = Returned content ∧ tok ≠ ""
    ∧ last (RunnerClient.requests (runnerClient b'))
      = Some (success_request b' id tok content)
    ∧ RunnerClient.jobTokens (runnerClient b') !! id = None
    ∧ JobWatchdog.jobs (watchdog b') !! id = None
    ∧ last (log b') = Some (LogInfo "Job completed successfully")
    ∧ (∀ x, x ∈ tmpdirs (sys b') ↔
            (x = pdir ∨ x = dir ∨ x ∈ tmpdirs (sys b))
            ∧ (rm_ok e dir = true → x ≠ dir) ∧ (rm_ok e pdir = true → x ≠ pdir)).
Proof.
  intros Hheld _ Hok. cbv zeta. rewrite processJob_closed_form. cbv zeta. cbn [snd].
  unfold failed_run in Hok. set (fr1 := Frame _ None None) in *.
  destruct (processJob_try e id ty p fr1) as [[[]|err] fr2] eqn:Htry;
    cbn [fst snd returned negb] in *; [|discriminate].
  destruct (try_returned e id ty p fr1 fr2 Htry)
    as (dir & pdir & tok' & content & Hd & Hpd & Hfile & Ht & Hp & Htmp & Htok & Hwd
        & Hne & Hlast & Hlog & Hsame).
  assert (tok' = tok) as ->.
  { subst fr1. cbn [self runnerClient set_activeJobs] in Hsame. congruence. }
  exists dir, pdir, content.
  pose proof (preserves_finally runnerClient e id ltac:(reflexivity) ltac:(reflexivity) fr2)
    as Hc.
  pose proof (preserves_finally watchdog e id ltac:(reflexivity) ltac:(reflexivity) fr2)
    as Hw.
  pose proof (preserves_finally log e id ltac:(reflexivity) ltac:(reflexivity) fr2)
    as Hl.
  unfold compose in Hc, Hw, Hl. unfold success_request. rewrite Hc, Hw, Hl.
  repeat (split; [assumption|]).
  intros x. rewrite finally_workspaces, Htmp, Ht, Hp.
  rewrite !elem_of_union, !elem_of_singleton. subst fr1. cbn [self sys set_activeJobs].
  split.
  - intros (Hx & H1 & H2). split; [exact Hx|]. split; eauto.
  - intros (Hx & H1 & H2). split; [exact Hx|]. split; intros ? [= <-]; assumption.
Qed.
(** X26.  A job whose run failed is not accepted again: after the run the
    id is in the failed set, and whatever the queue offers, a later [poll]
    sends no accept request for it. *)
Theorem bridge_failed_job_not_retried e id ty p b (pe : poll_env) :
  failed_run e id ty p b = true →
  let b' := (processJob e id ty p b).2 in
  id ∈ failedJobs b'
  ∧ ∃ ids,
(id ∉ ids)
      ∧ (sent_since b' (poll pe b').2 = []
         ∨ sent_since b' (poll pe b').2
           = job_request b' :: (accept_request b' <$> ids)).
Proof.
  intros Hfailed. cbv zeta.
  destruct (failure_path e id ty p b Hfailed) as (Hin & _ & _). split; [exact Hin|].
  destruct (poll_requests pe (processJob e id ty p b).2) as [Hnone|(ids & Hsent & Hsub)].
  - exists []. split; [apply not_elem_of_nil|now left].
  - exists ids. split; [|now right].
    intros Hid. apply (elem_of_sublist _ _ _ Hid) in Hsub. rename Hsub into Hid'.
    clear Hid. rename Hid' into Hid.
    apply list_elem_of_fmap in Hid as (j & -> & Hj).
    apply list_elem_of_filter in Hj as [[_ Hnot] _]. contradiction.
Qed.
End RunFacts.

(** Scenario B: the pipeline of "job-a" times out. *)
Lemma bridge_download_workspace_removed_witness :
  "/tmp/ptsn-job-a-dl"
  ∉ tmpdirs (Bridge.sys (Bridge.processJob Scenario.jobEnvB "job-a"
                           "vod-web-video-transcoding" Scenario.payloadA
                           Scenario.acceptedA).2).
Proof.
  apply (bridge_download_workspace_removed Scenario.jobEnvB "job-a"
           "vod-web-video-transcoding" Scenario.payloadA Scenario.acceptedA
           (JobTranslator.Workflow "vod-web" "http://localhost:9000/input" 720 30 "mp4" "" "")
           "/tmp/ptsn-job-a-dl"); reflexivity.
Defined.

(** Scenario A: "job-a" completes after 7850 ms, well within the hour of
    the watchdog. *)
Lemma bridge_successful_run_witness :
  let b' := (Bridge.processJob Scenario.jobEnvA "job-a" "vod-web-video-transcoding"
               Scenario.payloadA Scenario.acceptedA).2 in
  last (RunnerClient.requests (Bridge.runnerClient b'))
  = Some (Bridge.success_request b' "job-a" "token-a" "bytes")
  ∧ RunnerClient.jobTokens (Bridge.runnerClient b') !! "job-a" = None
  ∧ JobWatchdog.jobs (Bridge.watchdog b') !! "job-a" = None
  ∧ elements (tmpdirs (Bridge.sys b')) = [].
Proof.
  intros b'.
  assert (Hheld : RunnerClient.jobTokens (Bridge.runnerClient Scenario.acceptedA) !! "job-a"
                  = Some "token-a") by (vm_compute; reflexivity).
  assert (Hquiet : Bridge.no_timeout_during Scenario.jobEnvA Scenario.acceptedA b').
  { split; [intros st; vm_compute; discriminate|].
    split; [intros st; vm_compute; discriminate|].
    split; [intros at_ms result [= <- _]; lia|].
    split; [intros tm Hin; vm_compute in Hin; now apply elem_of_nil in Hin|].
    vm_compute. reflexivity. }
  assert (Hok : Bridge.failed_run Scenario.jobEnvA "job-a" "vod-web-video-transcoding"
                  Scenario.payloadA Scenario.acceptedA = false) by (vm_compute; reflexivity).
  pose proof (bridge_successful_run Scenario.jobEnvA "job-a" "vod-web-video-transcoding"
                Scenario.payloadA Scenario.acceptedA "token-a" Hheld Hquiet Hok) as Hrun.
  cbv zeta in Hrun.
  destruct Hrun as (dir & pdir & content & _ & _ & Hfile & _ & Hlast & Htoken & Hwatch & _).
  injection Hfile as <-.
  split; [exact Hlast|]. split; [exact Htoken|]. split; [exact Hwatch|]. vm_compute. reflexivity.
Defined.

(** In the slow scenario the timer of the watchdog is due during the
    segmentation: the run is not one during which no timer runs out. *)
Lemma slow_run_times_out :
  let b' := (Bridge.processJob Scenario.jobEnvSlow "job-a" "vod-web-video-transcoding"
               Scenario.payloadA Scenario.acceptedA).2 in
  ¬ Bridge.no_timeout_during Scenario.jobEnvSlow Scenario.acceptedA b'.
Proof.
  intros b' (_ & _ & _ & _ & Hend). vm_compute in Hend. discriminate.
Qed.

(** Scenario B, then the queue offers "job-a" again. *)
Lemma bridge_failed_job_not_retried_witness :
  let b' := (Bridge.processJob Scenario.jobEnvB "job-a" "vod-web-video-transcoding"
               Scenario.payloadA Scenario.acceptedA).2 in
  "job-a" ∈ Bridge.failedJobs b'
  ∧ Bridge.decisions_since b' (Bridge.poll Scenario.retryEnv b').2
    = [("job-a", Bridge.SkipFailed, 0%nat); ("job-9", Bridge.Accepted, 1%nat)].
Proof.
  intros b'.
  assert (Hfailed : Bridge.failed_run Scenario.jobEnvB "job-a" "vod-web-video-transcoding"
                      Scenario.payloadA Scenario.acceptedA = true) by (vm_compute; reflexivity).
  pose proof (bridge_failed_job_not_retried Scenario.jobEnvB "job-a"
                "vod-web-video-transcoding" Scenario.payloadA Scenario.acceptedA
                Scenario.retryEnv Hfailed) as Hrun.
  cbv zeta in Hrun. destruct Hrun as (Hin & _).
  split; [exact Hin|]. vm_compute. reflexivity.
Defined.
